(** * EliteMindset MCP servers: a shallow embedding of [server.ts]

    The repository ships two variants of one Node server:
    - the _simple_ variant (keyword classifier, port 10000, health route);
    - the _richer_ variant (timebox composer, widget asset, port 8000).

    Part I embeds the JavaScript primitives the code relies on (strings as
    sequences of UTF-16 code units, [trim], [includes], the regular
    expression fragment of the two literals, [Number]), Part II the parts
    of Node's HTTP interface the handlers touch, Parts III and IV the two
    variants, Part V what is shared by both, Part VI the properties the
    specification claims, Part VII further properties of the code. *)

From Stdlib Require Import NArith ZArith String Ascii Lia.
From stdpp Require Import gmap list strings.

Set Default Proof Using "Type".
Local Open Scope N_scope.

(* ================================================================= *)
(** * Part I: JavaScript primitives *)
(* ================================================================= *)

Module JS.

(** A JavaScript string is a finite sequence of 16-bit code units. *)
Abbreviation jsstring := (list N).

(** Source literals (all ASCII unless a code unit is spelled out). *)
Definition lit (s : string) : jsstring :=
  map N_of_ascii (list_ascii_of_string s).

(** ECMAScript WhiteSpace and LineTerminator code points: what
    [String.prototype.trim] strips and what [\s] matches. *)
Definition isWhiteSpace (c : N) : bool :=
  (c =? 0x09) || (c =? 0x0A) || (c =? 0x0B) || (c =? 0x0C) || (c =? 0x0D)
  || (c =? 0x20) || (c =? 0xA0) || (c =? 0x1680)
  || ((0x2000 <=? c) && (c <=? 0x200A))
  || (c =? 0x2028) || (c =? 0x2029) || (c =? 0x202F) || (c =? 0x205F)
  || (c =? 0x3000) || (c =? 0xFEFF).

(** [\d] without the [u] flag: ASCII digits. *)
Definition isDigit (c : N) : bool := (0x30 <=? c) && (c <=? 0x39).

Definition isUpper (c : N) : bool := (0x41 <=? c) && (c <=? 0x5A).
Definition isLower (c : N) : bool := (0x61 <=? c) && (c <=? 0x7A).

(** [\w] without the [u] flag: [A-Za-z0-9_]. *)
Definition isWordChar (c : N) : bool :=
  isUpper c || isLower c || isDigit c || (c =? 0x5F).

Fixpoint dropWhile (p : N -> bool) (s : jsstring) : jsstring :=
  match s with
  | [] => []
  | c :: s' => if p c then dropWhile p s' else s
  end.

Fixpoint takeWhile (p : N -> bool) (s : jsstring) : jsstring :=
  match s with
  | [] => []
  | c :: s' => if p c then c :: takeWhile p s' else []
  end.

Definition trimStart (s : jsstring) : jsstring := dropWhile isWhiteSpace s.
Definition trimEnd (s : jsstring) : jsstring :=
  rev (dropWhile isWhiteSpace (rev s)).

(** [String.prototype.trim]. *)
Definition trim (s : jsstring) : jsstring := trimEnd (trimStart s).

Fixpoint startsWith (s prefix : jsstring) {struct prefix} : bool :=
  match prefix, s with
  | [], _ => true
  | _ :: _, [] => false
  | p :: prefix', c :: s' => (c =? p) && startsWith s' prefix'
  end.

Definition endsWith (s suffix : jsstring) : bool :=
  startsWith (rev s) (rev suffix).

(** [String.prototype.includes]. *)
Fixpoint includes (s needle : jsstring) : bool :=
  startsWith s needle ||
  match s with
  | [] => false
  | _ :: s' => includes s' needle
  end.

(** [Array.prototype.join]. *)
Fixpoint join (sep : jsstring) (parts : list jsstring) : jsstring :=
  match parts with
  | [] => []
  | [p] => p
  | p :: rest => p ++ sep ++ join sep rest
  end.

(** [s.split(sep)] for a separator of one code unit: the pieces between
    its occurrences, in order. *)
Fixpoint splitAt (sep : N) (s : jsstring) : list jsstring :=
  match s with
  | [] => [[]]
  | c :: r =>
      if c =? sep then [] :: splitAt sep r
      else match splitAt sep r with
           | l :: ls => (c :: l) :: ls
           | [] => [[c]]
           end
  end.

(** Truthiness of a string: non-empty. *)
Definition truthy (s : jsstring) : bool :=
  match s with [] => false | _ => true end.

(** Code-unit order, the default comparison of [Array.prototype.sort]
    on strings. *)
Fixpoint leStr (a b : jsstring) : bool :=
  match a, b with
  | [], _ => true
  | _ :: _, [] => false
  | x :: a', y :: b' => (x <? y) || ((x =? y) && leStr a' b')
  end.

Fixpoint insertSorted (x : jsstring) (l : list jsstring) : list jsstring :=
  match l with
  | [] => [x]
  | y :: l' => if leStr x y then x :: l else y :: insertSorted x l'
  end.

(** [Array.prototype.sort()] with the default comparator. *)
Definition sort (l : list jsstring) : list jsstring :=
  foldr insertSorted [] l.

(** ** Regular expressions

    The fragment used by the two literals of the program,
    [/\bdone\b/] and [/(\d+)\s*(minutes?|mins?|hours?|hrs?)/i], with the
    backtracking semantics of ECMAScript: alternatives in order, greedy
    quantifiers, leftmost match. Quantifiers [*] and [+] are applied to
    single-character atoms only, as in the source. *)

Inductive regex : Type :=
| REmpty                        (* the empty pattern *)
| RChar (c : N)                 (* a pattern character *)
| RClass (p : N -> bool)        (* a character class escape *)
| RWordB                        (* [\b] *)
| RSeq (r1 r2 : regex)
| RAlt (r1 r2 : regex)
| ROpt (r : regex)              (* [r?], greedy *)
| RStarC (p : N -> bool)        (* [c*] on a class, greedy *)
| RPlusC (p : N -> bool).       (* [c+] on a class, greedy *)

(** Canonicalize of the [i] flag (non-unicode mode): the upper-case
    mapping, which never folds a code unit at or above 128 into ASCII.
    For the ASCII pattern characters of the program only the ASCII part
    of the mapping can produce a match, so the other code units are left
    as they are. *)
Definition canonicalize (c : N) : N := if isLower c then c - 0x20 else c.

Definition charMatches (ignoreCase : bool) (pat c : N) : bool :=
  if ignoreCase then canonicalize c =? canonicalize pat else c =? pat.

Definition isWordOpt (c : option N) : bool :=
  match c with Some x => isWordChar x | None => false end.

(** Greedy iteration of a class: longest run first, then back off. *)
Fixpoint starC {A} (p : N -> bool) (prev : option N) (s : jsstring)
    (k : option N -> jsstring -> option A) : option A :=
  match s with
  | c :: s' =>
      if p c then
        match starC p (Some c) s' k with
        | Some a => Some a
        | None => k prev s
        end
      else k prev s
  | [] => k prev s
  end.

(** [rmatch i r prev s k]: match [r] at the position whose preceding
    code unit is [prev] and whose remaining input is [s]; on success hand
    the new position to the continuation [k]; [None] makes the caller
    backtrack. *)
Fixpoint rmatch {A} (ignoreCase : bool) (r : regex) (prev : option N)
    (s : jsstring) (k : option N -> jsstring -> option A) : option A :=
  match r with
  | REmpty => k prev s
  | RChar c =>
      match s with
      | x :: s' => if charMatches ignoreCase c x then k (Some x) s' else None
      | [] => None
      end
  | RClass p =>
      match s with
      | x :: s' => if p x then k (Some x) s' else None
      | [] => None
      end
  | RWordB =>
      if xorb (isWordOpt prev) (isWordOpt (head s)) then k prev s else None
  | RSeq r1 r2 =>
      rmatch ignoreCase r1 prev s
        (fun prev' s' => rmatch ignoreCase r2 prev' s' k)
  | RAlt r1 r2 =>
      match rmatch ignoreCase r1 prev s k with
      | Some a => Some a
      | None => rmatch ignoreCase r2 prev s k
      end
  | ROpt r1 =>
      match rmatch ignoreCase r1 prev s k with
      | Some a => Some a
      | None => k prev s
      end
  | RStarC p => starC p prev s k
  | RPlusC p =>
      match s with
      | x :: s' => if p x then starC p (Some x) s' k else None
      | [] => None
      end
  end.

(** Match at one position; the result is the matched substring. *)
Definition matchAt (ignoreCase : bool) (r : regex) (prev : option N)
    (s : jsstring) : option jsstring :=
  match rmatch ignoreCase r prev s (fun _ rest => Some rest) with
  | Some rest => Some (take (length s - length rest) s)
  | None => None
  end.

(** Leftmost match: try every start position in turn. *)
Fixpoint searchFrom (ignoreCase : bool) (r : regex) (prev : option N)
    (s : jsstring) : option jsstring :=
  match matchAt ignoreCase r prev s with
  | Some m => Some m
  | None =>
      match s with
      | [] => None
      | c :: s' => searchFrom ignoreCase r (Some c) s'
      end
  end.

(** [s.match(re)] for a non-global [re]: element 0 of the result, the
    matched substring, or [None] for [null]. *)
Definition match0 (ignoreCase : bool) (r : regex) (s : jsstring)
    : option jsstring :=
  searchFrom ignoreCase r None s.

(** [re.test(s)]. *)
Definition test (ignoreCase : bool) (r : regex) (s : jsstring) : bool :=
  match match0 ignoreCase r s with Some _ => true | None => false end.

(** A literal run of pattern characters. *)
Fixpoint rlit (cs : jsstring) : regex :=
  match cs with
  | [] => REmpty
  | c :: cs' => RSeq (RChar c) (rlit cs')
  end.

(** The code unit before a position, [pre] being what was read since a
    position preceded by [prev]. *)
Definition prevAfter (prev : option N) (pre : jsstring) : option N :=
  match last pre with
  | Some c => Some c
  | None => prev
  end.

(** [s] starts with the pattern characters [pat], compared as a regular
    expression compares them under the given [i] flag. *)
Fixpoint prefixMatches (ignoreCase : bool) (s pat : jsstring)
    {struct pat} : bool :=
  match pat, s with
  | [], _ => true
  | _ :: _, [] => false
  | p :: pat', c :: s' =>
      charMatches ignoreCase p c && prefixMatches ignoreCase s' pat'
  end.

(** [p] has at least two code units and no white space at either end,
    so that [trim] cannot cut into an occurrence of it. *)
Definition keepsEdges (p : jsstring) : bool :=
  match p, last p with
  | a :: _ :: _, Some b => negb (isWhiteSpace a) && negb (isWhiteSpace b)
  | _, _ => false
  end.

(** A lower-casing that is exact on ASCII strings; [toLowerCase] itself
    (full Unicode case mapping) is a parameter of the classifier. *)
Definition toLowerAscii (s : jsstring) : jsstring :=
  map (fun c => if isUpper c then c + 0x20 else c) s.

End JS.


(* ================================================================= *)
(** * Part II: the HTTP interface and the session directory *)
(* ================================================================= *)

Module Node.

(** What the handlers do to a [ServerResponse]: headers set so far, and,
    once [writeHead(..).end(..)] ran, the status line and the body. *)
Record ServerResponse : Type := mkResponse {
  resHeaders : list (string * string);
  headersSent : bool;
  statusCode : option N;
  resBody : option string
}.

Definition freshResponse : ServerResponse :=
  mkResponse [] false None None.

Definition setHeader (name value : string) (res : ServerResponse)
    : ServerResponse :=
  mkResponse (resHeaders res ++ [(name, value)]) (headersSent res)
             (statusCode res) (resBody res).

(** [res.writeHead(status).end(body)]. *)
Definition writeHeadEnd (status : N) (body : string)
    (res : ServerResponse) : ServerResponse :=
  mkResponse (resHeaders res) true (Some status) (Some body).

(** [res.writeHead(status, headers); res.end()]. *)
Definition writeHeadHeadersEnd (status : N) (hs : list (string * string))
    (res : ServerResponse) : ServerResponse :=
  mkResponse (resHeaders res ++ hs) true (Some status) None.

(** [res.writeHead(status, headers); res.end(body)]. *)
Definition writeHeadHeadersEndBody (status : N)
    (hs : list (string * string)) (body : string)
    (res : ServerResponse) : ServerResponse :=
  mkResponse (resHeaders res ++ hs) true (Some status) (Some body).

(** The response [handlePostMessage] works on once its two CORS headers
    are set. *)
Definition corsPrepared (res : ServerResponse) : ServerResponse :=
  setHeader "Access-Control-Allow-Headers" "content-type"
    (setHeader "Access-Control-Allow-Origin" "*" res).

(** A parsed [URL]: the path and the query parameters in order. *)
Record URL : Type := mkURL {
  pathname : string;
  searchParams : list (string * string)
}.

(** [url.searchParams.get(name)]: the first value, or [null]. *)
Fixpoint searchParamsGet (params : list (string * string)) (name : string)
    : option string :=
  match params with
  | [] => None
  | (k, v) :: rest =>
      if String.eqb k name then Some v else searchParamsGet rest name
  end.

(** An [IncomingMessage] as the request handler sees it; [reqUrl] is
    [None] when [req.url] is missing, otherwise the result of
    [new URL(req.url, base)]. *)
Record IncomingMessage : Type := mkRequest {
  method : string;
  reqUrl : option URL
}.

(** What a call to an SDK method that may throw did to the response. *)
Inductive Outcome : Type :=
| Returned (res : ServerResponse)
| Threw (res : ServerResponse).

(** The SDK's [SSEServerTransport]: its generated identifier and its
    message handler, an external collaborator. *)
Record SSEServerTransport : Type := mkTransport {
  sessionId : string;
  transportHandlePostMessage : IncomingMessage -> ServerResponse -> Outcome
}.

(** The SDK's [Server], identified by what it was created with. *)
Record Server : Type := mkServer {
  serverName : string;
  serverVersion : string
}.

Record SessionRecord : Type := mkSession {
  server : Server;
  transport : SSEServerTransport
}.

(** The module-level [sessions] map. *)
Abbreviation Sessions := (gmap string SessionRecord).

(** Observable calls of a handler, in program order. *)
Inductive Effect : Type :=
| SessionsGet (key : string)
| SessionsSet (key : string)
| SessionsDelete (key : string)
| TransportHandlePost (sid : string).

(** The double quote character, for texts that contain it. *)
Definition dquote : string := String "034"%char EmptyString.

(** The JSON values the handlers serialise, and [JSON.stringify] on them
    (the member names and strings of the program need no escaping). *)
Inductive json : Type :=
| JString (s : string)
| JObject (ms : members)
with members : Type :=
| MNil
| MCons (key : string) (value : json) (rest : members).

Fixpoint stringify (j : json) : string :=
  match j with
  | JString s => dquote +:+ s +:+ dquote
  | JObject ms => "{" +:+ stringifyMembers ms +:+ "}"
  end
with stringifyMembers (ms : members) : string :=
  match ms with
  | MNil => ""
  | MCons k v MNil => dquote +:+ k +:+ dquote +:+ ":" +:+ stringify v
  | MCons k v rest =>
      dquote +:+ k +:+ dquote +:+ ":" +:+ stringify v +:+ ","
      +:+ stringifyMembers rest
  end.

(** Where the request listener hands the request on, or what it
    answered itself. *)
Inductive Dispatch : Type :=
| Responded (res : ServerResponse)
| CallHandleSseRequest (res : ServerResponse)
| CallHandlePostMessage (req : IncomingMessage) (res : ServerResponse)
    (url : URL).

(** Truthiness of a string value ([!sessionId] is its negation). *)
Definition truthyStr (s : string) : bool :=
  negb (String.eqb s "").

(** ** [Number(value)] on strings

    The StringNumericLiteral grammar: optional white space around an
    optionally signed decimal literal (digits, fraction, exponent,
    [Infinity]) or an unsigned binary, octal or hexadecimal integer; the
    empty string is 0; anything else is [NaN]. A finite result is kept as
    the exact decimal [m * 10^e] it denotes; the runtime rounds it to the
    nearest double, which is the same number for every integer below
    2^53. Magnitudes that round to infinity are mapped to [Infinity]. *)

Inductive JSNumber : Type :=
| NaN
| Infinity (negative : bool)
| Finite (m : Z) (e : Z).

Definition isFinite (x : JSNumber) : bool :=
  match x with Finite _ _ => true | _ => false end.

Definition digitValue (radix : Z) (c : N) : option Z :=
  let v :=
    if JS.isDigit c then Some (Z.of_N c - 48)%Z
    else if (0x61 <=? c) && (c <=? 0x66) then Some (Z.of_N c - 87)%Z
    else if (0x41 <=? c) && (c <=? 0x46) then Some (Z.of_N c - 55)%Z
    else None in
  match v with
  | Some d => if (d <? radix)%Z then Some d else None
  | None => None
  end.

(** Value of a non-empty run of digits in [radix]; [None] when [s] is
    empty or holds another code unit. *)
Fixpoint digitsValueFrom (radix : Z) (acc : Z) (s : JS.jsstring) : option Z :=
  match s with
  | [] => Some acc
  | c :: s' =>
      match digitValue radix c with
      | Some d => digitsValueFrom radix (acc * radix + d)%Z s'
      | None => None
      end
  end.

Definition digitsValue (radix : Z) (s : JS.jsstring) : option Z :=
  match s with
  | [] => None
  | _ => digitsValueFrom radix 0%Z s
  end.

(** Rounding of [m * 10^e] to a double overflows from
    [2^1024 - 2^970] on. *)
Definition overflowBound : Z := (2 ^ 1024 - 2 ^ 970)%Z.

Definition roundFinite (m e : Z) : JSNumber :=
  let overflow :=
    if (0 <=? e)%Z then (overflowBound <=? Z.abs m * 10 ^ e)%Z
    else (overflowBound * 10 ^ (- e) <=? Z.abs m)%Z in
  if overflow then Infinity (m <? 0)%Z else Finite m e.

(** [ExponentPart]: nothing, or [e]/[E], an optional sign, digits. *)
Definition exponentPart (s : JS.jsstring) : option Z :=
  match s with
  | [] => Some 0%Z
  | c :: s' =>
      if (c =? 0x65) || (c =? 0x45) then
        match s' with
        | sg :: s'' =>
            if sg =? 0x2B then digitsValue 10 s''
            else if sg =? 0x2D then option_map Z.opp (digitsValue 10 s'')
            else digitsValue 10 s'
        | [] => None
        end
      else None
  end.

(** [StrUnsignedDecimalLiteral] other than [Infinity]. *)
Definition unsignedDecimal (s : JS.jsstring) : option (Z * Z) :=
  let intDigits := JS.takeWhile JS.isDigit s in
  let afterInt := JS.dropWhile JS.isDigit s in
  let '(fracDigits, afterFrac, hasDot) :=
    match afterInt with
    | c :: s' =>
        if c =? 0x2E
        then (JS.takeWhile JS.isDigit s', JS.dropWhile JS.isDigit s', true)
        else ([], afterInt, false)
    | [] => ([], afterInt, false)
    end in
  match intDigits ++ fracDigits with
  | [] => None
  | ds =>
      match digitsValueFrom 10 0%Z ds, exponentPart afterFrac with
      | Some m, Some ex => Some (m, (ex - Z.of_nat (length fracDigits))%Z)
      | _, _ => None
      end
  end.

Definition strDecimalLiteral (s : JS.jsstring) : JSNumber :=
  let '(negative, body) :=
    match s with
    | c :: s' =>
        if c =? 0x2B then (false, s')
        else if c =? 0x2D then (true, s')
        else (false, s)
    | [] => (false, s)
    end in
  if bool_decide (body = JS.lit "Infinity") then Infinity negative
  else
    match unsignedDecimal body with
    | Some (m, e) => roundFinite (if negative then (- m)%Z else m) e
    | None => NaN
    end.

Definition nonDecimalIntegerLiteral (s : JS.jsstring) : option JSNumber :=
  match s with
  | z :: x :: ds =>
      if z =? 0x30 then
        let radix :=
          if (x =? 0x78) || (x =? 0x58) then Some 16%Z
          else if (x =? 0x6F) || (x =? 0x4F) then Some 8%Z
          else if (x =? 0x62) || (x =? 0x42) then Some 2%Z
          else None in
        match radix with
        | Some r =>
            Some match digitsValue r ds with
                 | Some m => roundFinite m 0
                 | None => NaN
                 end
        | None => None
        end
      else None
  | _ => None
  end.

(** [Number(s)] for a string [s] (StringToNumber). *)
Definition stringToNumber (s : JS.jsstring) : JSNumber :=
  match JS.trim s with
  | [] => Finite 0 0
  | text =>
      match nonDecimalIntegerLiteral text with
      | Some n => n
      | None => strDecimalLiteral text
      end
  end.

(** ** Tool and resource descriptors of the SDK *)

(** A value of a [_meta] object. *)
Inductive MetaValue : Type :=
| MetaString (s : string)
| MetaBool (b : bool).

Record ToolAnnotations : Type := mkAnnotations {
  destructiveHint : bool;
  openWorldHint : bool;
  readOnlyHint : bool
}.

(** One entry of [properties] in an input schema. *)
Record SchemaProperty : Type := mkProperty {
  propertyName : string;
  propertyType : string;
  propertyDescription : string
}.

Record InputSchema : Type := mkSchema {
  schemaType : string;
  schemaProperties : list SchemaProperty;
  schemaRequired : list string;
  additionalProperties : bool
}.

Record Tool : Type := mkTool {
  toolName : string;
  toolTitle : option string;
  toolDescription : string;
  toolInputSchema : InputSchema;
  toolMetaOf : list (string * MetaValue);
  toolAnnotations : ToolAnnotations
}.

Record Resource : Type := mkResource {
  resourceName : string;
  resourceUri : string;
  resourceDescription : string;
  resourceMimeType : string;
  resourceMeta : list (string * MetaValue)
}.

Record ResourceTemplate : Type := mkResourceTemplate {
  templateName : string;
  uriTemplate : string;
  templateDescription : string;
  templateMimeType : string;
  templateMeta : list (string * MetaValue)
}.

End Node.

(* ================================================================= *)
(** * Part III: the simple variant *)
(* ================================================================= *)

Module Simple.
Import JS.

(** Keys of [stateData]. *)
Inductive StateKey : Type := S1 | S2 | S3 | S4.

Record StateEntry : Type := { message : string; ask : string }.

Definition stateData (k : StateKey) : StateEntry :=
  match k with
  | S1 => {| message := "You're not stuck. You're overloaded. Pause. Pick the ONE thing that would give you the most relief or progress. Write it down. Then reply: DONE — (what you did).";
             ask := "Reply: DONE — (what you did)" |}
  | S2 => {| message := "Good. You moved. Now do ONE more small thing. Anything. A file rename. A sentence. A single email. Reply: DONE — (what you did).";
             ask := "Reply: DONE — (what you did)" |}
  | S3 => {| message := "You're building momentum. Keep it micro. What's ONE more small thing you can do in the next 60 seconds? Do it. Reply when done.";
             ask := "Reply when you've done it" |}
  | S4 => {| message := "You need clarity, not motivation. List your top 3 concerns. I'll help you identify the ONE thing that matters most right now.";
             ask := "List your top 3 concerns" |}
  end.

(** [/\bdone\b/] *)
Definition doneRegex : regex :=
  RSeq RWordB (RSeq (rlit (lit "done")) RWordB).

Definition donePhrases : list jsstring :=
  map lit ["i did"; "i wrote"; "i opened"; "i sent"; "i renamed";
           "finished"; "completed"]%string.

Definition clarityPhrases : list jsstring :=
  map lit ["what should i focus"; "help me decide"; "which should i";
           "i need clarity"; "prioritize"; "priority";
           "what's the plan"]%string.

Definition momentumPhrases : list jsstring :=
  map lit ["what next"; "next step"; "keep going"; "continue";
           "now what"]%string.

Definition stuckPhrases : list jsstring :=
  map lit ["overwhelmed"; "stuck"; "procrast"; "spinning"; "confus";
           "scattered"; "paraly"; "can't start";
           "don't know where to start"]%string.

(** [list.some(n => t.includes(n))] *)
Definition someIncluded (phrases : list jsstring) (t : jsstring) : bool :=
  existsb (fun n => includes t n) phrases.

Definition doneSignal (t : jsstring) : bool :=
  test false doneRegex t || someIncluded donePhrases t.
Definition clarityRequest (t : jsstring) : bool :=
  someIncluded clarityPhrases t.
Definition momentumRequest (t : jsstring) : bool :=
  someIncluded momentumPhrases t.
Definition stuckSignal (t : jsstring) : bool :=
  someIncluded stuckPhrases t.

Section Classifier.
(** [String.prototype.toLowerCase]: the Unicode lower-case mapping of
    the runtime. The classifier is embedded for any such function;
    [JS.toLowerAscii] is the instance used on ASCII examples. *)
Variable toLowerCase : jsstring -> jsstring.

Definition normalize (userText : jsstring) : jsstring :=
  trim (toLowerCase userText).

Definition inferState (userText : jsstring) : StateKey :=
  let t := normalize userText in
  if doneSignal t then S2
  else if clarityRequest t then S4
  else if momentumRequest t then S3
  else if stuckSignal t then S1
  else S1.
End Classifier.

(** ["done"] occurs in [t] as a whole word: not preceded and not
    followed by a word character. *)
Definition wholeWordDone (t : jsstring) : Prop :=
  exists pre post,
    t = pre ++ lit "done" ++ post
    /\ isWordOpt (last pre) = false
    /\ isWordOpt (head post) = false.

(** One of [phrases] occurs in [t] as a substring. *)
Definition containsOneOf (phrases : list jsstring) (t : jsstring) : Prop :=
  exists p pre post, In p phrases /\ t = pre ++ p ++ post.

(** The specification's reading of the classifier: a priority list of
    (keyword set, state) pairs, first match wins, with a default. *)
Fixpoint firstMatching (rules : list ((jsstring -> bool) * StateKey))
    (default : StateKey) (t : jsstring) : StateKey :=
  match rules with
  | [] => default
  | (matches, st) :: rules' =>
      if matches t then st else firstMatching rules' default t
  end.

Definition priorityOrder : list ((jsstring -> bool) * StateKey) :=
  [(doneSignal, S2); (clarityRequest, S4); (momentumRequest, S3);
   (stuckSignal, S1)].


(** *** HTTP side of the simple variant *)

Import Node.
Local Open Scope string_scope.
Local Open Scope list_scope.

Definition createEliteMindsetServer : Server :=
  mkServer "elitemindset-clarity" "1.0.0".

Definition ssePath : string := "/mcp".
Definition postPath : string := "/mcp/messages".

(** [handleSseRequest] up to its [await], as far as the response and the
    directory go. [transport] is the object
    [new SSEServerTransport(postPath, res)] returned. The two callbacks
    the function assigns to the transport ([onclose], [onerror]) are
    assigned before [server.connect(transport)] is called; what those
    properties hold after that call, and when they are called, is the
    SDK's doing and is not part of this function. *)
Definition handleSseRequest_setup (transport : SSEServerTransport)
    (res : ServerResponse) (sessions : Sessions)
    : Sessions * ServerResponse * list Effect :=
  let res := setHeader "Access-Control-Allow-Origin" "*" res in
  let server := createEliteMindsetServer in
  let sessionId := sessionId transport in
  (<[sessionId := mkSession server transport]> sessions, res,
   [SessionsSet sessionId]).

(** The [catch] block of [handleSseRequest], run when
    [server.connect(transport)] rejects; [res] is the response as the
    failed handshake left it. *)
Definition handleSseRequest_catch (sessionId : string)
    (res : ServerResponse) (sessions : Sessions)
    : Sessions * ServerResponse * list Effect :=
  (delete sessionId sessions,
   if headersSent res then res
   else writeHeadEnd 500 "Failed to establish SSE connection" res,
   [SessionsDelete sessionId]).

Definition handlePostMessage (req : IncomingMessage) (res : ServerResponse)
    (url : URL) (sessions : Sessions) : ServerResponse * list Effect :=
  let res := setHeader "Access-Control-Allow-Origin" "*" res in
  let res := setHeader "Access-Control-Allow-Headers" "content-type" res in
  let sessionId := searchParamsGet (searchParams url) "sessionId" in
  match sessionId with
  | None => (writeHeadEnd 400 "Missing sessionId query parameter" res, [])
  | Some sid =>
      if negb (truthyStr sid)
      then (writeHeadEnd 400 "Missing sessionId query parameter" res, [])
      else
        match sessions !! sid with
        | None => (writeHeadEnd 404 "Unknown session" res, [SessionsGet sid])
        | Some session =>
            let t := transport session in
            let effects := [SessionsGet sid; TransportHandlePost (Node.sessionId t)] in
            match transportHandlePostMessage t req res with
            | Returned res' => (res', effects)
            | Threw res' =>
                (if headersSent res' then res'
                 else writeHeadEnd 500 "Failed to process message" res',
                 effects)
            end
        end
  end.

(** [Number(process.env.PORT ?? 10000)] *)
Definition portEnv (envPORT : option jsstring) : JSNumber :=
  match envPORT with
  | Some v => stringToNumber v
  | None => Finite 10000 0
  end.

Definition port (envPORT : option jsstring) : JSNumber :=
  if isFinite (portEnv envPORT) then portEnv envPORT else Finite 10000 0.

Definition rootInfo : json :=
  JObject
    (MCons "name" (JString "EliteMindset MCP Server")
    (MCons "version" (JString "1.0.0")
    (MCons "tool" (JString "next_best_step")
    (MCons "endpoints"
       (JObject (MCons "sse" (JString ssePath)
                (MCons "post" (JString postPath)
                (MCons "health" (JString "/healthz") MNil))))
     MNil)))).

(** The request listener passed to [createServer]. *)
Definition requestListener (req : IncomingMessage) (res : ServerResponse)
    : Dispatch :=
  match reqUrl req with
  | None => Responded (writeHeadEnd 400 "Missing URL" res)
  | Some url =>
      if String.eqb (method req) "OPTIONS" &&
         (String.eqb (pathname url) ssePath
          || String.eqb (pathname url) postPath)
      then Responded (writeHeadHeadersEnd 204
             [("Access-Control-Allow-Origin", "*");
              ("Access-Control-Allow-Methods", "GET, POST, OPTIONS");
              ("Access-Control-Allow-Headers", "content-type")] res)
      else if String.eqb (method req) "GET"
              && String.eqb (pathname url) "/healthz"
      then Responded (writeHeadEnd 200 "OK" res)
      else if String.eqb (method req) "GET" && String.eqb (pathname url) "/"
      then Responded (writeHeadHeadersEndBody 200
             [("Content-Type", "application/json")] (stringify rootInfo) res)
      else if String.eqb (method req) "GET"
              && String.eqb (pathname url) ssePath
      then CallHandleSseRequest res
      else if String.eqb (method req) "POST"
              && String.eqb (pathname url) postPath
      then CallHandlePostMessage req res url
      else Responded (writeHeadEnd 404 "Not Found" res)
  end.

End Simple.

(* ================================================================= *)
(** * Part IV: the richer variant *)
(* ================================================================= *)

Module Rich.
Import JS Node.
Local Open Scope string_scope.
Local Open Scope list_scope.

(** [throw new Error(..)] against a normal return. *)
Inductive Result (E A : Type) : Type :=
| Ok (value : A)
| Throw (error : E).
Arguments Ok {E A} value.
Arguments Throw {E A} error.

(** *** The widget asset *)

(** The part of the file system [readWidgetHtml] looks at: the resolved
    [ASSETS_DIR] path and, when that directory exists, its regular files
    as (name, contents) in [readdirSync] order. *)
Record FileSystem : Type := mkFS {
  ASSETS_DIR : string;
  assets : option (list (jsstring * jsstring))
}.

Fixpoint readFile (entries : list (jsstring * jsstring)) (name : jsstring)
    : option jsstring :=
  match entries with
  | [] => None
  | (n, contents) :: rest =>
      if bool_decide (n = name) then Some contents else readFile rest name
  end.

Definition existsFile (entries : list (jsstring * jsstring))
    (name : jsstring) : bool :=
  match readFile entries name with Some _ => true | None => false end.

Definition readdir (entries : list (jsstring * jsstring)) : list jsstring :=
  map fst entries.

Definition assetsMissingMessage (dir : string) : string :=
  "Widget assets not found. Expected directory " +:+ dir +:+ ". Run "
  +:+ dquote +:+ "pnpm run build" +:+ dquote
  +:+ " before starting the server.".

Definition widgetMissingMessage (dir : string) : string :=
  "Widget HTML for " +:+ dquote +:+ "kitchen-sink-lite" +:+ dquote
  +:+ " not found in " +:+ dir +:+ ". Run "
  +:+ dquote +:+ "pnpm run build" +:+ dquote
  +:+ " to generate the assets.".

Definition directName : jsstring := lit "kitchen-sink-lite.html".

Definition isCandidate (file : jsstring) : bool :=
  startsWith file (lit "kitchen-sink-lite-") && endsWith file (lit ".html").

Definition readWidgetHtml (fs : FileSystem) : Result string jsstring :=
  match assets fs with
  | None => Throw (assetsMissingMessage (ASSETS_DIR fs))
  | Some entries =>
      let htmlContents : option jsstring :=
        if existsFile entries directName then readFile entries directName
        else
          let candidates :=
            sort (List.filter isCandidate (readdir entries)) in
          let fallback := last candidates in
          match fallback with
          | Some f => if truthy f then readFile entries f else None
          | None => None
          end in
      match htmlContents with
      | Some html =>
          if truthy html then Ok html
          else Throw (widgetMissingMessage (ASSETS_DIR fs))
      | None => Throw (widgetMissingMessage (ASSETS_DIR fs))
      end
  end.

(** The specification's reading of the file choice. A name matches the
    versioned pattern [kitchen-sink-lite-*.html]: *)
Definition matchesPattern (file : jsstring) : Prop :=
  exists mid, file = lit "kitchen-sink-lite-" ++ mid ++ lit ".html".

(** [file] is the last, in code-unit order, of the names in the
    directory that match the pattern. *)
Definition lastCandidate (entries : list (jsstring * jsstring))
    (file : jsstring) : Prop :=
  In file (readdir entries)
  /\ matchesPattern file
  /\ forall g, In g (readdir entries) -> matchesPattern g ->
       leStr g file = true.

(** The file the widget is read from: the named one when it exists,
    otherwise the last candidate. *)
Definition selectedFile (entries : list (jsstring * jsstring))
    (file : jsstring) : Prop :=
  (existsFile entries directName = true /\ file = directName)
  \/ (existsFile entries directName = false /\ lastCandidate entries file).

(** *** The [next_best_step] composer *)

(** [/(\d+)\s*(minutes?|mins?|hours?|hrs?)/i] *)
Definition unitRegex : regex :=
  RAlt (RSeq (rlit (lit "minute")) (ROpt (RChar 0x73)))
  (RAlt (RSeq (rlit (lit "min")) (ROpt (RChar 0x73)))
  (RAlt (RSeq (rlit (lit "hour")) (ROpt (RChar 0x73)))
        (RSeq (rlit (lit "hr")) (ROpt (RChar 0x73))))).

Definition timeboxRegex : regex :=
  RSeq (RPlusC isDigit) (RSeq (RStarC isWhiteSpace) unitRegex).

(** What the optional [s] of a unit alternative leaves of the input. *)
Definition afterOptionalS (s : jsstring) : jsstring :=
  match s with
  | x :: r => if charMatches true 0x73 x then r else s
  | [] => []
  end.

(** What the unit alternation leaves of the input, alternatives tried
    in the order of the pattern. *)
Definition unitRest (s : jsstring) : option jsstring :=
  if prefixMatches true s (lit "minute")
  then Some (afterOptionalS (drop 6 s))
  else if prefixMatches true s (lit "min")
  then Some (afterOptionalS (drop 3 s))
  else if prefixMatches true s (lit "hour")
  then Some (afterOptionalS (drop 4 s))
  else if prefixMatches true s (lit "hr")
  then Some (afterOptionalS (drop 2 s))
  else None.

(** The specification's duration pattern: a run of digits, optional
    white space, and a minute/hour unit word in any letter case. *)
Definition unitWords : list jsstring :=
  map lit ["minutes"; "minute"; "mins"; "min";
           "hours"; "hour"; "hrs"; "hr"]%string.

Definition equalIgnoringCase (a b : jsstring) : Prop :=
  Forall2 (fun x y => canonicalize x = canonicalize y) a b.

Definition isUnitWord (u : jsstring) : Prop :=
  exists w, In w unitWords /\ equalIgnoringCase u w.

Definition durationPhrase (tb : jsstring) : Prop :=
  exists ds ws u,
    tb = ds ++ ws ++ u
    /\ ds <> []
    /\ Forall (fun c => isDigit c = true) ds
    /\ Forall (fun c => isWhiteSpace c = true) ws
    /\ isUnitWord u.

(** [situation] holds a duration phrase after the prefix [pre]. *)
Definition durationAt (situation pre tb : jsstring) : Prop :=
  exists post, situation = pre ++ tb ++ post /\ durationPhrase tb.

Definition mentionsDuration (situation : jsstring) : Prop :=
  exists pre tb, durationAt situation pre tb.

(** The matched substring as the specification means it: the duration
    phrase that starts leftmost in the situation and, of those that
    start there, is the longest. *)
Definition leftmostLongestDuration (situation tb : jsstring) : Prop :=
  exists pre,
    durationAt situation pre tb
    /\ forall pre' tb', durationAt situation pre' tb' ->
         (length pre < length pre')%nat
         \/ (length pre' = length pre /\ (length tb' <= length tb)%nat).

(** [situation] holds a duration phrase whose unit is a word of its
    own: no word character follows it. *)
Definition mentionsDurationWord (situation : jsstring) : Prop :=
  exists pre tb post,
    situation = pre ++ tb ++ post
    /\ durationPhrase tb
    /\ isWordOpt (head post) = false.

(** A tool argument as it arrives: a string, or a JSON value of another
    type. *)
Inductive JSValue : Type :=
| VString (s : jsstring)
| VOther.

(** [request.params.arguments]; absent members are absent keys. *)
Abbreviation Arguments := (gmap string JSValue).

Record NextBestStepArgs : Type := mkArgs {
  situation : jsstring;
  constraints : option jsstring;
  desired_outcome : option jsstring
}.

Inductive CallError : Type :=
| ZodError
| UnknownTool (name : string).

(** [z.string().optional()] *)
Definition optionalString (v : option JSValue)
    : Result CallError (option jsstring) :=
  match v with
  | None => Ok None
  | Some (VString s) => Ok (Some s)
  | Some VOther => Throw ZodError
  end.

(** [nextBestStepParser.parse] *)
Definition nextBestStepParser (arguments : Arguments)
    : Result CallError NextBestStepArgs :=
  match arguments !! "situation" with
  | Some (VString s) =>
      if (1 <=? length s)%nat then
        match optionalString (arguments !! "constraints") with
        | Ok c =>
            match optionalString (arguments !! "desired_outcome") with
            | Ok d => Ok (mkArgs s c d)
            | Throw e => Throw e
            end
        | Throw e => Throw e
        end
      else Throw ZodError
  | _ => Throw ZodError
  end.

(** [refreshParser.parse] *)
Definition refreshParser (arguments : Arguments)
    : Result CallError jsstring :=
  match arguments !! "message" with
  | Some (VString s) => Ok s
  | _ => Throw ZodError
  end.

Definition defaultConstraints : jsstring :=
  lit "One step only. Make it concrete, time-boxed, and low-friction.".

Definition resolveConstraints (c : option jsstring) : jsstring :=
  let trimmed := trim (default [] c) in
  if truthy trimmed then trimmed else defaultConstraints.

Definition resolveDesired (d : option jsstring) : jsstring :=
  trim (default [] d).

Definition timeboxOf (situation : jsstring) : jsstring :=
  match match0 true timeboxRegex situation with
  | Some m => m
  | None => lit "30 minutes"
  end.

Definition optionA : jsstring := lit "(a) 5 App Store headline variants".
Definition optionB : jsstring := lit "(b) one outreach DM".
Definition optionC : jsstring :=
  lit "(c) a 20" ++ [0x2013] ++ lit "30s UGC script".

Definition stepOf (timebox : jsstring) : jsstring :=
  lit "Set a " ++ timebox
  ++ lit " timer and produce ONE shippable draft that moves distribution forward (not polish). Pick exactly one: "
  ++ optionA ++ lit ", " ++ optionB ++ lit ", or " ++ optionC
  ++ lit ". Write the ugly first draft without editing.".

(** How many of the three fixed draft options a text contains. *)
Definition optionsContained (text : jsstring) : nat :=
  length (List.filter (fun o => includes text o)
            [optionA; optionB; optionC]).

Definition finishLine : jsstring :=
  lit "Done = you can paste/share the draft somewhere immediately (even if it"
  ++ [0x2019] ++ lit "s not perfect).".

Definition headingOf (timebox : jsstring) : jsstring :=
  lit "Next Best Step (" ++ timebox ++ lit "):".

(** [array.filter(Boolean)] on an array of strings and [null]s. *)
Fixpoint filterBoolean (lines : list (option jsstring)) : list jsstring :=
  match lines with
  | [] => []
  | Some l :: rest =>
      if truthy l then l :: filterBoolean rest else filterBoolean rest
  | None :: rest => filterBoolean rest
  end.

Definition detailsLinesOf (args : NextBestStepArgs) : list jsstring :=
  let constraints := resolveConstraints (constraints args) in
  let desired := resolveDesired (desired_outcome args) in
  let timebox := timeboxOf (situation args) in
  let step := stepOf timebox in
  filterBoolean
    [Some (headingOf timebox);
     Some step;
     Some [];
     Some (lit "Constraints: " ++ constraints);
     (if truthy desired then Some (lit "Desired outcome: " ++ desired)
      else None);
     Some [];
     Some finishLine].

Definition newline : jsstring := [0x0A].

Definition detailsOf (args : NextBestStepArgs) : jsstring :=
  join newline (detailsLinesOf args).

Record WidgetPayload : Type := mkPayload {
  message : jsstring;
  accentColor : option jsstring;
  details : option jsstring;
  fromTool : option jsstring
}.

Record Inputs : Type := mkInputs {
  in_situation : jsstring;
  in_constraints : jsstring;
  in_desired_outcome : jsstring
}.

Record CallToolResult : Type := mkResult {
  contentText : jsstring;           (* content: [{type: "text", text}] *)
  structuredContent : WidgetPayload;
  inputs : option Inputs;           (* structuredContent.inputs *)
  metaInvocation : string           (* _meta.invocation *)
}.

(** The [CallToolRequestSchema] handler. [arguments] is
    [request.params.arguments], [None] when absent. *)
Definition callTool (name : string) (arguments : option Arguments)
    : Result CallError CallToolResult :=
  if String.eqb name "next_best_step" then
    match nextBestStepParser (default ∅ arguments) with
    | Throw e => Throw e
    | Ok args =>
        let details := detailsOf args in
        let payload :=
          mkPayload (lit "Next Best Step (one action)")
                    (Some (lit "#2d6cdf")) (Some details)
                    (Some (lit "next_best_step")) in
        Ok (mkResult details payload
              (Some (mkInputs (situation args)
                              (default [] (constraints args))
                              (default [] (desired_outcome args))))
              "next_best_step")
    end
  else if String.eqb name "kitchen-sink-refresh" then
    match refreshParser (default ∅ arguments) with
    | Throw e => Throw e
    | Ok msg =>
        let payload :=
          mkPayload msg (Some (lit "#2d6cdf"))
            (Some (lit "Response returned from window.openai.callTool."))
            (Some (lit "kitchen-sink-refresh")) in
        Ok (mkResult (message payload) payload None "kitchen-sink-refresh")
    end
  else Throw (UnknownTool name).

(** *** HTTP side of the richer variant *)

Definition createEliteMindsetServer : Server :=
  mkServer "elite-mindset-node" "0.1.0".

Definition ssePath : string := "/mcp".
Definition postPath : string := "/mcp/messages".

(** [handleSseRequest] up to its [await] (see the simple variant). *)
Definition handleSseRequest_setup (transport : SSEServerTransport)
    (res : ServerResponse) (sessions : Sessions)
    : Sessions * ServerResponse * list Effect :=
  let res := setHeader "Access-Control-Allow-Origin" "*" res in
  let server := createEliteMindsetServer in
  let sessionId := sessionId transport in
  (<[sessionId := mkSession server transport]> sessions, res,
   [SessionsSet sessionId]).

(** The [catch] block of [handleSseRequest]. *)
Definition handleSseRequest_catch (sessionId : string)
    (res : ServerResponse) (sessions : Sessions)
    : Sessions * ServerResponse * list Effect :=
  (delete sessionId sessions,
   if headersSent res then res
   else writeHeadEnd 500 "Failed to establish SSE connection" res,
   [SessionsDelete sessionId]).

Definition handlePostMessage (req : IncomingMessage) (res : ServerResponse)
    (url : URL) (sessions : Sessions) : ServerResponse * list Effect :=
  let res := setHeader "Access-Control-Allow-Origin" "*" res in
  let res := setHeader "Access-Control-Allow-Headers" "content-type" res in
  let sessionId := searchParamsGet (searchParams url) "sessionId" in
  match sessionId with
  | None => (writeHeadEnd 400 "Missing sessionId query parameter" res, [])
  | Some sid =>
      if negb (truthyStr sid)
      then (writeHeadEnd 400 "Missing sessionId query parameter" res, [])
      else
        match sessions !! sid with
        | None => (writeHeadEnd 404 "Unknown session" res, [SessionsGet sid])
        | Some session =>
            let t := transport session in
            let effects := [SessionsGet sid; TransportHandlePost (Node.sessionId t)] in
            match transportHandlePostMessage t req res with
            | Returned res' => (res', effects)
            | Threw res' =>
                (if headersSent res' then res'
                 else writeHeadEnd 500 "Failed to process message" res',
                 effects)
            end
        end
  end.

(** [Number(process.env.PORT ?? 8000)] *)
Definition portEnv (envPORT : option jsstring) : JSNumber :=
  match envPORT with
  | Some v => stringToNumber v
  | None => Finite 8000 0
  end.

Definition port (envPORT : option jsstring) : JSNumber :=
  if isFinite (portEnv envPORT) then portEnv envPORT else Finite 8000 0.

(** The request listener passed to [createServer]. *)
Definition requestListener (req : IncomingMessage) (res : ServerResponse)
    : Dispatch :=
  match reqUrl req with
  | None => Responded (writeHeadEnd 400 "Missing URL" res)
  | Some url =>
      if String.eqb (method req) "OPTIONS" &&
         (String.eqb (pathname url) ssePath
          || String.eqb (pathname url) postPath)
      then Responded (writeHeadHeadersEnd 204
             [("Access-Control-Allow-Origin", "*");
              ("Access-Control-Allow-Methods", "GET, POST, OPTIONS");
              ("Access-Control-Allow-Headers", "content-type")] res)
      else if String.eqb (method req) "GET"
              && String.eqb (pathname url) ssePath
      then CallHandleSseRequest res
      else if String.eqb (method req) "POST"
              && String.eqb (pathname url) postPath
      then CallHandlePostMessage req res url
      else Responded (writeHeadEnd 404 "Not Found" res)
  end.

(** *** Module start-up

    The top-level statements in order: [const widgetHtml =
    readWidgetHtml()], later [createServer(..)] and
    [httpServer.listen(port, ..)]. An exception thrown by a top-level
    statement ends the module's evaluation. *)
Inductive StartupEvent : Type :=
| EvReadWidgetHtml
| EvCreateServer
| EvListen (port : JSNumber).

Inductive Started : Type :=
| Crashed (error : string)
| Listening (port : JSNumber) (widgetHtml : jsstring).

Definition startup (fs : FileSystem) (envPORT : option jsstring)
    : list StartupEvent * Started :=
  match readWidgetHtml fs with
  | Throw e => ([EvReadWidgetHtml], Crashed e)
  | Ok widgetHtml =>
      ([EvReadWidgetHtml; EvCreateServer; EvListen (port envPORT)],
       Listening (port envPORT) widgetHtml)
  end.

Definition isReadWidgetHtml (ev : StartupEvent) : bool :=
  match ev with EvReadWidgetHtml => true | _ => false end.

Definition isListen (ev : StartupEvent) : bool :=
  match ev with EvListen _ => true | _ => false end.

(** The [ReadResourceRequestSchema] handler: the text served is the
    module-level constant. *)
Definition readResource (widgetHtml : jsstring) : jsstring := widgetHtml.

(** *** Descriptors and the other request handlers *)

Definition TEMPLATE_URI : string := "ui://widget/kitchen-sink-lite.html".
Definition MIME_TYPE : string := "text/html+skybridge".

Definition toolDescriptorMeta : list (string * MetaValue) :=
  [("openai/outputTemplate", MetaString TEMPLATE_URI);
   ("openai/toolInvocation/invoking", MetaString "Preparing EliteMindset");
   ("openai/toolInvocation/invoked", MetaString "Next step delivered");
   ("openai/widgetAccessible", MetaBool true)].

(** [{...toolDescriptorMeta(), invocation}] *)
Definition toolInvocationMeta (invocation : string)
    : list (string * MetaValue) :=
  toolDescriptorMeta ++ [("invocation", MetaString invocation)].

Definition nextBestStepInputSchema : InputSchema :=
  mkSchema "object"
    [mkProperty "situation" "string"
       "What’s going on right now. Include context and what you’re trying to move forward.";
     mkProperty "constraints" "string"
       "Rules to follow (e.g., one step only, time limit, low friction, avoid X).";
     mkProperty "desired_outcome" "string"
       "What you want by the end of the step (e.g., momentum, clarity, progress)."]
    ["situation"] false.

Definition refreshInputSchema : InputSchema :=
  mkSchema "object"
    [mkProperty "message" "string" "Message to echo back."]
    ["message"] false.

Definition tools : list Tool :=
  [mkTool "next_best_step" (Some "Next Best Step")
     "Returns exactly one concrete, time-boxed next step based on the situation and constraints."
     nextBestStepInputSchema toolDescriptorMeta
     (mkAnnotations false false true);
   mkTool "kitchen-sink-refresh" (Some "Refresh from widget")
     "Lightweight echo tool called from the widget via callTool."
     refreshInputSchema toolDescriptorMeta
     (mkAnnotations false false true)].

Definition resources : list Resource :=
  [mkResource "Kitchen sink widget" TEMPLATE_URI
     "Kitchen sink lite widget markup" MIME_TYPE toolDescriptorMeta].

Definition resourceTemplates : list ResourceTemplate :=
  [mkResourceTemplate "Kitchen sink widget template" TEMPLATE_URI
     "Kitchen sink lite widget markup" MIME_TYPE toolDescriptorMeta].

(** One element of [contents] in a read-resource result. *)
Record ResourceContents : Type := mkContents {
  contentsUri : string;
  contentsMimeType : string;
  contentsText : jsstring;
  contentsMeta : list (string * MetaValue)
}.

(** The [ListResourcesRequestSchema] handler. *)
Definition listResources : list Resource := resources.

(** The [ReadResourceRequestSchema] handler; [requestUri] is
    [_request.params.uri], which the handler does not read. *)
Definition readResourceRequest (widgetHtml : jsstring) (requestUri : string)
    : list ResourceContents :=
  [mkContents TEMPLATE_URI MIME_TYPE widgetHtml toolDescriptorMeta].

(** The [ListResourceTemplatesRequestSchema] handler. *)
Definition listResourceTemplates : list ResourceTemplate := resourceTemplates.

(** The [ListToolsRequestSchema] handler. *)
Definition listTools : list Tool := tools.

End Rich.

(* ================================================================= *)
(** * Part IV, continued: the tool handlers of the simple variant *)
(* ================================================================= *)

Module SimpleServer.
Import JS Node.
Local Open Scope string_scope.
Local Open Scope list_scope.

(** [toolMeta()] *)
Definition toolMeta : list (string * MetaValue) :=
  [("openai/toolInvocation/invoking", MetaString "Analyzing your situation...");
   ("openai/toolInvocation/invoked", MetaString "Next step identified")].

Definition nextBestStepInputSchema : InputSchema :=
  mkSchema "object"
    [mkProperty "user_input" "string"
       "What the user just said (their concern, question, or confirmation of completion)"]
    ["user_input"] false.

(** [inputParser.parse]: [user_input] must be a string of length at
    least 1. *)
Definition inputParser (arguments : Rich.Arguments)
    : Rich.Result Rich.CallError jsstring :=
  match arguments !! "user_input" with
  | Some (Rich.VString s) =>
      if (1 <=? length s)%nat then Rich.Ok s else Rich.Throw Rich.ZodError
  | _ => Rich.Throw Rich.ZodError
  end.

Definition tools : list Tool :=
  [mkTool "next_best_step" None
     "Help user overcome procrastination and analysis-paralysis by identifying the smallest immediate next action. Use when user expresses being stuck, overwhelmed, unclear, or asks for direction."
     nextBestStepInputSchema toolMeta
     (mkAnnotations false false true)].

(** The [ListToolsRequestSchema] handler. *)
Definition listTools : list Tool := tools.

Record CallToolResult : Type := mkResult {
  contentText : string;             (* content: [{type: "text", text}] *)
  structuredMessage : string;       (* structuredContent.message *)
  structuredAction : string;        (* structuredContent.action *)
  structuredState : Simple.StateKey;  (* structuredContent.state *)
  resultMeta : list (string * MetaValue)
}.

Definition twoNewlines : string :=
  String "010"%char (String "010"%char EmptyString).

Section Handler.
Variable toLowerCase : jsstring -> jsstring.

(** The [CallToolRequestSchema] handler. *)
Definition callTool (name : string) (arguments : option Rich.Arguments)
    : Rich.Result Rich.CallError CallToolResult :=
  if String.eqb name "next_best_step" then
    match inputParser (default ∅ arguments) with
    | Rich.Throw e => Rich.Throw e
    | Rich.Ok user_input =>
        let state := Simple.inferState toLowerCase user_input in
        let data := Simple.stateData state in
        let responseMessage :=
          Simple.message data +:+ twoNewlines +:+ Simple.ask data in
        Rich.Ok (mkResult responseMessage (Simple.message data)
                   (Simple.ask data) state toolMeta)
    end
  else Rich.Throw (Rich.UnknownTool name).
End Handler.

End SimpleServer.

(* ================================================================= *)
(** * Part V: what the two variants share *)
(* ================================================================= *)

Module Lifecycle.
Import Node.
Local Open Scope string_scope.
Local Open Scope list_scope.

Inductive Variant : Type := SimpleVariant | RichVariant.

Definition setupOf (v : Variant) :=
  match v with
  | SimpleVariant => Simple.handleSseRequest_setup
  | RichVariant => Rich.handleSseRequest_setup
  end.


Definition postOf (v : Variant) :=
  match v with
  | SimpleVariant => Simple.handlePostMessage
  | RichVariant => Rich.handlePostMessage
  end.

Definition listenerOf (v : Variant) :=
  match v with
  | SimpleVariant => Simple.requestListener
  | RichVariant => Rich.requestListener
  end.




End Lifecycle.

(* ================================================================= *)
(** * Part VI: properties *)
(* ================================================================= *)

Import JS Node Lifecycle.
Local Open Scope string_scope.
Local Open Scope list_scope.

(** ** The request listener and the message route *)

(** C7 as stated fails on the richer variant: its listener has no
    health route, and GET /healthz falls through to 404. *)
Lemma C7_healthz_rich_counterexample :
  let req := mkRequest "GET" (Some (mkURL "/healthz" [])) in
  Rich.requestListener req freshResponse
    = Responded (writeHeadEnd 404 "Not Found" freshResponse)
  /\ ~ (exists res', Rich.requestListener req freshResponse = Responded res'
                     /\ statusCode res' = Some 200
                     /\ resBody res' = Some "OK").
Proof.
  split; [reflexivity|].
  intros (res' & Heq & Hst & _). vm_compute in Heq.
  inversion Heq; subst res'. discriminate Hst.
Qed.

(** C7 (amended): GET /healthz is answered 200 "OK" by the simple
    variant's listener, whatever the query string; the richer variant's
    listener, which has no health route, answers it 404 "Not Found". *)
Theorem C7_healthz (req : IncomingMessage) (res : ServerResponse)
    (url : URL) :
  method req = "GET" -> reqUrl req = Some url -> pathname url = "/healthz" ->
  Simple.requestListener req res = Responded (writeHeadEnd 200 "OK" res)
  /\ statusCode (writeHeadEnd 200 "OK" res) = Some 200
  /\ resBody (writeHeadEnd 200 "OK" res) = Some "OK"
  /\ Rich.requestListener req res
       = Responded (writeHeadEnd 404 "Not Found" res).
Proof.
  intros Hm Hu Hp.
  unfold Simple.requestListener, Rich.requestListener.
  rewrite Hu, Hm, Hp. repeat split.
Qed.

Lemma C7_healthz_witness :
  let req := mkRequest "GET" (Some (mkURL "/healthz" [("probe", "1")])) in
  Simple.requestListener req freshResponse
    = Responded (writeHeadEnd 200 "OK" freshResponse)
  /\ Rich.requestListener req freshResponse
       = Responded (writeHeadEnd 404 "Not Found" freshResponse).
Proof.
  intros req.
  destruct (C7_healthz req freshResponse (mkURL "/healthz" [("probe", "1")])
              eq_refl eq_refl eq_refl) as (H1 & _ & _ & H2).
  split; [exact H1 | exact H2].
Defined.

Lemma truthyStr_true_iff (s : string) : truthyStr s = true <-> s <> "".
Proof.
  unfold truthyStr. destruct (String.eqb_spec s "") as [->|Hne]; simpl.
  - split; [discriminate | congruence].
  - split; auto.
Qed.

(** The message handler of either variant when the directory has no
    entry for a non-empty identifier. *)
Lemma postOf_unknown_session v req res url (ss : Sessions) sid :
  searchParamsGet (searchParams url) "sessionId" = Some sid ->
  sid <> "" -> ss !! sid = None ->
  postOf v req res url ss
  = (writeHeadEnd 404 "Unknown session" (corsPrepared res),
     [SessionsGet sid]).
Proof.
  intros Hparam Hne Hnone.
  replace (postOf v req res url ss)
    with (Simple.handlePostMessage req res url ss)
    by (destruct v; reflexivity).
  unfold Simple.handlePostMessage. rewrite Hparam.
  apply truthyStr_true_iff in Hne. rewrite Hne, Hnone. reflexivity.
Qed.

(** The message handler of either variant when the directory has an
    entry: the request goes to that entry's transport. *)
Lemma postOf_known_session v req res url (ss : Sessions) sid session :
  searchParamsGet (searchParams url) "sessionId" = Some sid ->
  sid <> "" -> ss !! sid = Some session ->
  (postOf v req res url ss).2
  = [SessionsGet sid; TransportHandlePost (sessionId (transport session))]
  /\ match transportHandlePostMessage (transport session) req
             (corsPrepared res) with
     | Returned r => (postOf v req res url ss).1 = r
     | Threw r =>
         (postOf v req res url ss).1
         = if headersSent r then r
           else writeHeadEnd 500 "Failed to process message" r
     end.
Proof.
  intros Hparam Hne Hsome.
  replace (postOf v req res url ss)
    with (Simple.handlePostMessage req res url ss)
    by (destruct v; reflexivity).
  unfold Simple.handlePostMessage. rewrite Hparam.
  apply truthyStr_true_iff in Hne. rewrite Hne, Hsome. cbn [negb].
  change (setHeader "Access-Control-Allow-Headers" "content-type"
            (setHeader "Access-Control-Allow-Origin" "*" res))
    with (corsPrepared res).
  destruct (transportHandlePostMessage (transport session) req
              (corsPrepared res)); split; reflexivity.
Qed.

(** C3 as stated fails when the parameter is present but empty
    ([?sessionId=]): the empty string is not a key of the directory, yet
    the answer is 400, not 404, in both variants. *)
Lemma C3_empty_session_id_counterexample :
  let url := mkURL "/mcp/messages" [("sessionId", "")] in
  let req := mkRequest "POST" (Some url) in
  searchParamsGet (searchParams url) "sessionId" = Some ""
  /\ (∅ : Sessions) !! "" = None
  /\ statusCode (Simple.handlePostMessage req freshResponse url ∅).1
       = Some 400
  /\ statusCode (Rich.handlePostMessage req freshResponse url ∅).1
       = Some 400
  /\ statusCode (Simple.handlePostMessage req freshResponse url ∅).1
       <> Some 404.
Proof. repeat split; discriminate. Qed.

(** C3 (amended): for every POST handed to [handlePostMessage], in both
    variants: if the [sessionId] parameter is absent or empty the
    response is 400 and the directory is not consulted; if it is
    non-empty but not a key of the directory the response is 404
    "Unknown session"; otherwise the request is handed to that session's
    transport, whose response stands, except that an error thrown before
    any response was started yields 500, and an error thrown after the
    headers were sent leaves the response as it is. *)
Theorem C3_post_message (v : Variant) (req : IncomingMessage)
    (res : ServerResponse) (url : URL) (ss : Sessions) :
  let param := searchParamsGet (searchParams url) "sessionId" in
  let out := postOf v req res url ss in
  (param = None \/ param = Some "" ->
     out = (writeHeadEnd 400 "Missing sessionId query parameter"
              (corsPrepared res), [])
     /\ statusCode out.1 = Some 400
     /\ (forall k, SessionsGet k ∉ out.2))
  /\ (forall sid, param = Some sid -> sid <> "" -> ss !! sid = None ->
        out.1 = writeHeadEnd 404 "Unknown session" (corsPrepared res)
        /\ statusCode out.1 = Some 404
        /\ (forall t, TransportHandlePost t ∉ out.2))
  /\ (forall sid session, param = Some sid -> sid <> "" ->
        ss !! sid = Some session ->
        out.2 = [SessionsGet sid;
                 TransportHandlePost (sessionId (transport session))]
        /\ match transportHandlePostMessage (transport session) req
                   (corsPrepared res) with
           | Returned r => out.1 = r
           | Threw r =>
               (headersSent r = false ->
                  out.1 = writeHeadEnd 500 "Failed to process message" r
                  /\ statusCode out.1 = Some 500)
               /\ (headersSent r = true -> out.1 = r)
           end).
Proof.
  intros param out. subst out.
  replace (postOf v req res url ss)
    with (Simple.handlePostMessage req res url ss)
    by (destruct v; reflexivity).
  unfold Simple.handlePostMessage. fold param.
  change (setHeader "Access-Control-Allow-Headers" "content-type"
            (setHeader "Access-Control-Allow-Origin" "*" res))
    with (corsPrepared res).
  split; [|split].
  - intros [-> | ->]; simpl; (split; [reflexivity|]); (split; [reflexivity|]);
      intros k Hk; inversion Hk.
  - intros sid Hparam Hne Hnone.
    pose proof (postOf_unknown_session SimpleVariant req res url ss sid
                  Hparam Hne Hnone) as Heq.
    simpl in Heq. unfold Simple.handlePostMessage in Heq.
    fold param in Heq.
    change (setHeader "Access-Control-Allow-Headers" "content-type"
              (setHeader "Access-Control-Allow-Origin" "*" res))
      with (corsPrepared res) in Heq.
    rewrite Heq. simpl.
    repeat split. intros t Ht.
    apply list_elem_of_singleton in Ht. discriminate.
  - intros sid session -> Hne Hsome.
    apply truthyStr_true_iff in Hne. rewrite Hne, Hsome. simpl.
    destruct (transportHandlePostMessage (transport session) req
                (corsPrepared res)) as [r|r]; simpl.
    + split; reflexivity.
    + split; [reflexivity|]. split.
      * intros ->. split; reflexivity.
      * intros ->. reflexivity.
Qed.

Lemma C3_post_message_witness :
  let throwing := mkTransport "s-1" (fun _ r => Threw r) in
  let ss : Sessions :=
    {[ "s-1" := mkSession Simple.createEliteMindsetServer throwing ]} in
  let post sid :=
    let url := mkURL "/mcp/messages" sid in
    (Simple.handlePostMessage (mkRequest "POST" (Some url)) freshResponse
       url ss).1 in
  statusCode (post []) = Some 400
  /\ statusCode (post [("sessionId", "s-2")]) = Some 404
  /\ statusCode (post [("sessionId", "s-1")]) = Some 500.
Proof.
  intros throwing ss post. subst post. cbv beta.
  split; [|split].
  - pose proof (C3_post_message SimpleVariant
      (mkRequest "POST" (Some (mkURL "/mcp/messages" []))) freshResponse
      (mkURL "/mcp/messages" []) ss) as (H & _ & _).
    apply H. left. reflexivity.
  - pose proof (C3_post_message SimpleVariant
      (mkRequest "POST" (Some (mkURL "/mcp/messages" [("sessionId", "s-2")])))
      freshResponse (mkURL "/mcp/messages" [("sessionId", "s-2")]) ss)
      as (_ & H & _).
    apply (H "s-2"); [reflexivity | discriminate | reflexivity].
  - pose proof (C3_post_message SimpleVariant
      (mkRequest "POST" (Some (mkURL "/mcp/messages" [("sessionId", "s-1")])))
      freshResponse (mkURL "/mcp/messages" [("sessionId", "s-1")]) ss)
      as (_ & _ & H).
    destruct (H "s-1" (mkSession Simple.createEliteMindsetServer throwing)
                eq_refl ltac:(discriminate) eq_refl) as (_ & Hthrow).
    simpl in Hthrow. apply Hthrow. reflexivity.
Defined.

(** ** The session directory *)

Lemma setupOf_sessions v transport res (ss : Sessions) :
  (setupOf v transport res ss).1.1
  = <[sessionId transport :=
        mkSession (match v with
                   | SimpleVariant => Simple.createEliteMindsetServer
                   | RichVariant => Rich.createEliteMindsetServer
                   end) transport]> ss.
Proof. destruct v; reflexivity. Qed.





(** ** Facts about the string primitives *)

Lemma startsWith_spec (s p : jsstring) :
  startsWith s p = true <-> exists post, s = p ++ post.
Proof.
  revert s. induction p as [|c p IH]; intros s; simpl.
  - split; [intros _; exists s; reflexivity | reflexivity].
  - destruct s as [|x s]; simpl.
    + split; [discriminate | intros (post & H); discriminate].
    + rewrite andb_true_iff, N.eqb_eq, IH. split.
      * intros (-> & post & ->). exists post. reflexivity.
      * intros (post & H). inversion H; subst. split; [reflexivity|].
        exists post. reflexivity.
Qed.

Lemma includes_spec (s n : jsstring) :
  includes s n = true <-> exists pre post, s = pre ++ n ++ post.
Proof.
  induction s as [|x s IH].
  - simpl. rewrite orb_false_r, startsWith_spec. split.
    + intros (post & H). exists [], post. exact H.
    + intros (pre & post & H). destruct pre; [|discriminate].
      exists post. exact H.
  - cbn [includes]. rewrite orb_true_iff, startsWith_spec, IH. split.
    + intros [(post & H) | (pre & post & H)].
      * exists [], post. exact H.
      * exists (x :: pre), post. rewrite H. reflexivity.
    + intros (pre & post & H). destruct pre as [|y pre].
      * left. exists post. exact H.
      * right. inversion H; subst. exists pre, post. reflexivity.
Qed.

Lemma includes_intro (pre n post : jsstring) :
  includes (pre ++ n ++ post) n = true.
Proof. apply includes_spec. exists pre, post. reflexivity. Qed.

Lemma truthy_app (a b : jsstring) : truthy (a ++ b) = truthy a || truthy b.
Proof. destruct a; reflexivity. Qed.

Lemma truthy_true_iff (s : jsstring) : truthy s = true <-> s <> [].
Proof. destruct s; simpl; split; congruence. Qed.

Lemma dropWhile_takeWhile (p : N -> bool) (s : jsstring) :
  takeWhile p s ++ dropWhile p s = s.
Proof.
  induction s as [|c s IH]; simpl; [reflexivity|].
  destruct (p c); simpl; [rewrite IH|]; reflexivity.
Qed.

Lemma takeWhile_Forall (p : N -> bool) (s : jsstring) :
  Forall (fun c => p c = true) (takeWhile p s).
Proof.
  induction s as [|c s IH]; simpl; [constructor|].
  destruct (p c) eqn:E; constructor; assumption.
Qed.

Lemma dropWhile_app_stop (p : N -> bool) (ws : jsstring) c rest :
  Forall (fun x => p x = true) ws -> p c = false ->
  dropWhile p (ws ++ c :: rest) = c :: rest.
Proof.
  intros Hws Hc. induction Hws as [|x ws Hx _ IH]; simpl.
  - rewrite Hc. reflexivity.
  - rewrite Hx. exact IH.
Qed.

Lemma dropWhile_all (p : N -> bool) (ws : jsstring) :
  Forall (fun x => p x = true) ws -> dropWhile p ws = [].
Proof.
  induction 1 as [|x ws Hx _ IH]; simpl; [reflexivity|].
  rewrite Hx. exact IH.
Qed.

Lemma takeWhile_all (p : N -> bool) (ws : jsstring) :
  Forall (fun x => p x = true) ws -> takeWhile p ws = ws.
Proof.
  induction 1 as [|x ws Hx _ IH]; simpl; [reflexivity|].
  rewrite Hx, IH. reflexivity.
Qed.

(** [trim] cuts a run of white space off each end and nothing else. *)
Lemma trim_decompose (s : jsstring) :
  exists ws1 ws2,
    s = ws1 ++ trim s ++ ws2
    /\ Forall (fun c => isWhiteSpace c = true) ws1
    /\ Forall (fun c => isWhiteSpace c = true) ws2.
Proof.
  exists (takeWhile isWhiteSpace s),
         (rev (takeWhile isWhiteSpace (rev (dropWhile isWhiteSpace s)))).
  split; [|split].
  - unfold trim, trimEnd, trimStart.
    rewrite <- rev_app_distr, dropWhile_takeWhile, rev_involutive.
    symmetry. apply dropWhile_takeWhile.
  - apply takeWhile_Forall.
  - apply Forall_rev, takeWhile_Forall.
Qed.

Lemma trim_blank (s : jsstring) :
  Forall (fun c => isWhiteSpace c = true) s -> trim s = [].
Proof.
  intros H. unfold trim, trimEnd, trimStart.
  rewrite (dropWhile_all _ _ H). reflexivity.
Qed.

(** A substring that neither starts nor ends with white space survives
    [trim]. *)
Lemma trim_keeps_inner (pre post mid : jsstring) (a b : N) :
  isWhiteSpace a = false -> isWhiteSpace b = false ->
  exists pre' post',
    trim (pre ++ (a :: mid ++ [b]) ++ post) = pre' ++ (a :: mid ++ [b]) ++ post'
    /\ (exists ws, pre = ws ++ pre'
                   /\ Forall (fun c => isWhiteSpace c = true) ws)
    /\ (exists ws, post = post' ++ ws
                   /\ Forall (fun c => isWhiteSpace c = true) ws).
Proof.
  intros Ha Hb.
  set (s := pre ++ (a :: mid ++ [b]) ++ post).
  (* leading side *)
  assert (Hlead : exists ws pre',
             pre = ws ++ pre'
             /\ Forall (fun c => isWhiteSpace c = true) ws
             /\ trimStart s = pre' ++ (a :: mid ++ [b]) ++ post).
  { subst s. unfold trimStart. clear Hb.
    induction pre as [|x pre IH]; simpl.
    - exists [], []. rewrite Ha. repeat split. constructor.
    - destruct (isWhiteSpace x) eqn:Ex.
      + destruct IH as (ws & pre' & -> & Hws & Heq).
        exists (x :: ws), pre'. repeat split; [constructor; assumption|].
        exact Heq.
      + exists [], (x :: pre). repeat split. constructor. }
  destruct Hlead as (ws1 & pre' & Hpre & Hws1 & Hstart).
  assert (Htrail : exists ws post',
             post = post' ++ ws
             /\ Forall (fun c => isWhiteSpace c = true) ws
             /\ dropWhile isWhiteSpace (rev (pre' ++ (a :: mid ++ [b]) ++ post))
                = rev (pre' ++ (a :: mid ++ [b]) ++ post')).
  { clear Hstart Hpre Ha. 
    induction post as [|x post IH] using rev_ind.
    - exists [], []. repeat split; [constructor|].
      rewrite !app_nil_r.
      replace (pre' ++ a :: mid ++ [b]) with ((pre' ++ a :: mid) ++ [b])
        by (rewrite <- app_assoc; reflexivity).
      rewrite rev_app_distr. simpl. rewrite Hb. reflexivity.
    - destruct (isWhiteSpace x) eqn:Ex.
      + destruct IH as (ws & post' & -> & Hws & Heq).
        exists (ws ++ [x]), post'.
        split; [rewrite app_assoc; reflexivity|].
        split; [apply Forall_app; split; [assumption|repeat constructor; assumption]|].
        rewrite <- Heq.
        replace (pre' ++ (a :: mid ++ [b]) ++ (post' ++ ws) ++ [x])
          with ((pre' ++ (a :: mid ++ [b]) ++ post' ++ ws) ++ [x])
          by (rewrite <- !app_assoc; reflexivity).
        rewrite rev_app_distr. simpl. rewrite Ex. reflexivity.
      + exists [], (post ++ [x]). rewrite app_nil_r.
        repeat split; [constructor|].
        replace (pre' ++ (a :: mid ++ [b]) ++ post ++ [x])
          with ((pre' ++ (a :: mid ++ [b]) ++ post) ++ [x])
          by (rewrite <- !app_assoc; reflexivity).
        rewrite rev_app_distr. simpl. rewrite Ex. reflexivity. }
  destruct Htrail as (ws2 & post' & Hpost & Hws2 & Hend).
  exists pre', post'. split.
  - unfold trim, trimEnd. rewrite Hstart, Hend, rev_involutive. reflexivity.
  - split; [exists ws1 | exists ws2]; split; assumption.
Qed.

(** ** Facts about the regular-expression matcher *)

Lemma prevAfter_nil prev : prevAfter prev [] = prev.
Proof. reflexivity. Qed.

Lemma prevAfter_cons prev c l : prevAfter prev (c :: l) = prevAfter (Some c) l.
Proof.
  unfold prevAfter. destruct l as [|d l]; [reflexivity|].
  rewrite last_cons. destruct (last (d :: l)) eqn:E; [reflexivity|].
  apply last_None in E. discriminate.
Qed.

Lemma prefixMatches_false_startsWith s pat :
  prefixMatches false s pat = startsWith s pat.
Proof.
  revert s. induction pat as [|p pat IH]; intros [|c s]; simpl;
    try reflexivity.
  rewrite IH. reflexivity.
Qed.

(** A literal either fails or consumes as many code units as it has
    pattern characters. *)
Lemma rmatch_rlit {A} ci (l : jsstring) prev s
    (k : option N -> jsstring -> option A) :
  rmatch ci (rlit l) prev s k
  = if prefixMatches ci s l
    then k (prevAfter prev (take (length l) s)) (drop (length l) s)
    else None.
Proof.
  revert prev s. induction l as [|p l IH]; intros prev s.
  - simpl. rewrite take_0, drop_0. reflexivity.
  - destruct s as [|c s]; simpl; [reflexivity|].
    destruct (charMatches ci p c); simpl; [|reflexivity].
    rewrite IH, prevAfter_cons. reflexivity.
Qed.

(** The leftmost-match search, as a statement about positions. *)
Lemma searchFrom_Some ci r prev s m :
  searchFrom ci r prev s = Some m <->
  exists pre post,
    s = pre ++ post
    /\ matchAt ci r (prevAfter prev pre) post = Some m
    /\ forall pre' post', s = pre' ++ post' ->
         (length pre' < length pre)%nat ->
         matchAt ci r (prevAfter prev pre') post' = None.
Proof.
  revert prev. induction s as [|c s IH]; intros prev.
  - simpl. split.
    + destruct (matchAt ci r prev []) as [m'|] eqn:E; [|discriminate].
      intros [= <-]. exists [], []. repeat split; [exact E|].
      intros pre' post' _ Hlt. simpl in Hlt. lia.
    + intros (pre & post & Hs & Hm & _).
      symmetry in Hs. apply app_eq_nil in Hs as [-> ->].
      rewrite prevAfter_nil in Hm. rewrite Hm. reflexivity.
  - cbn [searchFrom].
    destruct (matchAt ci r prev (c :: s)) as [m'|] eqn:E.
    + split.
      * intros [= <-]. exists [], (c :: s). repeat split; [exact E|].
        intros pre' post' _ Hlt. simpl in Hlt. lia.
      * intros (pre & post & Hs & Hm & Hleft).
        destruct pre as [|x pre].
        -- simpl in Hs. subst post. rewrite prevAfter_nil in Hm.
           congruence.
        -- specialize (Hleft [] (c :: s) eq_refl).
           rewrite prevAfter_nil in Hleft. simpl in Hleft.
           rewrite Hleft in E by lia. discriminate.
    + rewrite IH. split.
      * intros (pre & post & -> & Hm & Hleft).
        exists (c :: pre), post. rewrite prevAfter_cons.
        repeat split; [exact Hm|].
        intros pre' post' Hs Hlt. destruct pre' as [|x pre'].
        -- simpl in Hs. subst post'. exact E.
        -- inversion Hs; subst x. rewrite prevAfter_cons.
           apply Hleft; [assumption|]. simpl in Hlt. lia.
      * intros (pre & post & Hs & Hm & Hleft).
        destruct pre as [|x pre].
        -- simpl in Hs. subst post. rewrite prevAfter_nil in Hm.
           congruence.
        -- inversion Hs; subst x. rewrite prevAfter_cons in Hm.
           exists pre, post. repeat split; [exact Hm|].
           intros pre' post' Hs' Hlt.
           specialize (Hleft (c :: pre') post').
           rewrite prevAfter_cons in Hleft. apply Hleft.
           ++ simpl. congruence.
           ++ simpl. lia.
Qed.

Lemma searchFrom_None ci r prev s :
  searchFrom ci r prev s = None <->
  forall pre post, s = pre ++ post ->
    matchAt ci r (prevAfter prev pre) post = None.
Proof.
  revert prev. induction s as [|c s IH]; intros prev.
  - simpl. split.
    + destruct (matchAt ci r prev []) eqn:E; [discriminate|].
      intros _ pre post Hs. symmetry in Hs.
      apply app_eq_nil in Hs as [-> ->]. exact E.
    + intros H. specialize (H [] [] eq_refl).
      rewrite prevAfter_nil in H. rewrite H. reflexivity.
  - cbn [searchFrom]. split.
    + destruct (matchAt ci r prev (c :: s)) eqn:E; [discriminate|].
      rewrite IH. intros H pre post Hs. destruct pre as [|x pre].
      * simpl in Hs. subst post. exact E.
      * inversion Hs; subst x. rewrite prevAfter_cons. apply H. assumption.
    + intros H. pose proof (H [] (c :: s) eq_refl) as H0.
      rewrite prevAfter_nil in H0. rewrite H0.
      apply IH. intros pre post Hs.
      specialize (H (c :: pre) post). rewrite prevAfter_cons in H.
      apply H. simpl. congruence.
Qed.

(** ** The classifier of the simple variant *)

Lemma prevAfter_None pre : prevAfter None pre = last pre.
Proof. unfold prevAfter. destruct (last pre); reflexivity. Qed.

Lemma matchAt_doneRegex prev s :
  matchAt false Simple.doneRegex prev s
  = if negb (isWordOpt prev) && startsWith s (lit "done")
       && negb (isWordOpt (head (drop 4 s)))
    then Some (lit "done") else None.
Proof.
  unfold matchAt, Simple.doneRegex. cbn [rmatch].
  destruct (startsWith s (lit "done")) eqn:Hsw.
  - apply startsWith_spec in Hsw as (rest & ->).
    change (head (lit "done" ++ rest)) with (Some 100).
    change (isWordOpt (Some 100)) with true.
    rewrite rmatch_rlit, prefixMatches_false_startsWith.
    replace (startsWith (lit "done" ++ rest) (lit "done")) with true
      by (symmetry; apply startsWith_spec; exists rest; reflexivity).
    change (drop 4 (lit "done" ++ rest)) with rest.
    change (drop (length (lit "done")) (lit "done" ++ rest)) with rest.
    change (prevAfter prev (take (length (lit "done")) (lit "done" ++ rest)))
      with (Some 101).
    change (isWordOpt (Some 101)) with true.
    destruct (isWordOpt prev); simpl; [reflexivity|].
    destruct (isWordOpt (head rest)); simpl; [reflexivity|].
    replace (S (S (S (S (length rest)))) - length rest)%nat with 4%nat by lia.
    reflexivity.
  - rewrite andb_false_r. cbn [andb].
    destruct (xorb (isWordOpt prev) (isWordOpt (head s))); [|reflexivity].
    rewrite rmatch_rlit, prefixMatches_false_startsWith, Hsw. reflexivity.
Qed.

Lemma test_doneRegex_spec (t : jsstring) :
  test false Simple.doneRegex t = true <-> Simple.wholeWordDone t.
Proof.
  unfold test, match0, Simple.wholeWordDone. split.
  - destruct (searchFrom false Simple.doneRegex None t) as [m|] eqn:E;
      [|discriminate].
    intros _. apply searchFrom_Some in E as (pre & post & -> & Hm & _).
    rewrite matchAt_doneRegex, prevAfter_None in Hm.
    destruct (isWordOpt (last pre)) eqn:Hp; [discriminate|].
    destruct (startsWith post (lit "done")) eqn:Hsw; [|discriminate].
    apply startsWith_spec in Hsw as (rest & ->).
    change (drop 4 (lit "done" ++ rest)) with rest in Hm.
    destruct (isWordOpt (head rest)) eqn:Hr; [discriminate|].
    exists pre, rest. auto.
  - intros (pre & post & -> & Hp & Hr).
    destruct (searchFrom false Simple.doneRegex None
                (pre ++ lit "done" ++ post)) as [m|] eqn:E; [reflexivity|].
    exfalso.
    pose proof (proj1 (searchFrom_None _ _ _ _) E pre (lit "done" ++ post)
                  eq_refl) as Hnone.
    rewrite matchAt_doneRegex, prevAfter_None, Hp in Hnone.
    replace (startsWith (lit "done" ++ post) (lit "done")) with true in Hnone
      by (symmetry; apply startsWith_spec; exists post; reflexivity).
    change (drop 4 (lit "done" ++ post)) with post in Hnone.
    rewrite Hr in Hnone. discriminate.
Qed.

Lemma someIncluded_spec (phrases : list jsstring) (t : jsstring) :
  Simple.someIncluded phrases t = true <-> Simple.containsOneOf phrases t.
Proof.
  unfold Simple.someIncluded, Simple.containsOneOf.
  rewrite existsb_exists. split.
  - intros (p & Hin & Hinc). apply includes_spec in Hinc as (pre & post & ->).
    exists p, pre, post. auto.
  - intros (p & pre & post & Hin & ->). exists p. split; [exact Hin|].
    apply includes_intro.
Qed.

Lemma doneSignal_spec (t : jsstring) :
  Simple.doneSignal t = true
  <-> Simple.wholeWordDone t \/ Simple.containsOneOf Simple.donePhrases t.
Proof.
  unfold Simple.doneSignal.
  rewrite orb_true_iff, test_doneRegex_spec, someIncluded_spec. reflexivity.
Qed.

Lemma keepsEdges_shape (p : jsstring) :
  keepsEdges p = true ->
  exists a mid b, p = a :: mid ++ [b]
                  /\ isWhiteSpace a = false /\ isWhiteSpace b = false.
Proof.
  unfold keepsEdges. destruct p as [|a [|c p]]; try discriminate.
  destruct (last (a :: c :: p)) as [b|] eqn:El; [|discriminate].
  intros H. apply andb_true_iff in H as [Ha Hb].
  apply negb_true_iff in Ha, Hb.
  rewrite last_cons in El.
  destruct (last (c :: p)) as [b'|] eqn:El'; [|apply last_None in El'; discriminate].
  inversion El; subst b'.
  apply last_Some in El' as (mid & Hmid).
  exists a, mid, b. rewrite Hmid. auto.
Qed.

Lemma trim_keeps_phrase (p pre post : jsstring) :
  keepsEdges p = true ->
  exists pre' post',
    trim (pre ++ p ++ post) = pre' ++ p ++ post'
    /\ (exists ws, pre = ws ++ pre'
                   /\ Forall (fun c => isWhiteSpace c = true) ws)
    /\ (exists ws, post = post' ++ ws
                   /\ Forall (fun c => isWhiteSpace c = true) ws).
Proof.
  intros Hp. apply keepsEdges_shape in Hp as (a & mid & b & -> & Ha & Hb).
  apply trim_keeps_inner; assumption.
Qed.

Lemma containsOneOf_trim (phrases : list jsstring) (s : jsstring) :
  Forall (fun p => keepsEdges p = true) phrases ->
  Simple.containsOneOf phrases s -> Simple.containsOneOf phrases (trim s).
Proof.
  intros Hall (p & pre & post & Hin & ->).
  assert (Hp : keepsEdges p = true).
  { rewrite Forall_forall in Hall. apply Hall. apply list_elem_of_In, Hin. }
  destruct (trim_keeps_phrase p pre post Hp) as (pre' & post' & Heq & _).
  exists p, pre', post'. auto.
Qed.

Lemma wholeWordDone_trim (s : jsstring) :
  Simple.wholeWordDone s -> Simple.wholeWordDone (trim s).
Proof.
  intros (pre & post & -> & Hpre & Hpost).
  destruct (trim_keeps_phrase (lit "done") pre post eq_refl)
    as (pre' & post' & Heq & (ws1 & -> & _) & (ws2 & -> & _)).
  exists pre', post'. split; [exact Heq|]. split.
  - destruct pre' as [|x pre']; [reflexivity|].
    rewrite last_app in Hpre.
    destruct (last (x :: pre')) eqn:E; [exact Hpre|].
    apply last_None in E. discriminate.
  - destruct post' as [|x post']; [reflexivity|]. exact Hpost.
Qed.

Lemma donePhrases_keepEdges :
  Forall (fun p => keepsEdges p = true) Simple.donePhrases.
Proof. repeat constructor. Qed.

Lemma inferState_S2_iff toLowerCase userText :
  Simple.inferState toLowerCase userText = Simple.S2
  <-> Simple.doneSignal (trim (toLowerCase userText)) = true.
Proof.
  unfold Simple.inferState, Simple.normalize.
  destruct (Simple.doneSignal _); [split; reflexivity|].
  destruct (Simple.clarityRequest _); [split; discriminate|].
  destruct (Simple.momentumRequest _); [split; discriminate|].
  destruct (Simple.stuckSignal _); split; discriminate.
Qed.

(** A completion signal anywhere in the lower-cased input is still one
    after trimming. *)
Lemma doneSignal_after_trim (lowered : jsstring) :
  Simple.wholeWordDone lowered
  \/ Simple.containsOneOf Simple.donePhrases lowered ->
  Simple.doneSignal (trim lowered) = true.
Proof.
  intros H. apply doneSignal_spec. destruct H as [H|H].
  - left. apply wholeWordDone_trim, H.
  - right. apply containsOneOf_trim; [apply donePhrases_keepEdges | exact H].
Qed.

(** C1: [inferState] lower-cases and trims the input and returns the
    state of the first keyword set that occurs in the result, in the
    order completion (S2), clarity request (S4), momentum request (S3),
    overwhelm (S1), with Stuck (S1) when none occurs; each set is read
    as the occurrence of one of its phrases (for completion, also "done"
    as a whole word). Empty or white-space-only lower-cased input gives
    S1, and a completion signal anywhere in the lower-cased input gives
    Moved (S2) whatever the other three sets hold. *)
Theorem C1_inferState_priority (toLowerCase : jsstring -> jsstring)
    (userText : jsstring) :
  let t := trim (toLowerCase userText) in
  let state := Simple.inferState toLowerCase userText in
  let completion :=
    Simple.wholeWordDone t \/ Simple.containsOneOf Simple.donePhrases t in
  let clarity := Simple.containsOneOf Simple.clarityPhrases t in
  let momentum := Simple.containsOneOf Simple.momentumPhrases t in
  let overwhelm := Simple.containsOneOf Simple.stuckPhrases t in
  (completion -> state = Simple.S2)
  /\ (~ completion -> clarity -> state = Simple.S4)
  /\ (~ completion -> ~ clarity -> momentum -> state = Simple.S3)
  /\ (~ completion -> ~ clarity -> ~ momentum -> overwhelm ->
      state = Simple.S1)
  /\ (~ completion -> ~ clarity -> ~ momentum -> ~ overwhelm ->
      state = Simple.S1)
  /\ (Forall (fun c => isWhiteSpace c = true) (toLowerCase userText) ->
      state = Simple.S1)
  /\ (Simple.wholeWordDone (toLowerCase userText)
      \/ Simple.containsOneOf Simple.donePhrases (toLowerCase userText) ->
      state = Simple.S2).
Proof.
  intros t state completion clarity momentum overwhelm.
  assert (Hd : Simple.doneSignal t = true <-> completion)
    by apply doneSignal_spec.
  assert (Hc : Simple.clarityRequest t = true <-> clarity)
    by apply someIncluded_spec.
  assert (Hm : Simple.momentumRequest t = true <-> momentum)
    by apply someIncluded_spec.
  assert (Hstate : state
            = if Simple.doneSignal t then Simple.S2
              else if Simple.clarityRequest t then Simple.S4
              else if Simple.momentumRequest t then Simple.S3
              else Simple.S1).
  { subst state t. unfold Simple.inferState, Simple.normalize.
    destruct (Simple.stuckSignal _); reflexivity. }
  split; [|split; [|split; [|split; [|split; [|split]]]]].
  - intros H. apply Hd in H. rewrite Hstate, H. reflexivity.
  - intros Hn H. apply Hc in H. rewrite Hstate, H.
    destruct (Simple.doneSignal t); [|reflexivity].
    exfalso. apply Hn, Hd. reflexivity.
  - intros Hn1 Hn2 H. apply Hm in H. rewrite Hstate, H.
    destruct (Simple.doneSignal t); [exfalso; apply Hn1, Hd; reflexivity|].
    destruct (Simple.clarityRequest t); [|reflexivity].
    exfalso. apply Hn2, Hc. reflexivity.
  - intros Hn1 Hn2 Hn3 _. rewrite Hstate.
    destruct (Simple.doneSignal t); [exfalso; apply Hn1, Hd; reflexivity|].
    destruct (Simple.clarityRequest t);
      [exfalso; apply Hn2, Hc; reflexivity|].
    destruct (Simple.momentumRequest t); [|reflexivity].
    exfalso. apply Hn3, Hm. reflexivity.
  - intros Hn1 Hn2 Hn3 _. rewrite Hstate.
    destruct (Simple.doneSignal t); [exfalso; apply Hn1, Hd; reflexivity|].
    destruct (Simple.clarityRequest t);
      [exfalso; apply Hn2, Hc; reflexivity|].
    destruct (Simple.momentumRequest t); [|reflexivity].
    exfalso. apply Hn3, Hm. reflexivity.
  - intros Hblank. subst state. unfold Simple.inferState, Simple.normalize.
    rewrite (trim_blank _ Hblank). reflexivity.
  - intros Hdone. subst state. unfold Simple.inferState, Simple.normalize.
    rewrite (doneSignal_after_trim _ Hdone). reflexivity.
Qed.

Lemma C1_inferState_priority_witness :
  Simple.inferState toLowerAscii (lit "I'm STUCK, but I sent the email")
    = Simple.S2
  /\ Simple.inferState toLowerAscii (lit " Help me decide what next ")
     = Simple.S4
  /\ Simple.inferState toLowerAscii (lit "OK, now what?") = Simple.S3
  /\ Simple.inferState toLowerAscii (lit "   ") = Simple.S1.
Proof.
  split; [|split; [|split]].
  - apply (C1_inferState_priority toLowerAscii
             (lit "I'm STUCK, but I sent the email")).
    right. exists (lit "i sent"), (lit "i'm stuck, but "), (lit " the email").
    split; [|reflexivity].
    simpl. right. right. right. left. reflexivity.
  - destruct (C1_inferState_priority toLowerAscii
                (lit " Help me decide what next ")) as (_ & H & _).
    apply H.
    + intros Hdone. apply doneSignal_spec in Hdone. discriminate Hdone.
    + exists (lit "help me decide"), [], (lit " what next").
      split; [|reflexivity]. simpl. right. left. reflexivity.
  - destruct (C1_inferState_priority toLowerAscii (lit "OK, now what?"))
      as (_ & _ & H & _).
    apply H.
    + intros Hdone. apply doneSignal_spec in Hdone. discriminate Hdone.
    + intros Hclar. apply someIncluded_spec in Hclar. discriminate Hclar.
    + exists (lit "now what"), (lit "ok, "), (lit "?").
      split; [|reflexivity]. simpl. do 4 right. left. reflexivity.
  - apply (C1_inferState_priority toLowerAscii (lit "   ")).
    repeat constructor.
Defined.

(** C9: the classifier answers Moved (S2) exactly when, in the
    normalised text, "done" stands as a whole word (no word character on
    either side, which is what [/\bdone\b/] tests) or one of the other
    completion phrases occurs as a substring; so "done" inside a longer
    word does not count, while each other phrase counts wherever it
    occurs in the lower-cased input, also inside a longer word. *)
Theorem C9_done_whole_word (toLowerCase : jsstring -> jsstring)
    (userText : jsstring) :
  let t := trim (toLowerCase userText) in
  (test false Simple.doneRegex t = true <-> Simple.wholeWordDone t)
  /\ (Simple.inferState toLowerCase userText = Simple.S2
      <-> Simple.wholeWordDone t
          \/ Simple.containsOneOf Simple.donePhrases t)
  /\ (~ Simple.wholeWordDone t ->
      ~ Simple.containsOneOf Simple.donePhrases t ->
      Simple.inferState toLowerCase userText <> Simple.S2)
  /\ (forall p pre post,
        In p Simple.donePhrases ->
        toLowerCase userText = pre ++ p ++ post ->
        Simple.inferState toLowerCase userText = Simple.S2).
Proof.
  intros t. split; [|split; [|split]].
  - apply test_doneRegex_spec.
  - rewrite inferState_S2_iff. apply doneSignal_spec.
  - intros Hw Hc HS2.
    apply inferState_S2_iff, doneSignal_spec in HS2 as [H|H]; contradiction.
  - intros p pre post Hin Heq.
    apply inferState_S2_iff, doneSignal_after_trim.
    right. exists p, pre, post. auto.
Qed.

Lemma C9_done_whole_word_witness :
  Simple.inferState toLowerAscii (lit "I abandoned it") <> Simple.S2
  /\ Simple.inferState toLowerAscii (lit "Still UNFINISHED") = Simple.S2.
Proof.
  split.
  - apply (C9_done_whole_word toLowerAscii (lit "I abandoned it")).
    + intros H. apply test_doneRegex_spec in H. discriminate H.
    + intros H. apply someIncluded_spec in H. discriminate H.
  - destruct (C9_done_whole_word toLowerAscii (lit "Still UNFINISHED"))
      as (_ & _ & _ & H).
    apply (H (lit "finished") (lit "still un") []).
    + simpl. do 5 right. left. reflexivity.
    + reflexivity.
Defined.

(** ** The timebox pattern of the richer variant *)

Lemma starC_greedy {A} (p : N -> bool) prev s
    (k : option N -> jsstring -> option A) :
  (forall pv x r, p x = true -> k pv (x :: r) = None) ->
  starC p prev s k = k (prevAfter prev (takeWhile p s)) (dropWhile p s).
Proof.
  intros Hk. revert prev. induction s as [|c s IH]; intros prev; simpl.
  - reflexivity.
  - destruct (p c) eqn:Hc; [|reflexivity].
    rewrite IH, prevAfter_cons.
    destruct (k _ _) eqn:E; [reflexivity|].
    apply Hk, Hc.
Qed.

Lemma letter_range (p x : N) :
  isLower p = true -> charMatches true p x = true ->
  (65 <= x <= 90) \/ (97 <= x <= 122).
Proof.
  unfold charMatches, canonicalize.
  intros Hp. rewrite Hp.
  destruct (isLower x) eqn:Hx; unfold isLower in Hp, Hx.
  all: apply andb_true_iff in Hp as [Hp1 Hp2].
  all: apply N.leb_le in Hp1, Hp2.
  - apply andb_true_iff in Hx as [Hx1 Hx2].
    apply N.leb_le in Hx1, Hx2. intros _. right. lia.
  - intros H. apply N.eqb_eq in H. left. lia.
Qed.

Lemma letter_not_digit (x : N) :
  (65 <= x <= 90) \/ (97 <= x <= 122) -> isDigit x = false.
Proof.
  intros H. unfold isDigit.
  destruct (N.leb_spec 0x30 x), (N.leb_spec x 0x39); simpl;
    try reflexivity; lia.
Qed.

Lemma letter_not_space (x : N) :
  (65 <= x <= 90) \/ (97 <= x <= 122) -> isWhiteSpace x = false.
Proof.
  intros H. unfold isWhiteSpace.
  repeat match goal with
         | |- context [N.eqb ?a ?b] =>
             destruct (N.eqb_spec a b); [lia|]
         end.
  destruct (N.leb_spec 0x2000 x); [lia|]. reflexivity.
Qed.

Lemma digit_not_space (x : N) : isDigit x = true -> isWhiteSpace x = false.
Proof.
  unfold isDigit. intros H. apply andb_true_iff in H as [H1 H2].
  apply N.leb_le in H1, H2. unfold isWhiteSpace.
  repeat match goal with
         | |- context [N.eqb ?a ?b] =>
             destruct (N.eqb_spec a b); [lia|]
         end.
  destruct (N.leb_spec 0x2000 x); [lia|]. reflexivity.
Qed.

(** The unit alternation, computed. *)
Lemma rmatch_unit_alternative pv s (w : jsstring) :
  rmatch true (RSeq (rlit w) (ROpt (RChar 0x73))) pv s
    (fun _ rest => Some rest)
  = if prefixMatches true s w
    then Some (Rich.afterOptionalS (drop (length w) s))
    else None.
Proof.
  cbn [rmatch]. rewrite rmatch_rlit.
  destruct (prefixMatches true s w); [|reflexivity].
  unfold Rich.afterOptionalS.
  destruct (drop (length w) s) as [|x r]; [reflexivity|].
  destruct (charMatches true 0x73 x); reflexivity.
Qed.

Lemma rmatch_RAlt {A} ci r1 r2 prev s (k : option N -> jsstring -> option A) :
  rmatch ci (RAlt r1 r2) prev s k
  = match rmatch ci r1 prev s k with
    | Some a => Some a
    | None => rmatch ci r2 prev s k
    end.
Proof. reflexivity. Qed.

Lemma rmatch_unitRegex pv s :
  rmatch true Rich.unitRegex pv s (fun _ rest => Some rest)
  = Rich.unitRest s.
Proof.
  unfold Rich.unitRegex, Rich.unitRest.
  rewrite !rmatch_RAlt, !rmatch_unit_alternative.
  change (length (lit "minute")) with 6%nat.
  change (length (lit "min")) with 3%nat.
  change (length (lit "hour")) with 4%nat.
  change (length (lit "hr")) with 2%nat.
  repeat match goal with
         | |- context [prefixMatches true s ?w] =>
             destruct (prefixMatches true s w); [reflexivity|]
         end.
  reflexivity.
Qed.

(** Each unit alternative starts with a letter. *)
Lemma unitRest_starts_with_letter x r rest :
  Rich.unitRest (x :: r) = Some rest ->
  (65 <= x <= 90) \/ (97 <= x <= 122).
Proof.
  unfold Rich.unitRest. cbn [prefixMatches lit map list_ascii_of_string].
  intros H.
  repeat match type of H with
         | context [charMatches true ?p x] =>
             let E := fresh "E" in
             destruct (charMatches true p x) eqn:E;
             [apply (letter_range p x eq_refl E)|]; cbn [andb] in H
         end.
  discriminate H.
Qed.

Lemma unitRest_None_of_nonletter x r :
  isDigit x = true \/ isWhiteSpace x = true -> Rich.unitRest (x :: r) = None.
Proof.
  intros H. destruct (Rich.unitRest (x :: r)) as [rest|] eqn:E; [|reflexivity].
  apply unitRest_starts_with_letter in E.
  destruct H as [H|H].
  - rewrite (letter_not_digit x E) in H. discriminate.
  - rewrite (letter_not_space x E) in H. discriminate.
Qed.

(** The whole pattern at one position: the run of digits and the run of
    white space are taken whole, then a unit must follow. *)
Lemma rmatch_timeboxRegex prev s :
  rmatch true Rich.timeboxRegex prev s (fun _ rest => Some rest)
  = match s with
    | x :: s' =>
        if isDigit x
        then Rich.unitRest (dropWhile isWhiteSpace (dropWhile isDigit s'))
        else None
    | [] => None
    end.
Proof.
  unfold Rich.timeboxRegex. cbn [rmatch].
  destruct s as [|x s']; [reflexivity|].
  destruct (isDigit x) eqn:Hx; [|reflexivity].
  rewrite starC_greedy.
  - rewrite starC_greedy.
    + apply rmatch_unitRegex.
    + intros pv y r Hy. rewrite rmatch_unitRegex.
      apply unitRest_None_of_nonletter. right. exact Hy.
  - intros pv y r Hy. cbn [starC].
    rewrite (digit_not_space y Hy), rmatch_unitRegex.
    apply unitRest_None_of_nonletter. left. exact Hy.
Qed.

Lemma prefixMatches_split (s w : jsstring) :
  prefixMatches true s w = true ->
  exists u r, s = u ++ r /\ drop (length w) s = r
              /\ Rich.equalIgnoringCase u w.
Proof.
  revert s. induction w as [|p w IH]; intros s; simpl.
  - intros _. exists [], s. repeat split. constructor.
  - destruct s as [|c s]; [discriminate|].
    intros H. apply andb_true_iff in H as [Hc Hrest].
    destruct (IH s Hrest) as (u & r & -> & Hdrop & Heq).
    exists (c :: u), r. repeat split; [exact Hdrop|].
    constructor; [|exact Heq].
    unfold charMatches in Hc. apply N.eqb_eq in Hc. exact Hc.
Qed.

Lemma prefixMatches_of_equal (u w t post : jsstring) :
  Rich.equalIgnoringCase u (w ++ t) ->
  prefixMatches true (u ++ post) w = true.
Proof.
  revert u. induction w as [|p w IH]; intros u H; [reflexivity|].
  inversion H as [|c p' u' wt Hc Hrest]; subst. simpl.
  apply andb_true_iff. split.
  - unfold charMatches. apply N.eqb_eq. exact Hc.
  - apply IH. exact Hrest.
Qed.

Lemma unitRest_sound (s rest : jsstring) :
  Rich.unitRest s = Some rest ->
  exists u, s = u ++ rest /\ Rich.isUnitWord u.
Proof.
  assert (Halt : forall w,
    In w Rich.unitWords -> In (w ++ [0x73]) Rich.unitWords ->
    prefixMatches true s w = true ->
    Rich.afterOptionalS (drop (length w) s) = rest ->
    exists u, s = u ++ rest /\ Rich.isUnitWord u).
  { intros w Hw Hws Hpm Hopt.
    destruct (prefixMatches_split s w Hpm) as (u & r & -> & Hdrop & Heq).
    rewrite Hdrop in Hopt. unfold Rich.afterOptionalS in Hopt.
    destruct r as [|x r].
    - subst rest. exists u. split; [reflexivity|]. exists w. auto.
    - destruct (charMatches true 0x73 x) eqn:Hx.
      + subst rest. exists (u ++ [x]).
        split; [rewrite <- app_assoc; reflexivity|].
        exists (w ++ [0x73]). split; [exact Hws|].
        apply Forall2_app; [exact Heq|]. constructor; [|constructor].
        unfold charMatches in Hx. apply N.eqb_eq in Hx. exact Hx.
      + subst rest. exists u. split; [reflexivity|]. exists w. auto. }
  unfold Rich.unitRest.
  destruct (prefixMatches true s (lit "minute")) eqn:E1.
  { intros [= H]. apply (Halt (lit "minute")); try assumption;
      simpl; auto 10. }
  destruct (prefixMatches true s (lit "min")) eqn:E2.
  { intros [= H]. apply (Halt (lit "min")); try assumption;
      simpl; auto 10. }
  destruct (prefixMatches true s (lit "hour")) eqn:E3.
  { intros [= H]. apply (Halt (lit "hour")); try assumption;
      simpl; auto 10. }
  destruct (prefixMatches true s (lit "hr")) eqn:E4; [|discriminate].
  intros [= H]. apply (Halt (lit "hr")); try assumption; simpl; auto 10.
Qed.

Lemma unitRest_complete (u post : jsstring) :
  Rich.isUnitWord u -> is_Some (Rich.unitRest (u ++ post)).
Proof.
  intros (w & Hin & Heq).
  assert (Hbase : prefixMatches true (u ++ post) (lit "min") = true
                  \/ prefixMatches true (u ++ post) (lit "hour") = true
                  \/ prefixMatches true (u ++ post) (lit "hr") = true).
  { simpl in Hin.
    destruct Hin as [<-|[<-|[<-|[<-|[<-|[<-|[<-|[<-|[]]]]]]]]].
    - left. apply (prefixMatches_of_equal u (lit "min") (lit "utes")), Heq.
    - left. apply (prefixMatches_of_equal u (lit "min") (lit "ute")), Heq.
    - left. apply (prefixMatches_of_equal u (lit "min") (lit "s")), Heq.
    - left. apply (prefixMatches_of_equal u (lit "min") []).
      rewrite app_nil_r. exact Heq.
    - right. left.
      apply (prefixMatches_of_equal u (lit "hour") (lit "s")), Heq.
    - right. left. apply (prefixMatches_of_equal u (lit "hour") []).
      rewrite app_nil_r. exact Heq.
    - right. right.
      apply (prefixMatches_of_equal u (lit "hr") (lit "s")), Heq.
    - right. right. apply (prefixMatches_of_equal u (lit "hr") []).
      rewrite app_nil_r. exact Heq. }
  unfold Rich.unitRest.
  destruct (prefixMatches true (u ++ post) (lit "minute")); [eexists; reflexivity|].
  destruct (prefixMatches true (u ++ post) (lit "min")); [eexists; reflexivity|].
  destruct (prefixMatches true (u ++ post) (lit "hour")); [eexists; reflexivity|].
  destruct (prefixMatches true (u ++ post) (lit "hr")); [eexists; reflexivity|].
  destruct Hbase as [H|[H|H]]; discriminate H.
Qed.

Lemma unitWord_starts_with_letter (u : jsstring) :
  Rich.isUnitWord u ->
  exists y u', u = y :: u' /\ ((65 <= y <= 90) \/ (97 <= y <= 122)).
Proof.
  intros Hu.
  destruct (unitRest_complete u [] Hu) as (rest & Hrest).
  rewrite app_nil_r in Hrest.
  destruct u as [|y u'].
  - discriminate Hrest.
  - exists y, u'. split; [reflexivity|].
    exact (unitRest_starts_with_letter y u' rest Hrest).
Qed.

Lemma take_app_minus (a rest : jsstring) :
  take (length (a ++ rest) - length rest) (a ++ rest) = a.
Proof.
  rewrite length_app.
  replace (length a + length rest - length rest)%nat with (length a) by lia.
  apply take_app_length.
Qed.

(** A match at a position is a duration phrase at that position. *)
Lemma matchAt_timebox_sound prev s m :
  matchAt true Rich.timeboxRegex prev s = Some m ->
  exists rest, s = m ++ rest /\ Rich.durationPhrase m.
Proof.
  unfold matchAt. rewrite rmatch_timeboxRegex.
  destruct s as [|x s']; [discriminate|].
  destruct (isDigit x) eqn:Hx; [|discriminate].
  destruct (Rich.unitRest _) as [rest|] eqn:Hu; [|discriminate].
  intros [= <-].
  apply unitRest_sound in Hu as (u & Hs2 & Hunit).
  pose proof (dropWhile_takeWhile isDigit s') as Hd.
  pose proof (dropWhile_takeWhile isWhiteSpace (dropWhile isDigit s')) as Hw.
  rewrite Hs2 in Hw.
  set (ds := takeWhile isDigit s') in *.
  set (ws := takeWhile isWhiteSpace (dropWhile isDigit s')) in *.
  assert (Hs : x :: s' = ((x :: ds) ++ ws ++ u) ++ rest).
  { rewrite <- Hd, <- Hw. simpl. rewrite <- !app_assoc. reflexivity. }
  assert (Htake : take (length (x :: s') - length rest) (x :: s')
                  = (x :: ds) ++ ws ++ u).
  { rewrite Hs. apply take_app_minus. }
  change (length (x :: s')) with (S (length s')) in Htake.
  exists rest. rewrite Htake.
  split; [exact Hs|].
  exists (x :: ds), ws, u. split; [reflexivity|].
  split; [discriminate|].
  split; [constructor; [exact Hx | apply takeWhile_Forall]|].
  split; [apply takeWhile_Forall | exact Hunit].
Qed.

(** Where a duration phrase starts, the pattern matches. *)
Lemma matchAt_timebox_complete prev tb post :
  Rich.durationPhrase tb ->
  is_Some (matchAt true Rich.timeboxRegex prev (tb ++ post)).
Proof.
  intros (ds & ws & u & -> & Hne & Hds & Hws & Hu).
  destruct ds as [|x ds']; [congruence|].
  apply Forall_cons in Hds as [Hx Hds'].
  destruct (unitWord_starts_with_letter u Hu) as (y & u' & -> & Hy).
  unfold matchAt. rewrite rmatch_timeboxRegex.
  rewrite <- !app_assoc. simpl. rewrite Hx.
  assert (Hdigits : dropWhile isDigit (ds' ++ ws ++ y :: u' ++ post)
                    = ws ++ y :: u' ++ post).
  { destruct ws as [|z ws'].
    - simpl. apply dropWhile_app_stop; [exact Hds'|].
      apply letter_not_digit, Hy.
    - apply Forall_cons in Hws as [Hz _]. simpl.
      apply dropWhile_app_stop; [exact Hds'|].
      destruct (isDigit z) eqn:Ez; [|reflexivity].
      rewrite (digit_not_space z Ez) in Hz. discriminate. }
  rewrite Hdigits.
  rewrite (dropWhile_app_stop isWhiteSpace ws y (u' ++ post) Hws
             (letter_not_space y Hy)).
  destruct (unitRest_complete (y :: u') post Hu) as (rest & Hrest).
  simpl in Hrest. rewrite Hrest. eexists. reflexivity.
Qed.

(** Either the situation holds a duration phrase, and the timebox is the
    leftmost one, or it holds none and the timebox is the default. *)
Lemma timeboxOf_cases (situation : jsstring) :
  (exists pre,
      Rich.durationAt situation pre (Rich.timeboxOf situation)
      /\ forall pre' tb', Rich.durationAt situation pre' tb' ->
           (length pre <= length pre')%nat)
  \/ (~ Rich.mentionsDuration situation
      /\ Rich.timeboxOf situation = lit "30 minutes").
Proof.
  unfold Rich.timeboxOf, match0.
  destruct (searchFrom true Rich.timeboxRegex None situation) as [m|] eqn:E.
  - left. apply searchFrom_Some in E as (pre & post & -> & Hm & Hleft).
    apply matchAt_timebox_sound in Hm as (rest & -> & Hphrase).
    exists pre. split.
    + exists rest. split; [reflexivity | exact Hphrase].
    + intros pre' tb' (post' & Heq & Hphrase').
      destruct (Nat.le_gt_cases (length pre) (length pre')) as [Hle|Hlt];
        [exact Hle|].
      specialize (Hleft pre' (tb' ++ post') Heq Hlt).
      destruct (matchAt_timebox_complete (prevAfter None pre') tb' post'
                  Hphrase') as (m' & Hm').
      congruence.
  - right. split; [|reflexivity].
    intros (pre & tb & post & Heq & Hphrase).
    pose proof (proj1 (searchFrom_None _ _ _ _) E pre (tb ++ post) Heq)
      as Hnone.
    destruct (matchAt_timebox_complete (prevAfter None pre) tb post Hphrase)
      as (m' & Hm').
    congruence.
Qed.

Lemma join_cons_cons (sep a b : jsstring) (l : list jsstring) :
  join sep (a :: b :: l) = a ++ sep ++ join sep (b :: l).
Proof. reflexivity. Qed.

Lemma truthy_lit_app (a b : jsstring) : truthy a = true -> truthy (a ++ b) = true.
Proof. intros H. rewrite truthy_app, H. reflexivity. Qed.

Lemma truthy_headingOf tb : truthy (Rich.headingOf tb) = true.
Proof. reflexivity. Qed.

Lemma truthy_stepOf tb : truthy (Rich.stepOf tb) = true.
Proof. reflexivity. Qed.

(** The lines of the rendered details, after [filter(Boolean)] has
    dropped the two empty lines and the [null]. *)
Lemma detailsLinesOf_shape (args : Rich.NextBestStepArgs) :
  let timebox := Rich.timeboxOf (Rich.situation args) in
  let desired := Rich.resolveDesired (Rich.desired_outcome args) in
  Rich.detailsLinesOf args
  = [Rich.headingOf timebox;
     Rich.stepOf timebox;
     lit "Constraints: " ++ Rich.resolveConstraints (Rich.constraints args)]
    ++ (if truthy desired then [lit "Desired outcome: " ++ desired] else [])
    ++ [Rich.finishLine].
Proof.
  intros timebox desired. unfold Rich.detailsLinesOf.
  fold timebox. fold desired. cbn [Rich.filterBoolean].
  rewrite truthy_headingOf, truthy_stepOf.
  rewrite (truthy_lit_app (lit "Constraints: ")
             (Rich.resolveConstraints (Rich.constraints args)) eq_refl).
  change (truthy Rich.finishLine) with true. cbn [truthy].
  destruct (truthy desired) eqn:Hd.
  - rewrite (truthy_lit_app (lit "Desired outcome: ") desired eq_refl).
    reflexivity.
  - reflexivity.
Qed.

(** The unit alternation consumes the longest unit that fits. *)
Lemma afterOptionalS_length (s : jsstring) :
  (length (Rich.afterOptionalS s) <= length s)%nat.
Proof.
  destruct s as [|x r]; unfold Rich.afterOptionalS; [cbn [length]; lia|].
  destruct (charMatches true 115 x); cbn [length]; lia.
Qed.

Lemma unit_branch_length (u post b : jsstring) :
  (length u <= length b)%nat ->
  (length (Rich.afterOptionalS (drop (length b) (u ++ post)))
   <= length post)%nat.
Proof.
  intros Hlen.
  pose proof (afterOptionalS_length (drop (length b) (u ++ post))) as H.
  rewrite length_drop, length_app in H. lia.
Qed.

Lemma unit_branch_plural (u post b : jsstring) :
  Rich.equalIgnoringCase u (b ++ [0x73]) ->
  Rich.afterOptionalS (drop (length b) (u ++ post)) = post.
Proof.
  intros Heq. apply Forall2_app_inv_r in Heq as (u0 & c & Hu0 & Hc & ->).
  apply Forall2_length in Hu0 as Hlen.
  inversion Hc as [|x y l l' Hxy Hnil]; subst. inversion Hnil; subst.
  rewrite <- app_assoc, <- Hlen, drop_app_length. simpl.
  unfold charMatches. rewrite Hxy, N.eqb_refl. reflexivity.
Qed.

Lemma unitRest_longest (u post rest : jsstring) :
  Rich.isUnitWord u -> Rich.unitRest (u ++ post) = Some rest ->
  (length rest <= length post)%nat.
Proof.
  intros (w & Hin & Heq).
  pose proof (Forall2_length _ _ _ Heq) as Hlen.
  unfold Rich.unitRest. simpl in Hin.
  destruct Hin as [<-|[<-|[<-|[<-|[<-|[<-|[<-|[<-|[]]]]]]]]].
  - rewrite (prefixMatches_of_equal u (lit "minute") (lit "s") post Heq).
    intros [= <-]. pose proof (unit_branch_plural u post (lit "minute") Heq) as Hp.
    change (length (lit "minute")) with 6%nat in Hp. rewrite Hp. lia.
  - rewrite (prefixMatches_of_equal u (lit "minute") [] post)
      by (rewrite app_nil_r; exact Heq).
    intros [= <-]. apply (unit_branch_length u post (lit "minute")). rewrite Hlen. reflexivity.
  - destruct (prefixMatches true (u ++ post) (lit "minute")).
    { intros [= <-]. apply (unit_branch_length u post (lit "minute")). rewrite Hlen. simpl. lia. }
    rewrite (prefixMatches_of_equal u (lit "min") (lit "s") post Heq).
    intros [= <-]. pose proof (unit_branch_plural u post (lit "min") Heq) as Hp.
    change (length (lit "min")) with 3%nat in Hp. rewrite Hp. lia.
  - destruct (prefixMatches true (u ++ post) (lit "minute")).
    { intros [= <-]. apply (unit_branch_length u post (lit "minute")). rewrite Hlen. simpl. lia. }
    rewrite (prefixMatches_of_equal u (lit "min") [] post)
      by (rewrite app_nil_r; exact Heq).
    intros [= <-]. apply (unit_branch_length u post (lit "min")). rewrite Hlen. reflexivity.
  - destruct (prefixMatches true (u ++ post) (lit "minute")).
    { intros [= <-]. apply (unit_branch_length u post (lit "minute")). rewrite Hlen. simpl. lia. }
    assert (Hmin : prefixMatches true (u ++ post) (lit "min") = false).
    { inversion Heq as [|x y l l' Hxy Hrest]; subst. simpl.
      unfold charMatches. rewrite Hxy. reflexivity. }
    rewrite Hmin.
    rewrite (prefixMatches_of_equal u (lit "hour") (lit "s") post Heq).
    intros [= <-]. pose proof (unit_branch_plural u post (lit "hour") Heq) as Hp.
    change (length (lit "hour")) with 4%nat in Hp. rewrite Hp. lia.
  - destruct (prefixMatches true (u ++ post) (lit "minute")).
    { intros [= <-]. apply (unit_branch_length u post (lit "minute")). rewrite Hlen. simpl. lia. }
    assert (Hmin : prefixMatches true (u ++ post) (lit "min") = false).
    { inversion Heq as [|x y l l' Hxy Hrest]; subst. simpl.
      unfold charMatches. rewrite Hxy. reflexivity. }
    rewrite Hmin.
    rewrite (prefixMatches_of_equal u (lit "hour") [] post)
      by (rewrite app_nil_r; exact Heq).
    intros [= <-]. apply (unit_branch_length u post (lit "hour")). rewrite Hlen. reflexivity.
  - destruct (prefixMatches true (u ++ post) (lit "minute")).
    { intros [= <-]. apply (unit_branch_length u post (lit "minute")). rewrite Hlen. simpl. lia. }
    destruct (prefixMatches true (u ++ post) (lit "min")).
    { intros [= <-]. apply (unit_branch_length u post (lit "min")). rewrite Hlen. simpl. lia. }
    destruct (prefixMatches true (u ++ post) (lit "hour")).
    { intros [= <-]. apply (unit_branch_length u post (lit "hour")). rewrite Hlen. simpl. lia. }
    rewrite (prefixMatches_of_equal u (lit "hr") (lit "s") post Heq).
    intros [= <-]. pose proof (unit_branch_plural u post (lit "hr") Heq) as Hp.
    change (length (lit "hr")) with 2%nat in Hp. rewrite Hp. lia.
  - destruct (prefixMatches true (u ++ post) (lit "minute")).
    { intros [= <-]. apply (unit_branch_length u post (lit "minute")). rewrite Hlen. simpl. lia. }
    destruct (prefixMatches true (u ++ post) (lit "min")).
    { intros [= <-]. apply (unit_branch_length u post (lit "min")). rewrite Hlen. simpl. lia. }
    destruct (prefixMatches true (u ++ post) (lit "hour")).
    { intros [= <-]. apply (unit_branch_length u post (lit "hour")). rewrite Hlen. simpl. lia. }
    rewrite (prefixMatches_of_equal u (lit "hr") [] post)
      by (rewrite app_nil_r; exact Heq).
    intros [= <-]. apply (unit_branch_length u post (lit "hr")). rewrite Hlen. reflexivity.
Qed.

(** Where a duration phrase starts, the match is at least as long as
    that phrase. *)
Lemma matchAt_timebox_longest prev tb post m :
  Rich.durationPhrase tb ->
  matchAt true Rich.timeboxRegex prev (tb ++ post) = Some m ->
  (length tb <= length m)%nat.
Proof.
  intros (ds & ws & u & -> & Hne & Hds & Hws & Hu).
  destruct ds as [|x ds']; [congruence|].
  apply Forall_cons in Hds as [Hx Hds'].
  destruct (unitWord_starts_with_letter u Hu) as (y & u' & -> & Hy).
  unfold matchAt. rewrite rmatch_timeboxRegex.
  rewrite <- !app_assoc. cbn [app]. rewrite Hx.
  assert (Hdigits : dropWhile isDigit (ds' ++ ws ++ y :: u' ++ post)
                    = ws ++ y :: u' ++ post).
  { destruct ws as [|z ws'].
    - simpl. apply dropWhile_app_stop; [exact Hds'|].
      apply letter_not_digit, Hy.
    - apply Forall_cons in Hws as [Hz _]. simpl.
      apply dropWhile_app_stop; [exact Hds'|].
      destruct (isDigit z) eqn:Ez; [|reflexivity].
      rewrite (digit_not_space z Ez) in Hz. discriminate. }
  rewrite Hdigits.
  rewrite (dropWhile_app_stop isWhiteSpace ws y (u' ++ post) Hws
             (letter_not_space y Hy)).
  destruct (Rich.unitRest (y :: u' ++ post)) as [rest|] eqn:Hrest;
    [|discriminate].
  pose proof (unitRest_longest (y :: u') post rest Hu Hrest) as Hlong.
  intros [= <-]. rewrite length_take.
  cbn [length]. rewrite !length_app. cbn [length]. rewrite !length_app.
  lia.
Qed.

Lemma leftmostLongestDuration_unique (situation tb1 tb2 : jsstring) :
  Rich.leftmostLongestDuration situation tb1 ->
  Rich.leftmostLongestDuration situation tb2 -> tb1 = tb2.
Proof.
  intros (pre1 & Hat1 & Hbest1) (pre2 & Hat2 & Hbest2).
  destruct (Hbest1 pre2 tb2 Hat2) as [Hlt|(Hlen & Hle12)];
    destruct (Hbest2 pre1 tb1 Hat1) as [Hlt'|(Hlen' & Hle21)]; try lia.
  destruct Hat1 as (post1 & Heq1 & _), Hat2 as (post2 & Heq2 & _).
  rewrite Heq1 in Heq2.
  apply app_inj_1 in Heq2 as (_ & Heq2); [|lia].
  apply app_inj_1 in Heq2 as (Heq2 & _); [exact Heq2 | lia].
Qed.

(** The timebox when the situation holds a duration phrase. *)
Lemma timeboxOf_leftmost_longest (situation : jsstring) :
  Rich.mentionsDuration situation ->
  Rich.leftmostLongestDuration situation (Rich.timeboxOf situation).
Proof.
  intros Hyes. unfold Rich.timeboxOf, match0.
  destruct (searchFrom true Rich.timeboxRegex None situation) as [m|] eqn:E.
  - apply searchFrom_Some in E as (pre & post & -> & Hm & Hleft).
    pose proof Hm as Hsound.
    apply matchAt_timebox_sound in Hsound as (rest & -> & Hphrase).
    exists pre. split.
    + exists rest. split; [reflexivity | exact Hphrase].
    + intros pre' tb' (post' & Heq & Hphrase').
      destruct (Nat.lt_trichotomy (length pre) (length pre'))
        as [Hlt|[Hlen|Hgt]].
      * left. exact Hlt.
      * right. split; [symmetry; exact Hlen|].
        apply app_inj_1 in Heq as (_ & Heq); [|exact Hlen].
        rewrite Heq in Hm.
        exact (matchAt_timebox_longest _ tb' post' m Hphrase' Hm).
      * exfalso. specialize (Hleft pre' (tb' ++ post') Heq Hgt).
        destruct (matchAt_timebox_complete (prevAfter None pre') tb' post'
                    Hphrase') as (m' & Hm').
        congruence.
  - exfalso. destruct Hyes as (pre & tb & post & Heq & Hphrase).
    pose proof (proj1 (searchFrom_None _ _ _ _) E pre (tb ++ post) Heq)
      as Hnone.
    destruct (matchAt_timebox_complete (prevAfter None pre) tb post Hphrase)
      as (m' & Hm').
    congruence.
Qed.

Lemma match0_timebox_None (situation : jsstring) :
  match0 true Rich.timeboxRegex situation = None ->
  ~ Rich.mentionsDuration situation.
Proof.
  intros E (pre & tb & post & Heq & Hphrase).
  pose proof (proj1 (searchFrom_None _ _ _ _) E pre (tb ++ post) Heq)
    as Hnone.
  destruct (matchAt_timebox_complete (prevAfter None pre) tb post Hphrase)
    as (m' & Hm').
  congruence.
Qed.

Lemma app_eq_take_drop (s u post : jsstring) :
  s = u ++ post -> u = take (length u) s /\ post = drop (length u) s.
Proof.
  intros ->. rewrite take_app_length, drop_app_length. auto.
Qed.

(** C4 as stated fails when the unit only begins a longer word: in
    "5 mineral waters" no minute/hour unit word follows the digits, yet
    the timebox is "5 min" and "30 minutes" is nowhere in the response. *)
Lemma C4_unit_inside_word_counterexample :
  let situation := lit "5 mineral waters" in
  let text := Rich.detailsOf (Rich.mkArgs situation None None) in
  ~ Rich.mentionsDurationWord situation
  /\ Rich.timeboxOf situation = lit "5 min"
  /\ startsWith text (lit "Next Best Step (5 min):" ++ Rich.newline) = true
  /\ includes text (lit "30 minutes") = false.
Proof.
  intros situation text.
  split; [|vm_compute; auto].
  intros (pre & tb & post & Heq
          & (ds & ws & u & -> & Hne & Hds & Hws & Hu) & Hboundary).
  destruct ds as [|d ds']; [congruence|].
  apply Forall_cons in Hds as [Hd Hds'].
  assert (Hnodigit : Forall (fun c => isDigit c = false)
                       (lit " mineral waters")) by (repeat constructor).
  subst situation.
  change (lit "5 mineral waters") with (0x35 :: lit " mineral waters") in Heq.
  destruct pre as [|c pre'].
  2:{ injection Heq as _ Heq.
      rewrite Forall_forall in Hnodigit.
      rewrite (Hnodigit d) in Hd; [discriminate|].
      rewrite Heq. apply elem_of_app. right. left. }
  injection Heq as _ Heq.
  change (lit " mineral waters") with (0x20 :: lit "mineral waters") in Heq.
  destruct ds' as [|d2 ds''].
  2:{ apply Forall_cons in Hds' as [Hd2 _].
      injection Heq as Hsp _. subst d2. discriminate Hd2. }
  cbn [app] in Heq.
  destruct (unitWord_starts_with_letter u Hu) as (y & u' & -> & Hy).
  apply (f_equal (dropWhile isWhiteSpace)) in Heq.
  rewrite <- app_assoc in Heq.
  change (ws ++ (y :: u') ++ post) with (ws ++ y :: (u' ++ post)) in Heq.
  rewrite (dropWhile_app_stop isWhiteSpace ws y (u' ++ post) Hws
             (letter_not_space y Hy)) in Heq.
  change (dropWhile isWhiteSpace (32 :: lit "mineral waters"))
    with (lit "mineral waters") in Heq.
  change (y :: u' ++ post) with ((y :: u') ++ post) in Heq.
  apply app_eq_take_drop in Heq as (Hu' & Hpost).
  destruct Hu as (w & Hin & Hci).
  pose proof (Forall2_length _ _ _ Hci) as Hlen.
  rewrite Hlen in Hu', Hpost. rewrite Hu' in Hci. rewrite Hpost in Hboundary.
  clear - Hin Hci Hboundary.
  simpl in Hin.
  destruct Hin as [<-|[<-|[<-|[<-|[<-|[<-|[<-|[<-|[]]]]]]]]];
    vm_compute in Hci, Hboundary;
    try discriminate Hboundary;
    repeat match goal with
           | H : Forall2 _ (_ :: _) (_ :: _) |- _ =>
               apply Forall2_cons in H as [? H]
           end;
    discriminate.
Qed.

(** C4 (amended): the rendered details open with the heading
    "Next Best Step (T):". If the situation holds a run of digits
    followed (optionally after white space) by one of the unit strings
    minute(s), min(s), hour(s), hr(s) in any letter case, whether or not
    a longer word goes on after it, T is the matched substring verbatim:
    the phrase of that form that starts leftmost and, of those starting
    there, is the longest, and no other string. If the situation holds
    no such pattern, T is "30 minutes". *)
Theorem C4_timebox (args : Rich.NextBestStepArgs) :
  let situation := Rich.situation args in
  let timebox := Rich.timeboxOf situation in
  (exists rest,
     Rich.detailsOf args
     = lit "Next Best Step (" ++ timebox ++ lit "):" ++ Rich.newline ++ rest)
  /\ (forall tb,
        Rich.leftmostLongestDuration situation tb
        <-> Rich.mentionsDuration situation /\ timebox = tb)
  /\ (~ Rich.mentionsDuration situation -> timebox = lit "30 minutes").
Proof.
  intros situation timebox.
  split; [|split].
  - unfold Rich.detailsOf. rewrite detailsLinesOf_shape. fold situation timebox.
    set (tail := (if truthy _ then _ else _) ++ [Rich.finishLine]).
    set (cl := lit "Constraints: " ++ _).
    change ([Rich.headingOf timebox; Rich.stepOf timebox; cl] ++ tail)
      with (Rich.headingOf timebox :: Rich.stepOf timebox :: cl :: tail).
    rewrite join_cons_cons. unfold Rich.headingOf.
    eexists. rewrite <- !app_assoc. reflexivity.
  - intros tb. split.
    + intros Hbest.
      assert (Hyes : Rich.mentionsDuration situation).
      { destruct Hbest as (pre & Hat & _). exists pre, tb. exact Hat. }
      split; [exact Hyes|].
      apply (leftmostLongestDuration_unique situation);
        [apply timeboxOf_leftmost_longest, Hyes | exact Hbest].
    + intros (Hyes & <-). apply timeboxOf_leftmost_longest, Hyes.
  - intros Hno.
    destruct (timeboxOf_cases situation) as [(pre & Hat & _) | (_ & Hdef)];
      [|exact Hdef].
    exfalso. apply Hno. exists pre, timebox. exact Hat.
Qed.

Lemma C4_timebox_witness :
  let launch := Rich.mkArgs (lit "I have 2 hours before the launch")
                  None None in
  let vague := Rich.mkArgs (lit "no idea where to begin") None None in
  Rich.leftmostLongestDuration (Rich.situation launch) (lit "2 hours")
  /\ Rich.timeboxOf (Rich.situation vague) = lit "30 minutes".
Proof.
  intros launch vague.
  destruct (C4_timebox launch) as (_ & Hyes & _).
  destruct (C4_timebox vague) as (_ & _ & Hno).
  split.
  - apply Hyes. split; [|reflexivity].
    exists (lit "I have "), (lit "2 hours"), (lit " before the launch").
    split; [reflexivity|].
    exists (lit "2"), (lit " "), (lit "hours").
    split; [reflexivity|]. split; [discriminate|].
    split; [repeat constructor|]. split; [repeat constructor|].
    exists (lit "hours"). split; [simpl; auto 10|].
    repeat constructor.
  - apply Hno. apply match0_timebox_None. reflexivity.
Defined.

(** ** The composed details of the richer variant *)

Lemma includes_app_mid (pre s post n : jsstring) :
  includes s n = true -> includes (pre ++ s ++ post) n = true.
Proof.
  intros H. apply includes_spec in H as (a & b & ->).
  apply includes_spec. exists (pre ++ a), (b ++ post).
  rewrite <- !app_assoc. reflexivity.
Qed.

Lemma stepOf_options (timebox : jsstring) :
  includes (Rich.stepOf timebox) Rich.optionA = true
  /\ includes (Rich.stepOf timebox) Rich.optionB = true
  /\ includes (Rich.stepOf timebox) Rich.optionC = true.
Proof.
  set (intro := lit " timer and produce ONE shippable draft that moves distribution forward (not polish). Pick exactly one: ").
  set (outro := lit ". Write the ugly first draft without editing.").
  assert (Hstep : Rich.stepOf timebox
                  = lit "Set a " ++ timebox ++ intro ++ Rich.optionA
                    ++ lit ", " ++ Rich.optionB ++ lit ", or "
                    ++ Rich.optionC ++ outro) by reflexivity.
  rewrite Hstep. repeat split; apply includes_spec.
  - exists (lit "Set a " ++ timebox ++ intro),
           (lit ", " ++ Rich.optionB ++ lit ", or " ++ Rich.optionC ++ outro).
    rewrite <- !app_assoc. reflexivity.
  - exists (lit "Set a " ++ timebox ++ intro ++ Rich.optionA ++ lit ", "),
           (lit ", or " ++ Rich.optionC ++ outro).
    rewrite <- !app_assoc. reflexivity.
  - exists (lit "Set a " ++ timebox ++ intro ++ Rich.optionA ++ lit ", "
            ++ Rich.optionB ++ lit ", or "), outro.
    rewrite <- !app_assoc. reflexivity.
Qed.

Lemma detailsOf_around_step (args : Rich.NextBestStepArgs) :
  exists pre post,
    Rich.detailsOf args
    = pre ++ Rich.stepOf (Rich.timeboxOf (Rich.situation args)) ++ post.
Proof.
  unfold Rich.detailsOf. rewrite detailsLinesOf_shape.
  set (tail := (if truthy _ then _ else _) ++ [Rich.finishLine]).
  set (tb := Rich.timeboxOf (Rich.situation args)).
  set (cl := lit "Constraints: " ++ _).
  change ([Rich.headingOf tb; Rich.stepOf tb; cl] ++ tail)
    with (Rich.headingOf tb :: Rich.stepOf tb :: cl :: tail).
  rewrite !join_cons_cons.
  exists (Rich.headingOf tb ++ Rich.newline),
         (Rich.newline ++ join Rich.newline (cl :: tail)).
  rewrite <- app_assoc. reflexivity.
Qed.

(** C5 as stated fails: the details never hold exactly one of the three
    fixed draft options; the one step names all three. *)
Lemma C5_all_three_options_counterexample :
  let text := Rich.detailsOf (Rich.mkArgs (lit "launch is near") None None) in
  includes text Rich.optionA = true
  /\ includes text Rich.optionB = true
  /\ includes text Rich.optionC = true
  /\ Rich.optionsContained text = 3%nat
  /\ Rich.optionsContained text <> 1%nat.
Proof. vm_compute. repeat split; discriminate. Qed.

(** C5 (amended): for every input, the rendered details are, joined by
    line breaks: the heading naming the timebox; the one hard-coded
    "ugly first draft" step, which names all three fixed draft options
    verbatim; the constraints line, with the fixed default sentence when
    constraints are absent or blank after trimming; a desired-outcome
    line exactly when desired_outcome is given and not blank; and the
    fixed done-criterion line. The situation enters only through the
    timebox. *)
Theorem C5_details_structure (args : Rich.NextBestStepArgs) :
  let timebox := Rich.timeboxOf (Rich.situation args) in
  let c := trim (default [] (Rich.constraints args)) in
  let d := trim (default [] (Rich.desired_outcome args)) in
  Rich.detailsOf args
  = join Rich.newline
      ([lit "Next Best Step (" ++ timebox ++ lit "):";
        Rich.stepOf timebox;
        lit "Constraints: "
          ++ match c with [] => Rich.defaultConstraints | _ => c end]
       ++ match d with
          | [] => []
          | _ => [lit "Desired outcome: " ++ d]
          end
       ++ [Rich.finishLine])
  /\ Rich.optionsContained (Rich.stepOf timebox) = 3%nat
  /\ Rich.optionsContained (Rich.detailsOf args) = 3%nat
  /\ (forall args',
        Rich.timeboxOf (Rich.situation args') = timebox ->
        Rich.constraints args' = Rich.constraints args ->
        Rich.desired_outcome args' = Rich.desired_outcome args ->
        Rich.detailsOf args' = Rich.detailsOf args).
Proof.
  intros timebox c d.
  assert (Hshape : forall a, Rich.detailsOf a
    = join Rich.newline
        ([lit "Next Best Step (" ++ Rich.timeboxOf (Rich.situation a)
            ++ lit "):";
          Rich.stepOf (Rich.timeboxOf (Rich.situation a));
          lit "Constraints: "
            ++ match trim (default [] (Rich.constraints a)) with
               | [] => Rich.defaultConstraints
               | _ => trim (default [] (Rich.constraints a))
               end]
         ++ match trim (default [] (Rich.desired_outcome a)) with
            | [] => []
            | _ => [lit "Desired outcome: "
                      ++ trim (default [] (Rich.desired_outcome a))]
            end
         ++ [Rich.finishLine])).
  { intros a. unfold Rich.detailsOf. rewrite detailsLinesOf_shape.
    unfold Rich.resolveConstraints, Rich.resolveDesired, Rich.headingOf.
    destruct (trim (default [] (Rich.constraints a)));
      destruct (trim (default [] (Rich.desired_outcome a))); reflexivity. }
  split; [apply Hshape|].
  destruct (stepOf_options timebox) as (Ha & Hb & Hc).
  split.
  { unfold Rich.optionsContained. cbn [List.filter].
    rewrite Ha, Hb, Hc. reflexivity. }
  split.
  { destruct (detailsOf_around_step args) as (pre & post & Heq).
    unfold Rich.optionsContained. cbn [List.filter]. rewrite Heq.
    fold timebox.
    rewrite (includes_app_mid pre _ post _ Ha),
            (includes_app_mid pre _ post _ Hb),
            (includes_app_mid pre _ post _ Hc).
    reflexivity. }
  intros args' Htb Hc' Hd'.
  rewrite (Hshape args'), (Hshape args), Htb, Hc', Hd'. reflexivity.
Qed.

Lemma C5_details_structure_witness :
  Rich.detailsOf (Rich.mkArgs (lit "ship in 45 min, whatever it takes")
                    (Some (lit "  ")) None)
  = Rich.detailsOf (Rich.mkArgs (lit "I can spare 45 min") (Some (lit "  "))
                      None).
Proof.
  destruct (C5_details_structure
              (Rich.mkArgs (lit "I can spare 45 min") (Some (lit "  ")) None))
    as (_ & _ & _ & Hsame).
  apply Hsame; reflexivity.
Defined.

(** ** The tool call of the richer variant *)

Lemma callTool_next_best_step (arguments : option Rich.Arguments) :
  Rich.callTool "next_best_step" arguments
  = match Rich.nextBestStepParser (default ∅ arguments) with
    | Rich.Throw e => Rich.Throw e
    | Rich.Ok args =>
        Rich.Ok (Rich.mkResult (Rich.detailsOf args)
                   (Rich.mkPayload (lit "Next Best Step (one action)")
                      (Some (lit "#2d6cdf")) (Some (Rich.detailsOf args))
                      (Some (lit "next_best_step")))
                   (Some (Rich.mkInputs (Rich.situation args)
                            (default [] (Rich.constraints args))
                            (default [] (Rich.desired_outcome args))))
                   "next_best_step")
    end.
Proof. reflexivity. Qed.

Lemma nextBestStepParser_Ok (raw : Rich.Arguments) args :
  Rich.nextBestStepParser raw = Rich.Ok args ->
  raw !! "situation" = Some (Rich.VString (Rich.situation args))
  /\ Rich.situation args <> []
  /\ Rich.optionalString (raw !! "constraints")
     = Rich.Ok (Rich.constraints args)
  /\ Rich.optionalString (raw !! "desired_outcome")
     = Rich.Ok (Rich.desired_outcome args).
Proof.
  unfold Rich.nextBestStepParser.
  destruct (raw !! "situation") as [[s|]|]; try discriminate.
  destruct (1 <=? length s)%nat eqn:Hlen; [|discriminate].
  destruct (Rich.optionalString (raw !! "constraints")) as [c|];
    [|discriminate].
  destruct (Rich.optionalString (raw !! "desired_outcome")) as [d|];
    [|discriminate].
  intros [= <-]. simpl. repeat split.
  intros ->. discriminate Hlen.
Qed.

(** C10: every successful next_best_step call of the richer variant
    echoes its arguments in structuredContent.inputs: the situation as
    sent, and constraints and desired_outcome as sent, or the empty
    string when absent; the raw constraints are echoed also when they
    are blank and the rendered text shows the default sentence. *)
Theorem C10_inputs_echo (arguments : option Rich.Arguments)
    (result : Rich.CallToolResult) :
  Rich.callTool "next_best_step" arguments = Rich.Ok result ->
  let raw := default ∅ arguments in
  exists s c d,
    raw !! "situation" = Some (Rich.VString s)
    /\ Rich.optionalString (raw !! "constraints") = Rich.Ok c
    /\ Rich.optionalString (raw !! "desired_outcome") = Rich.Ok d
    /\ Rich.inputs result = Some (Rich.mkInputs s (default [] c) (default [] d))
    /\ Rich.contentText result = Rich.detailsOf (Rich.mkArgs s c d)
    /\ (trim (default [] c) = [] ->
        In (lit "Constraints: " ++ Rich.defaultConstraints)
           (Rich.detailsLinesOf (Rich.mkArgs s c d))
        /\ option_map Rich.in_constraints (Rich.inputs result)
           = Some (default [] c)).
Proof.
  intros Hcall raw. rewrite callTool_next_best_step in Hcall. fold raw in Hcall.
  destruct (Rich.nextBestStepParser raw) as [args|e] eqn:Hparse;
    [|discriminate].
  injection Hcall as <-.
  apply nextBestStepParser_Ok in Hparse as (Hs & _ & Hc & Hd).
  destruct args as [s c d].
  cbn [Rich.situation Rich.constraints Rich.desired_outcome] in *.
  exists s, c, d.
  split; [exact Hs|]. split; [exact Hc|]. split; [exact Hd|].
  split; [reflexivity|]. split; [reflexivity|].
  intros Hblank. split; [|reflexivity].
  rewrite detailsLinesOf_shape. cbn [Rich.constraints].
  unfold Rich.resolveConstraints. rewrite Hblank. cbn [truthy].
  right. right. left. reflexivity.
Qed.

Lemma C10_inputs_echo_witness :
  let arguments : Rich.Arguments :=
    {[ "situation" := Rich.VString (lit "stalled on the launch post");
       "constraints" := Rich.VString (lit "   ") ]} in
  exists result,
    Rich.callTool "next_best_step" (Some arguments) = Rich.Ok result
    /\ Rich.inputs result
       = Some (Rich.mkInputs (lit "stalled on the launch post") (lit "   ") [])
    /\ In (lit "Constraints: " ++ Rich.defaultConstraints)
          (Rich.detailsLinesOf
             (Rich.mkArgs (lit "stalled on the launch post")
                (Some (lit "   ")) None)).
Proof.
  intros arguments.
  destruct (Rich.callTool "next_best_step" (Some arguments))
    as [result|e] eqn:Hcall; [|vm_compute in Hcall; discriminate Hcall].
  exists result. split; [reflexivity|].
  destruct (C10_inputs_echo (Some arguments) result Hcall)
    as (s & c & d & Hs & Hc & Hd & Hin & _ & Hblank).
  vm_compute in Hs. injection Hs as <-.
  vm_compute in Hc. injection Hc as <-.
  vm_compute in Hd. injection Hd as <-.
  split; [exact Hin|].
  apply Hblank. reflexivity.
Defined.

(** ** The listening port *)

Lemma port_unset :
  Simple.port None = Finite 10000 0 /\ Rich.port None = Finite 8000 0.
Proof. split; reflexivity. Qed.

(** A value that [Number] turns into NaN or an infinity gives the
    default. *)
Lemma port_not_finite (v : jsstring) :
  isFinite (stringToNumber v) = false ->
  Simple.port (Some v) = Finite 10000 0 /\ Rich.port (Some v) = Finite 8000 0.
Proof.
  intros H. unfold Simple.port, Rich.port, Simple.portEnv, Rich.portEnv.
  rewrite H. split; reflexivity.
Qed.

(** A value that [Number] turns into a finite number gives that number. *)
Lemma port_finite (v : jsstring) m e :
  stringToNumber v = Finite m e ->
  Simple.port (Some v) = Finite m e /\ Rich.port (Some v) = Finite m e.
Proof.
  intros H. unfold Simple.port, Rich.port, Simple.portEnv, Rich.portEnv.
  rewrite H. split; reflexivity.
Qed.

Example port_examples :
  Simple.port (Some (lit "8080")) = Finite 8080 0
  /\ Rich.port (Some (lit "3000")) = Finite 3000 0
  /\ Simple.port (Some (lit "http")) = Finite 10000 0
  /\ Rich.port (Some (lit "80a")) = Finite 8000 0.
Proof. repeat split. Qed.

(** C8 at [PORT=] (set, but empty): [Number("")] is 0, which is finite,
    so both variants take port 0 instead of their default. *)
Theorem C8_port_empty_string :
  stringToNumber (lit "") = Finite 0 0
  /\ Simple.port (Some (lit "")) = Finite 0 0
  /\ Rich.port (Some (lit "")) = Finite 0 0
  /\ Simple.port (Some (lit "")) <> Finite 10000 0
  /\ Rich.port (Some (lit "")) <> Finite 8000 0
  /\ Simple.port (Some (lit "   ")) = Finite 0 0.
Proof. repeat split; discriminate. Qed.

Lemma digit_range (c : N) : isDigit c = true <-> 48 <= c <= 57.
Proof.
  unfold isDigit. rewrite andb_true_iff, !N.leb_le. reflexivity.
Qed.

Lemma digitValue_decimal (c : N) :
  isDigit c = true -> digitValue 10 c = Some (Z.of_N c - 48)%Z.
Proof.
  intros H. unfold digitValue. rewrite H.
  apply digit_range in H.
  destruct (Z.ltb_spec (Z.of_N c - 48) 10); [reflexivity | lia].
Qed.

Lemma digitsValueFrom_digits (ds : jsstring) (acc : Z) :
  Forall (fun c => isDigit c = true) ds ->
  exists v, digitsValueFrom 10 acc ds = Some v /\ (acc <= v)%Z \/ (acc < 0)%Z.
Proof.
  intros H. revert acc. induction H as [|c ds Hc _ IH]; intros acc.
  - exists acc. left. split; [reflexivity | lia].
  - destruct (Z.lt_ge_cases acc 0) as [Hneg|Hpos].
    + exists 0%Z. right. exact Hneg.
    + simpl. rewrite (digitValue_decimal c Hc).
      apply digit_range in Hc.
      destruct (IH (acc * 10 + (Z.of_N c - 48))%Z) as (v & [[Hv Hle]|Hneg]).
      * exists v. left. split; [exact Hv | lia].
      * lia.
Qed.

Lemma trim_digits (ds : jsstring) :
  Forall (fun c => isDigit c = true) ds -> trim ds = ds.
Proof.
  intros H. unfold trim, trimStart, trimEnd.
  assert (Hstart : forall l, Forall (fun c => isDigit c = true) l ->
                             dropWhile isWhiteSpace l = l).
  { intros l Hl. destruct Hl as [|c l Hc _]; [reflexivity|].
    simpl. rewrite (digit_not_space c Hc). reflexivity. }
  rewrite (Hstart ds H), (Hstart (rev ds) (Forall_rev H)).
  apply rev_involutive.
Qed.

(** [Number] on a run of decimal digits is the number they spell. *)
Lemma stringToNumber_digits (ds : jsstring) :
  ds <> [] -> Forall (fun c => isDigit c = true) ds ->
  exists v, digitsValueFrom 10 0 ds = Some v
            /\ (0 <= v)%Z
            /\ stringToNumber ds = roundFinite v 0.
Proof.
  intros Hne Hds.
  destruct (digitsValueFrom_digits ds 0 Hds) as (v & [[Hv Hle]|Hneg]); [|lia].
  exists v. split; [exact Hv|]. split; [exact Hle|].
  unfold stringToNumber. rewrite (trim_digits ds Hds).
  destruct ds as [|c ds']; [congruence|].
  pose proof Hds as Hall.
  apply Forall_cons in Hds as [Hc Hds'].
  assert (Hnd : nonDecimalIntegerLiteral (c :: ds') = None).
  { unfold nonDecimalIntegerLiteral. destruct ds' as [|x ds'']; [reflexivity|].
    destruct (c =? 48)%N; [|reflexivity].
    apply Forall_cons in Hds' as [Hx _]. apply digit_range in Hx.
    repeat match goal with
           | |- context [N.eqb x ?b] => destruct (N.eqb_spec x b); [lia|]
           end.
    reflexivity. }
  rewrite Hnd. unfold strDecimalLiteral.
  pose proof Hc as Hrange. apply digit_range in Hrange.
  destruct (N.eqb_spec c 43); [lia|].
  destruct (N.eqb_spec c 45); [lia|].
  rewrite bool_decide_eq_false_2.
  2:{ intros Heq. inversion Heq. lia. }
  unfold unsignedDecimal.
  rewrite (takeWhile_all isDigit _ Hall), (dropWhile_all isDigit _ Hall).
  rewrite app_nil_r. cbn [exponentPart length].
  rewrite Hv. reflexivity.
Qed.

(** A run of decimal digits below the double overflow bound, so any
    port number a user can write, is taken as it is. *)
Lemma port_of_digits (ds : jsstring) (v : Z) :
  ds <> [] -> Forall (fun c => isDigit c = true) ds ->
  digitsValueFrom 10 0 ds = Some v -> (v < overflowBound)%Z ->
  Simple.port (Some ds) = Finite v 0 /\ Rich.port (Some ds) = Finite v 0.
Proof.
  intros Hne Hds Hv Hbound.
  destruct (stringToNumber_digits ds Hne Hds) as (v' & Hv' & Hpos & Hnum).
  assert (v' = v) by congruence. subst v'.
  apply port_finite. rewrite Hnum. unfold roundFinite.
  change (0 <=? 0)%Z with true. cbn match.
  rewrite Z.pow_0_r, Z.mul_1_r, Z.abs_eq by exact Hpos.
  destruct (Z.leb_spec overflowBound v); [lia | reflexivity].
Qed.

(** ** The widget asset and start-up of the richer variant *)

Lemma leStr_refl (a : jsstring) : leStr a a = true.
Proof.
  induction a as [|x a IH]; simpl; [reflexivity|].
  rewrite N.eqb_refl, IH. apply orb_true_r.
Qed.

Lemma leStr_total (a b : jsstring) : leStr a b = false -> leStr b a = true.
Proof.
  revert b. induction a as [|x a IH]; intros [|y b]; simpl;
    try discriminate; try reflexivity.
  intros H. apply orb_false_iff in H as [Hlt H].
  apply N.ltb_ge in Hlt.
  destruct (N.eqb_spec x y) as [->|Hne].
  - simpl in H. rewrite N.eqb_refl, (IH b H). apply orb_true_r.
  - replace (y <? x)%N with true; [reflexivity|].
    symmetry. apply N.ltb_lt. lia.
Qed.

Lemma leStr_trans (a b c : jsstring) :
  leStr a b = true -> leStr b c = true -> leStr a c = true.
Proof.
  revert b c. induction a as [|x a IH]; intros [|y b] [|z c]; simpl;
    try discriminate; try reflexivity.
  intros Hab Hbc.
  apply orb_true_iff in Hab as [Hab|Hab];
    apply orb_true_iff in Hbc as [Hbc|Hbc].
  - apply N.ltb_lt in Hab, Hbc. replace (x <? z)%N with true; [reflexivity|].
    symmetry. apply N.ltb_lt. lia.
  - apply andb_true_iff in Hbc as [Hyz _]. apply N.eqb_eq in Hyz. subst z.
    rewrite Hab. reflexivity.
  - apply andb_true_iff in Hab as [Hxy _]. apply N.eqb_eq in Hxy. subst y.
    rewrite Hbc. reflexivity.
  - apply andb_true_iff in Hab as [Hxy Hab].
    apply andb_true_iff in Hbc as [Hyz Hbc].
    apply N.eqb_eq in Hxy, Hyz. subst y z.
    rewrite N.eqb_refl, (IH b c Hab Hbc). apply orb_true_r.
Qed.

Lemma leStr_antisym (a b : jsstring) :
  leStr a b = true -> leStr b a = true -> a = b.
Proof.
  revert b. induction a as [|x a IH]; intros [|y b]; simpl;
    try discriminate; try reflexivity.
  intros Hab Hba.
  apply orb_true_iff in Hab as [Hab|Hab];
    apply orb_true_iff in Hba as [Hba|Hba].
  - apply N.ltb_lt in Hab, Hba. lia.
  - apply andb_true_iff in Hba as [Hyx _]. apply N.eqb_eq in Hyx.
    apply N.ltb_lt in Hab. lia.
  - apply andb_true_iff in Hab as [Hxy _]. apply N.eqb_eq in Hxy.
    apply N.ltb_lt in Hba. lia.
  - apply andb_true_iff in Hab as [Hxy Hab].
    apply andb_true_iff in Hba as [_ Hba].
    apply N.eqb_eq in Hxy. subst y. f_equal. apply IH; assumption.
Qed.

Lemma In_insertSorted (x y : jsstring) (l : list jsstring) :
  In x (insertSorted y l) <-> x = y \/ In x l.
Proof.
  induction l as [|z l IH]; simpl.
  - intuition congruence.
  - destruct (leStr y z); simpl; [intuition congruence|].
    rewrite IH. intuition congruence.
Qed.

Lemma In_sort (x : jsstring) (l : list jsstring) : In x (sort l) <-> In x l.
Proof.
  unfold sort. induction l as [|y l IH]; simpl; [reflexivity|].
  rewrite In_insertSorted, IH. intuition congruence.
Qed.

(** Inserting changes the last element only when the new one goes to
    the end. *)
Lemma last_insertSorted (x : jsstring) (l : list jsstring) :
  last (insertSorted x l)
  = if existsb (leStr x) l then last l else Some x.
Proof.
  induction l as [|y l IH]; simpl; [reflexivity|].
  destruct (leStr x y) eqn:E; simpl.
  - reflexivity.
  - rewrite !last_cons, IH.
    destruct (existsb (leStr x) l) eqn:Ex.
    + reflexivity.
    + destruct l; reflexivity.
Qed.

(** The last element of the sorted array is a greatest element. *)
Lemma last_sort_greatest (l : list jsstring) (f : jsstring) :
  last (sort l) = Some f ->
  In f l /\ forall g, In g l -> leStr g f = true.
Proof.
  revert f. induction l as [|x l IH]; intros f; [discriminate|].
  change (sort (x :: l)) with (insertSorted x (sort l)).
  rewrite last_insertSorted.
  destruct (existsb (leStr x) (sort l)) eqn:Ex.
  - intros Hlast. destruct (IH f Hlast) as (Hin & Hmax).
    split; [right; exact Hin|].
    intros g [<-|Hg]; [|apply Hmax, Hg].
    apply existsb_exists in Ex as (y & Hy & Hxy).
    apply (proj1 (In_sort y l)) in Hy.
    apply (leStr_trans x y f Hxy (Hmax y Hy)).
  - intros [= <-]. split; [left; reflexivity|].
    intros g [<-|Hg]; [apply leStr_refl|].
    apply leStr_total.
    destruct (leStr x g) eqn:E; [|reflexivity].
    assert (Hex : existsb (leStr x) (sort l) = true).
    { apply existsb_exists. exists g. split; [apply In_sort, Hg | exact E]. }
    congruence.
Qed.

Lemma last_sort_None (l : list jsstring) : last (sort l) = None -> l = [].
Proof.
  destruct l as [|x l]; [reflexivity|].
  change (sort (x :: l)) with (insertSorted x (sort l)).
  rewrite last_insertSorted.
  destruct (existsb (leStr x) (sort l)) eqn:Ex; [|discriminate].
  intros Hnone. apply last_None in Hnone.
  apply existsb_exists in Ex as (y & Hy & _). rewrite Hnone in Hy.
  destruct Hy.
Qed.

Lemma isCandidate_spec (file : jsstring) :
  Rich.isCandidate file = true <-> Rich.matchesPattern file.
Proof.
  unfold Rich.isCandidate, Rich.matchesPattern, endsWith.
  rewrite andb_true_iff, !startsWith_spec. split.
  - intros ((r & ->) & (q & Hq)).
    rewrite rev_app_distr in Hq.
    apply app_eq_app in Hq as (l & [(Hr & _) | (HS & HP)]).
    + exists (rev l). apply (f_equal (@rev N)) in Hr.
      rewrite rev_involutive, rev_app_distr, rev_involutive in Hr.
      rewrite Hr. reflexivity.
    + destruct l as [|c l].
      * rewrite app_nil_r in HS. apply (f_equal (@rev N)) in HS.
        rewrite !rev_involutive in HS. exists []. rewrite <- HS. reflexivity.
      * exfalso.
        assert (Hlast : last (c :: l) = Some 46).
        { assert (H : last (rev (lit ".html")) = Some 46) by reflexivity.
          rewrite HS, last_app in H.
          destruct (last (c :: l)) eqn:E; [exact H|].
          apply last_None in E. discriminate. }
        assert (Hin : In 46 (rev (lit "kitchen-sink-lite-"))).
        { rewrite HP. apply in_or_app. left.
          apply list_elem_of_In, last_Some_elem_of, Hlast. }
        vm_compute in Hin. intuition discriminate.
  - intros (mid & ->). split.
    + exists (mid ++ lit ".html"). reflexivity.
    + exists (rev mid ++ rev (lit "kitchen-sink-lite-")).
      rewrite !rev_app_distr, <- app_assoc. reflexivity.
Qed.

Lemma readFile_of_listed (entries : list (jsstring * jsstring))
    (name : jsstring) :
  In name (Rich.readdir entries) -> is_Some (Rich.readFile entries name).
Proof.
  unfold Rich.readdir. induction entries as [|[n c] entries IH]; simpl.
  - intros [].
  - intros [->|Hin].
    + rewrite bool_decide_eq_true_2 by reflexivity. eexists. reflexivity.
    + destruct (bool_decide (n = name)); [eexists; reflexivity|].
      apply IH, Hin.
Qed.

(** The file the code picks is the one the specification describes. *)
Lemma selectedFile_computed (entries : list (jsstring * jsstring))
    (file : jsstring) :
  Rich.selectedFile entries file
  <-> (if Rich.existsFile entries Rich.directName
       then Some Rich.directName
       else last (sort (List.filter Rich.isCandidate (Rich.readdir entries))))
      = Some file.
Proof.
  unfold Rich.selectedFile.
  destruct (Rich.existsFile entries Rich.directName) eqn:Hex.
  - split.
    + intros [(_ & ->) | (Hfalse & _)]; [reflexivity | discriminate].
    + intros [= <-]. left. auto.
  - set (L := List.filter Rich.isCandidate (Rich.readdir entries)).
    assert (HL : forall g, In g L
              <-> In g (Rich.readdir entries) /\ Rich.matchesPattern g).
    { intros g. subst L. rewrite filter_In, isCandidate_spec. reflexivity. }
    split.
    + intros [(Htrue & _) | (_ & Hin & Hpat & Hmax)]; [discriminate|].
      destruct (last (sort L)) as [f'|] eqn:Elast.
      * destruct (last_sort_greatest L f' Elast) as (Hin' & Hmax').
        f_equal. apply leStr_antisym.
        -- apply HL in Hin' as (Hd & Hp). apply Hmax; assumption.
        -- apply Hmax'. apply HL. auto.
      * apply last_sort_None in Elast.
        assert (Hfile : In file L) by (apply HL; auto).
        rewrite Elast in Hfile. destruct Hfile.
    + intros Hlast. right. split; [reflexivity|].
      destruct (last_sort_greatest L file Hlast) as (Hin & Hmax).
      apply HL in Hin as (Hd & Hp).
      split; [exact Hd|]. split; [exact Hp|].
      intros g Hg Hgp. apply Hmax. apply HL. auto.
Qed.

(** [readWidgetHtml] in terms of the file it selects. *)
Lemma readWidgetHtml_selected (fs : Rich.FileSystem)
    (entries : list (jsstring * jsstring)) :
  Rich.assets fs = Some entries ->
  (forall file, Rich.selectedFile entries file ->
     exists html,
       Rich.readFile entries file = Some html
       /\ Rich.readWidgetHtml fs
          = if truthy html then Rich.Ok html
            else Rich.Throw (Rich.widgetMissingMessage (Rich.ASSETS_DIR fs)))
  /\ ((forall file, ~ Rich.selectedFile entries file) ->
      Rich.readWidgetHtml fs
      = Rich.Throw (Rich.widgetMissingMessage (Rich.ASSETS_DIR fs))).
Proof.
  intros Hassets. unfold Rich.readWidgetHtml. rewrite Hassets. split.
  - intros file Hsel. pose proof Hsel as Hcomp.
    apply selectedFile_computed in Hcomp.
    destruct (Rich.existsFile entries Rich.directName) eqn:Hex.
    + injection Hcomp as <-. unfold Rich.existsFile in Hex.
      destruct (Rich.readFile entries Rich.directName) as [html|];
        [|discriminate].
      exists html. split; reflexivity.
    + rewrite Hcomp.
      destruct Hsel as [(Htrue & _) | (_ & Hin & (mid & Hpat) & _)];
        [congruence|].
      assert (Htruthy : truthy file = true) by (rewrite Hpat; reflexivity).
      rewrite Htruthy.
      destruct (readFile_of_listed entries file Hin) as (html & Hread).
      rewrite Hread. exists html. split; reflexivity.
  - intros Hnone.
    destruct (Rich.existsFile entries Rich.directName) eqn:Hex.
    + exfalso. apply (Hnone Rich.directName). left. auto.
    + destruct (last (sort (List.filter Rich.isCandidate
                              (Rich.readdir entries)))) as [f|] eqn:Elast;
        [|reflexivity].
      exfalso. apply (Hnone f). apply selectedFile_computed.
      rewrite Hex. exact Elast.
Qed.

(** C6 as stated fails when the selected file is empty: the named file
    is present, yet loading throws instead of returning its contents. *)
Lemma C6_empty_file_counterexample :
  let entries := [(Rich.directName, [])] in
  let fs := Rich.mkFS "/srv/app/assets" (Some entries) in
  Rich.existsFile entries Rich.directName = true
  /\ Rich.readFile entries Rich.directName = Some []
  /\ Rich.readWidgetHtml fs
     = Rich.Throw (Rich.widgetMissingMessage "/srv/app/assets")
  /\ Rich.readWidgetHtml fs <> Rich.Ok [].
Proof. repeat split; discriminate. Qed.

(** C6 (amended): the richer variant loads the widget HTML once, as the
    first start-up step, and binds the listener only if loading
    returned. Loading throws a descriptive error if the assets directory
    does not exist, if no widget HTML file is found, or if the file
    selected is empty; otherwise it returns the contents of
    "kitchen-sink-lite.html", or, if that file is absent, of the last in
    code-unit order of the files matching kitchen-sink-lite-*.html. *)
Theorem C6_widget_loading (fs : Rich.FileSystem)
    (envPORT : option jsstring) :
  let missing := Rich.Throw (Rich.widgetMissingMessage (Rich.ASSETS_DIR fs)) in
  (Rich.assets fs = None ->
     Rich.readWidgetHtml fs
     = Rich.Throw (Rich.assetsMissingMessage (Rich.ASSETS_DIR fs)))
  /\ (forall entries file html,
        Rich.assets fs = Some entries ->
        Rich.selectedFile entries file ->
        Rich.readFile entries file = Some html ->
        (html <> [] -> Rich.readWidgetHtml fs = Rich.Ok html)
        /\ (html = [] -> Rich.readWidgetHtml fs = missing))
  /\ (forall entries,
        Rich.assets fs = Some entries ->
        (forall file, ~ Rich.selectedFile entries file) ->
        Rich.readWidgetHtml fs = missing)
  /\ (forall entries file,
        Rich.assets fs = Some entries ->
        Rich.selectedFile entries file ->
        is_Some (Rich.readFile entries file))
  /\ (let trace := (Rich.startup fs envPORT).1 in
      head trace = Some Rich.EvReadWidgetHtml
      /\ length (List.filter Rich.isReadWidgetHtml trace) = 1%nat
      /\ (existsb Rich.isListen trace = true
          <-> exists html, Rich.readWidgetHtml fs = Rich.Ok html))
  /\ (forall port html,
        (Rich.startup fs envPORT).2 = Rich.Listening port html ->
        Rich.readWidgetHtml fs = Rich.Ok html
        /\ port = Rich.port envPORT
        /\ Rich.readResource html = html)
  /\ (forall e,
        Rich.readWidgetHtml fs = Rich.Throw e ->
        Rich.startup fs envPORT = ([Rich.EvReadWidgetHtml], Rich.Crashed e)).
Proof.
  intros missing.
  split.
  { intros Hnone. unfold Rich.readWidgetHtml. rewrite Hnone. reflexivity. }
  split.
  { intros entries file html Hassets Hsel Hread.
    destruct (readWidgetHtml_selected fs entries Hassets) as (Hfound & _).
    destruct (Hfound file Hsel) as (html' & Hread' & Hresult).
    assert (html' = html) by congruence. subst html'.
    rewrite Hresult. split.
    - intros Hne. apply truthy_true_iff in Hne. rewrite Hne. reflexivity.
    - intros ->. reflexivity. }
  split.
  { intros entries Hassets Hnone.
    destruct (readWidgetHtml_selected fs entries Hassets) as (_ & Hmissing).
    apply Hmissing, Hnone. }
  split.
  { intros entries file Hassets Hsel.
    destruct (readWidgetHtml_selected fs entries Hassets) as (Hfound & _).
    destruct (Hfound file Hsel) as (html & Hread & _).
    exists html. exact Hread. }
  unfold Rich.startup.
  destruct (Rich.readWidgetHtml fs) as [html|e]; simpl.
  - split.
    { split; [reflexivity|]. split; [reflexivity|].
      split; [intros _; exists html; reflexivity | reflexivity]. }
    split.
    { intros port html' [= <- <-]. repeat split. }
    intros e [=].
  - split.
    { split; [reflexivity|]. split; [reflexivity|].
      split; [discriminate | intros (html & [=])]. }
    split.
    { intros port html [=]. }
    intros e' [= <-]. reflexivity.
Qed.

Lemma C6_widget_loading_witness :
  let entries := [(lit "kitchen-sink-lite-2d2b.html", lit "<p>old</p>");
                  (lit "kitchen-sink-lite-9f1c.html", lit "<p>new</p>");
                  (lit "kitchen-sink-lite-9f1c.css", lit "p{}")] in
  let fs := Rich.mkFS "/srv/app/assets" (Some entries) in
  Rich.readWidgetHtml fs = Rich.Ok (lit "<p>new</p>")
  /\ Rich.readWidgetHtml (Rich.mkFS "/srv/app/assets" None)
     = Rich.Throw (Rich.assetsMissingMessage "/srv/app/assets").
Proof.
  intros entries fs. split.
  - destruct (C6_widget_loading fs None) as (_ & Hsel & _).
    apply (Hsel entries (lit "kitchen-sink-lite-9f1c.html")
             (lit "<p>new</p>")).
    + reflexivity.
    + apply selectedFile_computed. reflexivity.
    + reflexivity.
    + discriminate.
  - destruct (C6_widget_loading (Rich.mkFS "/srv/app/assets" None) None)
      as (Hdir & _).
    apply Hdir. reflexivity.
Defined.

(* ================================================================= *)
(** * Part VII: further properties of the code *)
(* ================================================================= *)

(** ** The classifier: white space and the overwhelm set *)

Lemma space_not_word (c : N) : isWhiteSpace c = true -> isWordChar c = false.
Proof.
  intros H. destruct (isWordChar c) eqn:E; [|reflexivity].
  unfold isWordChar in E.
  assert (Hrange : (65 <= c <= 90) \/ (97 <= c <= 122) \/ (48 <= c <= 57)
                   \/ c = 95).
  { unfold isUpper, isLower, isDigit in E.
    repeat (apply orb_true_iff in E as [E|E]).
    - apply andb_true_iff in E as [E1 E2]. apply N.leb_le in E1, E2. lia.
    - apply andb_true_iff in E as [E1 E2]. apply N.leb_le in E1, E2. lia.
    - apply andb_true_iff in E as [E1 E2]. apply N.leb_le in E1, E2. lia.
    - apply N.eqb_eq in E. lia. }
  destruct Hrange as [Hr|[Hr|[Hr|Hr]]].
  - rewrite (letter_not_space c (or_introl Hr)) in H. discriminate.
  - rewrite (letter_not_space c (or_intror Hr)) in H. discriminate.
  - assert (Hd : isDigit c = true) by (apply digit_range; exact Hr).
    rewrite (digit_not_space c Hd) in H. discriminate.
  - subst c. discriminate H.
Qed.

Lemma blank_last_not_word (ws : jsstring) :
  Forall (fun c => isWhiteSpace c = true) ws -> isWordOpt (last ws) = false.
Proof.
  intros H. destruct (last ws) as [c|] eqn:E; [|reflexivity].
  apply last_Some_elem_of in E. rewrite Forall_forall in H.
  apply space_not_word, H, E.
Qed.

Lemma blank_head_not_word (ws : jsstring) :
  Forall (fun c => isWhiteSpace c = true) ws -> isWordOpt (head ws) = false.
Proof.
  intros H. destruct H as [|c ws Hc _]; [reflexivity|].
  apply space_not_word, Hc.
Qed.

Lemma wholeWordDone_untrim (s : jsstring) :
  Simple.wholeWordDone (trim s) -> Simple.wholeWordDone s.
Proof.
  intros (pre & post & Heq & Hpre & Hpost).
  destruct (trim_decompose s) as (ws1 & ws2 & Hs & Hws1 & Hws2).
  exists (ws1 ++ pre), (post ++ ws2). split.
  - rewrite Hs at 1. rewrite Heq, <- !app_assoc. reflexivity.
  - split.
    + destruct pre as [|x pre].
      * rewrite app_nil_r. apply blank_last_not_word, Hws1.
      * rewrite last_app.
        destruct (last (x :: pre)) eqn:E; [exact Hpre|].
        apply last_None in E. discriminate.
    + destruct post as [|x post]; [|exact Hpost].
      apply blank_head_not_word, Hws2.
Qed.

Lemma containsOneOf_untrim (phrases : list jsstring) (s : jsstring) :
  Simple.containsOneOf phrases (trim s) -> Simple.containsOneOf phrases s.
Proof.
  intros (p & pre & post & Hin & Heq).
  destruct (trim_decompose s) as (ws1 & ws2 & Hs & _ & _).
  exists p, (ws1 ++ pre), (post ++ ws2). split; [exact Hin|].
  rewrite Hs at 1. rewrite Heq, <- !app_assoc. reflexivity.
Qed.

Lemma someIncluded_trim (phrases : list jsstring) (s : jsstring) :
  Forall (fun p => keepsEdges p = true) phrases ->
  Simple.someIncluded phrases (trim s) = Simple.someIncluded phrases s.
Proof.
  intros Hall. apply Bool.eq_iff_eq_true.
  rewrite !someIncluded_spec. split.
  - apply containsOneOf_untrim.
  - apply containsOneOf_trim, Hall.
Qed.

Lemma doneSignal_trim (s : jsstring) :
  Simple.doneSignal (trim s) = Simple.doneSignal s.
Proof.
  apply Bool.eq_iff_eq_true. rewrite !doneSignal_spec. split.
  - intros [H|H]; [left; apply wholeWordDone_untrim, H
                  | right; apply containsOneOf_untrim, H].
  - intros [H|H]; [left; apply wholeWordDone_trim, H|right].
    apply containsOneOf_trim; [apply donePhrases_keepEdges | exact H].
Qed.

(** The four keyword tests give the same answer before and after
    [trim]. *)
Lemma priority_tests_ignore_trim (t : jsstring) :
  Simple.firstMatching Simple.priorityOrder Simple.S1 (trim t)
  = Simple.firstMatching Simple.priorityOrder Simple.S1 t.
Proof.
  simpl.
  unfold Simple.clarityRequest, Simple.momentumRequest, Simple.stuckSignal.
  rewrite doneSignal_trim.
  rewrite !someIncluded_trim by (repeat constructor).
  reflexivity.
Qed.

(** X1. The [.trim()] of [inferState] never changes its answer: the
    state is that of the first matching keyword set on the lower-cased
    text as it stands, white space at the ends included. *)
Theorem inferState_ignores_outer_space (toLowerCase : jsstring -> jsstring)
    (userText : jsstring) :
  Simple.inferState toLowerCase userText
  = Simple.firstMatching Simple.priorityOrder Simple.S1
      (toLowerCase userText).
Proof.
  rewrite <- priority_tests_ignore_trim.
  unfold Simple.inferState, Simple.normalize. simpl. reflexivity.
Qed.

(** X2. What each answer of the classifier means for the lower-cased
    text: NeedsClarity (S4) exactly when it holds a clarity phrase and
    no completion signal; Momentum (S3) exactly when it holds a momentum
    phrase and neither of the former; Stuck (S1) exactly when it holds
    none of the three. The overwhelm keywords play no part. *)
Theorem inferState_characterised (toLowerCase : jsstring -> jsstring)
    (userText : jsstring) :
  let l := toLowerCase userText in
  let state := Simple.inferState toLowerCase userText in
  let completion :=
    Simple.wholeWordDone l \/ Simple.containsOneOf Simple.donePhrases l in
  let clarity := Simple.containsOneOf Simple.clarityPhrases l in
  let momentum := Simple.containsOneOf Simple.momentumPhrases l in
  (state = Simple.S2 <-> completion)
  /\ (state = Simple.S4 <-> ~ completion /\ clarity)
  /\ (state = Simple.S3 <-> ~ completion /\ ~ clarity /\ momentum)
  /\ (state = Simple.S1 <-> ~ completion /\ ~ clarity /\ ~ momentum).
Proof.
  intros l state completion clarity momentum.
  assert (Hstate : state
            = Simple.firstMatching Simple.priorityOrder Simple.S1 l).
  { rewrite <- priority_tests_ignore_trim. subst state l.
    unfold Simple.inferState, Simple.normalize. simpl. reflexivity. }
  rewrite Hstate. clear Hstate.
  assert (Hd : Simple.doneSignal l = true <-> completion)
    by apply doneSignal_spec.
  assert (Hc : Simple.clarityRequest l = true <-> clarity)
    by apply someIncluded_spec.
  assert (Hm : Simple.momentumRequest l = true <-> momentum)
    by apply someIncluded_spec.
  simpl.
  destruct (Simple.doneSignal l), (Simple.clarityRequest l),
    (Simple.momentumRequest l), (Simple.stuckSignal l);
    repeat split; intros; try discriminate; try tauto;
    intuition discriminate.
Qed.

Lemma inferState_characterised_witness :
  Simple.inferState toLowerAscii (lit "  What's the plan, next step? I'm stuck ")
  = Simple.S4.
Proof.
  destruct (inferState_characterised toLowerAscii
              (lit "  What's the plan, next step? I'm stuck "))
    as (_ & H4 & _).
  apply H4. split.
  - intros H. apply doneSignal_spec in H. discriminate H.
  - exists (lit "what's the plan"), (lit "  "), (lit ", next step? i'm stuck ").
    split; [|reflexivity]. simpl. auto 10.
Defined.

(** ** The tool handlers *)

Lemma inputParser_Ok (raw : Rich.Arguments) (s : jsstring) :
  SimpleServer.inputParser raw = Rich.Ok s
  <-> raw !! "user_input" = Some (Rich.VString s) /\ s <> [].
Proof.
  unfold SimpleServer.inputParser. split.
  - destruct (raw !! "user_input") as [[s'|]|]; try discriminate.
    destruct s' as [|c s']; simpl; [discriminate|].
    intros [= <-]. split; [reflexivity | discriminate].
  - intros (-> & Hne). destruct s as [|c s]; [congruence|]. reflexivity.
Qed.

Lemma inputParser_Throw (raw : Rich.Arguments) (e : Rich.CallError) :
  SimpleServer.inputParser raw = Rich.Throw e -> e = Rich.ZodError.
Proof.
  unfold SimpleServer.inputParser.
  destruct (raw !! "user_input") as [[s'|]|]; try (intros [= <-]; reflexivity).
  destruct (1 <=? length s')%nat; [discriminate | intros [= <-]; reflexivity].
Qed.

(** X3. The simple variant's tool call: any name but "next_best_step"
    is refused as an unknown tool before the arguments are looked at; a
    call of "next_best_step" succeeds exactly when [user_input] is a
    non-empty string, and otherwise fails with a validation error; on
    success the state is the classifier's, and the text is the
    structured message, an empty line, and the structured action. *)
Theorem simple_callTool_outcome (toLowerCase : jsstring -> jsstring)
    (name : string) (arguments : option Rich.Arguments) :
  let raw := default ∅ arguments in
  let outcome := SimpleServer.callTool toLowerCase name arguments in
  (name <> "next_best_step" -> outcome = Rich.Throw (Rich.UnknownTool name))
  /\ (name = "next_best_step" ->
      (forall result, outcome = Rich.Ok result ->
         exists s,
           raw !! "user_input" = Some (Rich.VString s) /\ s <> []
           /\ SimpleServer.structuredState result
              = Simple.inferState toLowerCase s
           /\ SimpleServer.structuredMessage result
              = Simple.message (Simple.stateData
                                  (SimpleServer.structuredState result))
           /\ SimpleServer.structuredAction result
              = Simple.ask (Simple.stateData
                              (SimpleServer.structuredState result))
           /\ SimpleServer.contentText result
              = SimpleServer.structuredMessage result
                +:+ SimpleServer.twoNewlines
                +:+ SimpleServer.structuredAction result)
      /\ (forall s, raw !! "user_input" = Some (Rich.VString s) -> s <> [] ->
            exists result, outcome = Rich.Ok result)
      /\ (forall e, outcome = Rich.Throw e -> e = Rich.ZodError)).
Proof.
  intros raw outcome. subst outcome. unfold SimpleServer.callTool.
  fold raw. split.
  - intros Hne. apply String.eqb_neq in Hne. rewrite Hne. reflexivity.
  - intros ->. rewrite String.eqb_refl.
    destruct (SimpleServer.inputParser raw) as [s|e] eqn:Hparse.
    + apply inputParser_Ok in Hparse as (Hs & Hne).
      split; [|split].
      * intros result [= <-]. exists s. simpl. repeat split; assumption.
      * intros s' _ _. eexists. reflexivity.
      * intros e [=].
    + pose proof (inputParser_Throw raw e Hparse) as ->.
      split; [|split].
      * intros result [=].
      * intros s Hs Hne.
        assert (Hok : SimpleServer.inputParser raw = Rich.Ok s)
          by (apply inputParser_Ok; auto).
        congruence.
      * intros e [= <-]. reflexivity.
Qed.

Lemma simple_callTool_outcome_witness :
  (exists result,
      SimpleServer.callTool toLowerAscii "next_best_step"
        (Some {[ "user_input" := Rich.VString (lit "now what") ]})
      = Rich.Ok result)
  /\ SimpleServer.callTool toLowerAscii "next-best-step"
       (Some {[ "user_input" := Rich.VString (lit "now what") ]})
     = Rich.Throw (Rich.UnknownTool "next-best-step").
Proof.
  split.
  - destruct (simple_callTool_outcome toLowerAscii "next_best_step"
                (Some {[ "user_input" := Rich.VString (lit "now what") ]}))
      as (_ & H).
    destruct (H eq_refl) as (_ & Hok & _).
    apply (Hok (lit "now what")); [reflexivity | discriminate].
  - apply (simple_callTool_outcome toLowerAscii "next-best-step").
    discriminate.
Defined.

(** X4. In both variants the tools that can be called are exactly the
    tools that are listed: a call is refused as an unknown tool if and
    only if its name is not the name of a descriptor returned by the
    list-tools handler. *)
Theorem listed_tools_are_the_callable_ones (toLowerCase : jsstring -> jsstring)
    (name : string) (arguments : option Rich.Arguments) :
  (SimpleServer.callTool toLowerCase name arguments
     = Rich.Throw (Rich.UnknownTool name)
   <-> ~ In name (map toolName SimpleServer.listTools))
  /\ (Rich.callTool name arguments = Rich.Throw (Rich.UnknownTool name)
      <-> ~ In name (map toolName Rich.listTools)).
Proof.
  split.
  - unfold SimpleServer.callTool. simpl.
    destruct (String.eqb_spec name "next_best_step") as [->|Hne].
    + split.
      * destruct (SimpleServer.inputParser _) as [s|e] eqn:Hparse;
          [discriminate|].
        apply inputParser_Throw in Hparse as ->. discriminate.
      * intros H. exfalso. apply H. left. reflexivity.
    + split; [|reflexivity].
      intros _ [Heq|[]]. congruence.
  - unfold Rich.callTool. simpl.
    destruct (String.eqb_spec name "next_best_step") as [->|Hne1].
    + split.
      * destruct (Rich.nextBestStepParser _) as [a|e] eqn:Hparse;
          [discriminate|].
        intros [= ->]. revert Hparse. unfold Rich.nextBestStepParser.
        destruct (_ !! "situation") as [[s|]|]; try discriminate.
        destruct (1 <=? length s)%nat; [|discriminate].
        destruct (_ !! "constraints") as [[c|]|]; simpl; try discriminate;
          destruct (_ !! "desired_outcome") as [[d|]|]; simpl; discriminate.
      * intros H. exfalso. apply H. left. reflexivity.
    + destruct (String.eqb_spec name "kitchen-sink-refresh") as [->|Hne2].
      * split.
        -- unfold Rich.refreshParser.
           destruct (_ !! "message") as [[s|]|]; discriminate.
        -- intros H. exfalso. apply H. right. left. reflexivity.
      * split; [|reflexivity].
        intros _ [Heq|[Heq|[]]]; congruence.
Qed.

(** X5. The richer variant's next_best_step succeeds exactly when
    [situation] is a non-empty string and each of [constraints] and
    [desired_outcome] is absent or a string; every other call of it
    fails with a validation error. The situation is not trimmed first: a
    blank but non-empty one is accepted. *)
Theorem rich_next_best_step_validation (arguments : option Rich.Arguments) :
  let raw := default ∅ arguments in
  let outcome := Rich.callTool "next_best_step" arguments in
  let stringOrAbsent (v : option Rich.JSValue) := v <> Some Rich.VOther in
  ((exists result, outcome = Rich.Ok result)
   <-> (exists s, raw !! "situation" = Some (Rich.VString s) /\ s <> [])
       /\ stringOrAbsent (raw !! "constraints")
       /\ stringOrAbsent (raw !! "desired_outcome"))
  /\ (forall e, outcome = Rich.Throw e -> e = Rich.ZodError).
Proof.
  intros raw outcome stringOrAbsent. subst outcome stringOrAbsent.
  rewrite callTool_next_best_step. fold raw.
  unfold Rich.nextBestStepParser.
  destruct (raw !! "situation") as [[s|]|].
  - destruct s as [|x s]; simpl.
    + split.
      * split; [intros (r & [=])|].
        intros ((s & [= <-] & Hne) & _). congruence.
      * intros e [= <-]. reflexivity.
    + destruct (raw !! "constraints") as [[c|]|];
        destruct (raw !! "desired_outcome") as [[d|]|]; simpl;
        (split;
         [split;
          [intros (r & Hr);
           first [discriminate Hr
                 | split; [exists (x :: s); split; [reflexivity|discriminate]|];
                   split; discriminate]
          |intros (_ & Hc & Hd);
           first [eexists; reflexivity | congruence]]
         |intros e He; first [discriminate He
                             | injection He as <-; reflexivity]]).
  - split.
    + split; [intros (r & [=])|]. intros ((s & [=] & _) & _).
    + intros e [= <-]. reflexivity.
  - split.
    + split; [intros (r & [=])|]. intros ((s & [=] & _) & _).
    + intros e [= <-]. reflexivity.
Qed.

(** X6. kitchen-sink-refresh echoes: for every string [message], the
    empty one included, the call succeeds, the text and the structured
    message are that string unchanged, and no [inputs] are attached; a
    missing or non-string [message] is a validation error. *)
Theorem rich_refresh_echoes (arguments : option Rich.Arguments) :
  let raw := default ∅ arguments in
  let outcome := Rich.callTool "kitchen-sink-refresh" arguments in
  (forall msg, raw !! "message" = Some (Rich.VString msg) ->
     exists result,
       outcome = Rich.Ok result
       /\ Rich.contentText result = msg
       /\ Rich.message (Rich.structuredContent result) = msg
       /\ Rich.fromTool (Rich.structuredContent result)
          = Some (lit "kitchen-sink-refresh")
       /\ Rich.inputs result = None)
  /\ ((forall msg, raw !! "message" <> Some (Rich.VString msg)) ->
      outcome = Rich.Throw Rich.ZodError).
Proof.
  intros raw outcome. subst outcome. unfold Rich.callTool.
  change (String.eqb "kitchen-sink-refresh" "next_best_step") with false.
  change (String.eqb "kitchen-sink-refresh" "kitchen-sink-refresh") with true.
  cbv iota. fold raw. unfold Rich.refreshParser. split.
  - intros msg ->. eexists. repeat split.
  - intros Hnone. destruct (raw !! "message") as [[s|]|]; try reflexivity.
    exfalso. apply (Hnone s). reflexivity.
Qed.

Lemma rich_refresh_echoes_witness :
  exists result,
    Rich.callTool "kitchen-sink-refresh"
      (Some {[ "message" := Rich.VString [] ]}) = Rich.Ok result
    /\ Rich.contentText result = [].
Proof.
  destruct (rich_refresh_echoes (Some {[ "message" := Rich.VString [] ]}))
    as (Hecho & _).
  destruct (Hecho [] eq_refl) as (result & Hok & Htext & _).
  exists result. split; assumption.
Defined.

Lemma splitAt_no_separator (sep : N) (l : jsstring) :
  ~ In sep l -> splitAt sep l = [l].
Proof.
  induction l as [|c l IH]; [reflexivity|].
  intros Hnot. cbn [splitAt].
  destruct (N.eqb_spec c sep) as [->|Hne]; [exfalso; apply Hnot; left; reflexivity|].
  rewrite IH; [reflexivity|]. intros Hin. apply Hnot. right. exact Hin.
Qed.

Lemma splitAt_app_separator (sep : N) (l rest : jsstring) :
  ~ In sep l -> splitAt sep (l ++ sep :: rest) = l :: splitAt sep rest.
Proof.
  induction l as [|c l IH]; intros Hnot; cbn [app splitAt].
  - rewrite N.eqb_refl. reflexivity.
  - destruct (N.eqb_spec c sep) as [->|Hne];
      [exfalso; apply Hnot; left; reflexivity|].
    rewrite IH; [reflexivity|]. intros Hin. apply Hnot. right. exact Hin.
Qed.

(** Splitting at the separator undoes [join] when no part holds it. *)
Lemma splitAt_join (sep : N) (parts : list jsstring) :
  parts <> [] -> Forall (fun l => ~ In sep l) parts ->
  splitAt sep (join [sep] parts) = parts.
Proof.
  intros Hne Hall. destruct parts as [|p parts]; [congruence|]. clear Hne.
  revert p Hall. induction parts as [|q parts IH]; intros p Hall.
  - apply Forall_cons in Hall as [Hp _]. apply splitAt_no_separator, Hp.
  - apply Forall_cons in Hall as [Hp Hall].
    rewrite join_cons_cons. cbn [app].
    rewrite (splitAt_app_separator sep p _ Hp), (IH q Hall). reflexivity.
Qed.

Lemma trim_subset (s : jsstring) (c : N) : In c (trim s) -> In c s.
Proof.
  intros Hin. destruct (trim_decompose s) as (ws1 & ws2 & Hs & _).
  rewrite Hs. apply in_or_app. right. apply in_or_app. left. exact Hin.
Qed.

Lemma timeboxOf_subset (situation : jsstring) (c : N) :
  In c (Rich.timeboxOf situation) ->
  In c situation \/ In c (lit "30 minutes").
Proof.
  destruct (timeboxOf_cases situation)
    as [(pre & (post & Heq & _) & _) | (_ & ->)]; [|auto].
  intros Hin. left. rewrite Heq.
  apply in_or_app. right. apply in_or_app. left. exact Hin.
Qed.

Lemma no_line_feed_in_literal (l : jsstring) :
  forallb (fun c => negb (N.eqb c 0x0A)) l = true -> ~ In 0x0A l.
Proof.
  intros H Hin. rewrite forallb_forall in H.
  specialize (H _ Hin). discriminate H.
Qed.

(** X7. When no argument holds a line feed, the lines of the rendered
    details (the text split at its line feeds) are exactly the entries
    the source keeps after [filter(Boolean)]: the two empty strings it
    puts between the sections never reach the output, so the text has
    four lines, or five when a desired outcome is given and not blank,
    and none of them is empty. *)
Theorem details_have_no_blank_lines (args : Rich.NextBestStepArgs) :
  ~ In 0x0A (Rich.situation args) ->
  (forall c, Rich.constraints args = Some c -> ~ In 0x0A c) ->
  (forall d, Rich.desired_outcome args = Some d -> ~ In 0x0A d) ->
  let lines := splitAt 0x0A (Rich.detailsOf args) in
  let desired := trim (default [] (Rich.desired_outcome args)) in
  lines = Rich.detailsLinesOf args
  /\ Forall (fun l => l <> []) lines
  /\ (desired = [] -> length lines = 4%nat)
  /\ (desired <> [] -> length lines = 5%nat).
Proof.
  intros Hs Hc Hd lines desired.
  assert (Htb : ~ In 0x0A (Rich.timeboxOf (Rich.situation args))).
  { intros Hin. apply timeboxOf_subset in Hin as [Hin|Hin]; [exact (Hs Hin)|].
    revert Hin. apply no_line_feed_in_literal. reflexivity. }
  assert (Hcons : ~ In 0x0A (Rich.resolveConstraints (Rich.constraints args))).
  { unfold Rich.resolveConstraints.
    destruct (truthy _).
    - intros Hin. apply trim_subset in Hin.
      destruct (Rich.constraints args) as [c|]; [exact (Hc c eq_refl Hin)|].
      destruct Hin.
    - apply no_line_feed_in_literal. reflexivity. }
  assert (Hdes : ~ In 0x0A (Rich.resolveDesired (Rich.desired_outcome args))).
  { unfold Rich.resolveDesired. intros Hin. apply trim_subset in Hin.
    destruct (Rich.desired_outcome args) as [d|]; [exact (Hd d eq_refl Hin)|].
    destruct Hin. }
  assert (Hlit : forall a b, ~ In 0x0A a -> ~ In 0x0A b -> ~ In 0x0A (a ++ b)).
  { intros a b Ha Hb Hin. apply in_app_or in Hin as [Hin|Hin]; auto. }
  assert (Hlines : lines = Rich.detailsLinesOf args).
  { subst lines. unfold Rich.detailsOf. apply splitAt_join.
    - rewrite detailsLinesOf_shape. discriminate.
    - rewrite detailsLinesOf_shape.
      apply Forall_app; split; [|apply Forall_app; split].
      + apply Forall_cons; split; [|apply Forall_cons; split; [|apply Forall_cons; split; [|constructor]]].
        * unfold Rich.headingOf. apply Hlit;
            [apply no_line_feed_in_literal; reflexivity|].
          apply Hlit; [exact Htb|].
          apply no_line_feed_in_literal; reflexivity.
        * unfold Rich.stepOf. apply Hlit;
            [apply no_line_feed_in_literal; reflexivity|].
          apply Hlit; [exact Htb|].
          apply no_line_feed_in_literal; reflexivity.
        * apply Hlit; [apply no_line_feed_in_literal; reflexivity|].
          exact Hcons.
      + destruct (truthy _); [|constructor].
        apply Forall_cons; split; [|constructor].
        apply Hlit; [apply no_line_feed_in_literal; reflexivity|].
        exact Hdes.
      + apply Forall_cons; split; [|constructor].
        apply no_line_feed_in_literal; reflexivity. }
  split; [exact Hlines|].
  rewrite Hlines, detailsLinesOf_shape.
  unfold Rich.resolveDesired. fold desired.
  destruct desired as [|c d] eqn:Hdesired; cbn [truthy app].
  - split; [|split; [reflexivity | congruence]].
    repeat constructor; discriminate.
  - split; [|split; [discriminate | reflexivity]].
    repeat constructor; discriminate.
Qed.

Lemma details_have_no_blank_lines_witness :
  length (splitAt 0x0A
            (Rich.detailsOf
               (Rich.mkArgs (lit "stalled for 2 hrs") None
                  (Some (lit " momentum ")))))
  = 5%nat.
Proof.
  apply (details_have_no_blank_lines
           (Rich.mkArgs (lit "stalled for 2 hrs") None
              (Some (lit " momentum ")))).
  - apply no_line_feed_in_literal. reflexivity.
  - discriminate.
  - intros d [= <-]. apply no_line_feed_in_literal. reflexivity.
  - discriminate.
Defined.

Lemma rich_next_best_step_validation_witness :
  exists result,
    Rich.callTool "next_best_step"
      (Some {[ "situation" := Rich.VString (lit " ") ]}) = Rich.Ok result.
Proof.
  apply (rich_next_best_step_validation
           (Some {[ "situation" := Rich.VString (lit " ") ]})).
  split; [|split].
  - exists (lit " "). split; [reflexivity | discriminate].
  - discriminate.
  - discriminate.
Defined.

(** ** The timebox and the optional arguments *)

Lemma default_timebox_is_duration : Rich.durationPhrase (lit "30 minutes").
Proof.
  exists (lit "30"), (lit " "), (lit "minutes").
  split; [reflexivity|]. split; [discriminate|].
  split; [repeat constructor|]. split; [repeat constructor|].
  exists (lit "minutes"). split; [left; reflexivity|].
  repeat constructor.
Qed.

(** X8. Whatever the situation says, the timebox named in the heading
    and in the step is a well-formed duration: one or more digits,
    optional white space, and a minute/hour unit word; in particular it
    is never empty. *)
Theorem timebox_is_always_a_duration (situation : jsstring) :
  Rich.durationPhrase (Rich.timeboxOf situation)
  /\ Rich.timeboxOf situation <> []
  /\ (exists d rest, Rich.timeboxOf situation = d :: rest
                     /\ isDigit d = true).
Proof.
  assert (H : Rich.durationPhrase (Rich.timeboxOf situation)).
  { destruct (timeboxOf_cases situation)
      as [(pre & (post & _ & Hphrase) & _) | (_ & ->)].
    - exact Hphrase.
    - apply default_timebox_is_duration. }
  split; [exact H|].
  destruct H as (ds & ws & u & Heq & Hne & Hds & _).
  destruct ds as [|d ds']; [congruence|].
  apply Forall_cons in Hds as [Hd _].
  rewrite Heq. split; [discriminate|].
  exists d, (ds' ++ ws ++ u). split; [reflexivity | exact Hd].
Qed.

Lemma dropWhile_app_blank (p : N -> bool) (ws x : jsstring) :
  Forall (fun c => p c = true) ws -> dropWhile p (ws ++ x) = dropWhile p x.
Proof.
  induction 1 as [|c ws Hc _ IH]; simpl; [reflexivity|].
  rewrite Hc. exact IH.
Qed.

Lemma dropWhile_nil_Forall (p : N -> bool) (t : jsstring) :
  dropWhile p t = [] -> Forall (fun c => p c = true) t.
Proof.
  induction t as [|c t IH]; simpl; [constructor|].
  destruct (p c) eqn:E; [|discriminate].
  intros H. constructor; [exact E | apply IH, H].
Qed.

Lemma dropWhile_app_keep (p : N -> bool) (t y : jsstring) c r :
  dropWhile p t = c :: r -> dropWhile p (t ++ y) = (c :: r) ++ y.
Proof.
  induction t as [|x t IH]; simpl; [discriminate|].
  destruct (p x); [exact IH|]. intros [= -> ->]. reflexivity.
Qed.

(** White space added around a string is cut off again by [trim]. *)
Lemma trim_pad (ws1 t ws2 : jsstring) :
  Forall (fun c => isWhiteSpace c = true) ws1 ->
  Forall (fun c => isWhiteSpace c = true) ws2 ->
  trim (ws1 ++ t ++ ws2) = trim t.
Proof.
  intros H1 H2. unfold trim, trimStart, trimEnd.
  rewrite (dropWhile_app_blank _ ws1 _ H1).
  destruct (dropWhile isWhiteSpace t) as [|c r] eqn:E.
  - apply dropWhile_nil_Forall in E.
    rewrite (dropWhile_all isWhiteSpace (t ++ ws2))
      by (apply Forall_app; split; assumption).
    reflexivity.
  - rewrite (dropWhile_app_keep _ t ws2 c r E).
    rewrite rev_app_distr.
    rewrite (dropWhile_app_blank _ (rev ws2) _ (Forall_rev H2)).
    reflexivity.
Qed.

(** X9. The text treats blank and absent optional arguments alike and
    ignores white space around them: padding [constraints] or
    [desired_outcome] with white space leaves the details unchanged, and
    an all-blank value gives the details of an absent one. *)
Theorem details_ignore_padding (situation c d w1 w2 w3 w4 : jsstring) :
  Forall (fun x => isWhiteSpace x = true) w1 ->
  Forall (fun x => isWhiteSpace x = true) w2 ->
  Forall (fun x => isWhiteSpace x = true) w3 ->
  Forall (fun x => isWhiteSpace x = true) w4 ->
  Rich.detailsOf (Rich.mkArgs situation (Some (w1 ++ c ++ w2))
                    (Some (w3 ++ d ++ w4)))
  = Rich.detailsOf (Rich.mkArgs situation (Some c) (Some d))
  /\ Rich.detailsOf (Rich.mkArgs situation (Some w1) (Some w3))
     = Rich.detailsOf (Rich.mkArgs situation None None).
Proof.
  intros H1 H2 H3 H4. unfold Rich.detailsOf.
  rewrite !detailsLinesOf_shape.
  unfold Rich.resolveConstraints, Rich.resolveDesired.
  cbn [Rich.situation Rich.constraints Rich.desired_outcome default
       from_option id].
  rewrite !trim_pad by assumption.
  rewrite (trim_blank w1 H1), (trim_blank w3 H3).
  split; reflexivity.
Qed.

Lemma details_ignore_padding_witness :
  Rich.detailsOf (Rich.mkArgs (lit "stalled") (Some (lit "  no calls "))
                    (Some (lit " one draft  ")))
  = Rich.detailsOf (Rich.mkArgs (lit "stalled") (Some (lit "no calls"))
                      (Some (lit "one draft"))).
Proof.
  apply (details_ignore_padding (lit "stalled") (lit "no calls")
           (lit "one draft") (lit "  ") (lit " ") (lit " ") (lit "  "));
    repeat constructor.
Defined.

(** ** The widget asset: what is returned, and the order of the listing *)

(** X10. What [readWidgetHtml] returns, when it returns: never an empty
    text, and always the contents of a file of the assets directory,
    namely "kitchen-sink-lite.html" when the directory has an entry of
    that name, and otherwise (only then) the last, in code-unit order,
    of the entries named by the versioned pattern. *)
Theorem readWidgetHtml_sound (fs : Rich.FileSystem) (html : jsstring) :
  Rich.readWidgetHtml fs = Rich.Ok html ->
  html <> []
  /\ exists entries file,
       Rich.assets fs = Some entries
       /\ Rich.selectedFile entries file
       /\ Rich.readFile entries file = Some html.
Proof.
  unfold Rich.readWidgetHtml.
  destruct (Rich.assets fs) as [entries|] eqn:Hassets; [|discriminate].
  set (selected :=
         if Rich.existsFile entries Rich.directName
         then Some Rich.directName
         else last (sort (List.filter Rich.isCandidate
                            (Rich.readdir entries)))).
  assert (Hsel : forall file, selected = Some file ->
                              Rich.selectedFile entries file).
  { intros file H. apply selectedFile_computed. exact H. }
  intros Hok.
  assert (Hcase : html <> [] /\ exists file,
             selected = Some file
             /\ Rich.readFile entries file = Some html).
  { subst selected.
    destruct (Rich.existsFile entries Rich.directName).
    - destruct (Rich.readFile entries Rich.directName) as [h|] eqn:Hr;
        [|discriminate].
      destruct h as [|c h]; [discriminate|]. injection Hok as <-.
      split; [discriminate|]. exists Rich.directName. auto.
    - destruct (last _) as [f|] eqn:Hl; [|discriminate].
      destruct (truthy f); [|discriminate].
      destruct (Rich.readFile entries f) as [h|] eqn:Hr; [|discriminate].
      destruct h as [|c h]; [discriminate|]. injection Hok as <-.
      split; [discriminate|]. exists f. auto. }
  destruct Hcase as (Hne & file & Hs & Hread).
  split; [exact Hne|]. exists entries, file.
  split; [reflexivity|]. split; [exact (Hsel file Hs) | exact Hread].
Qed.

Lemma readWidgetHtml_sound_witness :
  lit "<p>v2</p>" <> []
  /\ exists entries file,
       Some [(lit "kitchen-sink-lite-a1.html", lit "<p>v1</p>");
             (lit "kitchen-sink-lite-b7.html", lit "<p>v2</p>")]
         = Some entries
       /\ Rich.selectedFile entries file
       /\ Rich.readFile entries file = Some (lit "<p>v2</p>").
Proof.
  apply (readWidgetHtml_sound
           (Rich.mkFS "/srv/app/assets"
              (Some [(lit "kitchen-sink-lite-a1.html", lit "<p>v1</p>");
                     (lit "kitchen-sink-lite-b7.html", lit "<p>v2</p>")]))).
  reflexivity.
Defined.

Lemma readFile_In (entries : list (jsstring * jsstring)) (name c : jsstring) :
  NoDup (map fst entries) ->
  Rich.readFile entries name = Some c <-> In (name, c) entries.
Proof.
  induction entries as [|[n c'] entries IH]; simpl.
  - intros _. split; [discriminate | intros []].
  - intros Hnd. apply NoDup_cons in Hnd as [Hnotin Hnd].
    destruct (bool_decide (n = name)) eqn:E.
    + apply bool_decide_eq_true_1 in E. subst n. split.
      * intros [= ->]. left. reflexivity.
      * intros [[= ->]|Hin]; [reflexivity|].
        exfalso. apply Hnotin. apply list_elem_of_In.
        apply (in_map fst) in Hin. exact Hin.
    + apply bool_decide_eq_false_1 in E. rewrite (IH Hnd). split.
      * intros H. right. exact H.
      * intros [[= -> ->]|Hin]; [congruence | exact Hin].
Qed.

Lemma readFile_Permutation (entries entries' : list (jsstring * jsstring))
    (name : jsstring) :
  NoDup (map fst entries) -> Permutation entries entries' ->
  Rich.readFile entries name = Rich.readFile entries' name.
Proof.
  intros Hnd Hperm.
  assert (Hnd' : NoDup (map fst entries')).
  { apply (NoDup_Permutation_proper _ _ (Permutation_map fst Hperm)), Hnd. }
  destruct (Rich.readFile entries name) as [c|] eqn:E.
  - symmetry. apply (readFile_In entries' name c Hnd').
    apply (Permutation_in _ Hperm). apply (readFile_In entries name c Hnd), E.
  - destruct (Rich.readFile entries' name) as [c|] eqn:E'; [|reflexivity].
    apply (readFile_In entries' name c Hnd') in E'.
    apply (Permutation_in _ (Permutation_sym Hperm)) in E'.
    apply (readFile_In entries name c Hnd) in E'. congruence.
Qed.

Lemma selectedFile_Permutation (entries entries' : list (jsstring * jsstring))
    (file : jsstring) :
  NoDup (map fst entries) -> Permutation entries entries' ->
  Rich.selectedFile entries file -> Rich.selectedFile entries' file.
Proof.
  intros Hnd Hperm. unfold Rich.selectedFile, Rich.existsFile.
  rewrite (readFile_Permutation entries entries' Rich.directName Hnd Hperm).
  assert (Hdir : forall g, In g (Rich.readdir entries)
                           <-> In g (Rich.readdir entries')).
  { intros g. unfold Rich.readdir. split; apply Permutation_in;
      [|apply Permutation_sym]; apply Permutation_map, Hperm. }
  intros [H|(Hex & Hin & Hpat & Hmax)]; [left; exact H|].
  right. split; [exact Hex|]. split; [apply Hdir, Hin|].
  split; [exact Hpat|]. intros g Hg. apply Hmax, Hdir, Hg.
Qed.

(** X11. The order in which the directory is listed does not matter:
    two listings of the same files (names distinct, as in a directory)
    give the same result, be it the same text or the same error. *)
Theorem readWidgetHtml_order_independent (dir : string)
    (entries entries' : list (jsstring * jsstring)) :
  NoDup (map fst entries) -> Permutation entries entries' ->
  Rich.readWidgetHtml (Rich.mkFS dir (Some entries))
  = Rich.readWidgetHtml (Rich.mkFS dir (Some entries')).
Proof.
  intros Hnd Hperm.
  assert (Hnd' : NoDup (map fst entries')).
  { apply (NoDup_Permutation_proper _ _ (Permutation_map fst Hperm)), Hnd. }
  destruct (readWidgetHtml_selected (Rich.mkFS dir (Some entries)) entries
              eq_refl) as (Hfound & Hnone).
  destruct (readWidgetHtml_selected (Rich.mkFS dir (Some entries')) entries'
              eq_refl) as (Hfound' & Hnone').
  destruct (if Rich.existsFile entries Rich.directName
            then Some Rich.directName
            else last (sort (List.filter Rich.isCandidate
                               (Rich.readdir entries))))
    as [file|] eqn:Hsel.
  - apply selectedFile_computed in Hsel.
    destruct (Hfound file Hsel) as (html & Hread & ->).
    pose proof (selectedFile_Permutation entries entries' file Hnd Hperm Hsel)
      as Hsel'.
    destruct (Hfound' file Hsel') as (html' & Hread' & ->).
    rewrite (readFile_Permutation entries entries' file Hnd Hperm) in Hread.
    assert (html' = html) by congruence. subst html'. reflexivity.
  - assert (Hno : forall file, ~ Rich.selectedFile entries file).
    { intros file H. apply selectedFile_computed in H. congruence. }
    rewrite (Hnone Hno). symmetry. apply Hnone'.
    intros file H. apply (Hno file).
    apply (selectedFile_Permutation entries' entries file Hnd'
             (Permutation_sym Hperm) H).
Qed.

Lemma readWidgetHtml_order_independent_witness :
  Rich.readWidgetHtml
    (Rich.mkFS "/srv/app/assets"
       (Some [(lit "kitchen-sink-lite-a1.html", lit "<p>a</p>");
              (lit "kitchen-sink-lite-c3.html", lit "<p>c</p>")]))
  = Rich.readWidgetHtml
      (Rich.mkFS "/srv/app/assets"
         (Some [(lit "kitchen-sink-lite-c3.html", lit "<p>c</p>");
                (lit "kitchen-sink-lite-a1.html", lit "<p>a</p>")])).
Proof.
  apply readWidgetHtml_order_independent.
  - simpl. apply NoDup_cons. split.
    + intros H. apply list_elem_of_singleton in H. discriminate H.
    + apply NoDup_singleton.
  - apply perm_swap.
Defined.

(** ** The port *)

(** X12. Whatever PORT holds, the number handed to [listen] is finite,
    never NaN and never an infinity; and the two variants take the same
    port whenever PORT converts to a finite number, differing only in
    the default they fall back to. *)
Theorem port_is_always_finite (envPORT : option jsstring) :
  isFinite (Simple.port envPORT) = true
  /\ isFinite (Rich.port envPORT) = true
  /\ (Simple.port envPORT = Rich.port envPORT
      \/ (Simple.port envPORT = Finite 10000 0
          /\ Rich.port envPORT = Finite 8000 0)).
Proof.
  unfold Simple.port, Rich.port, Simple.portEnv, Rich.portEnv.
  destruct envPORT as [v|].
  - destruct (stringToNumber v) as [| neg | m e]; simpl; auto.
  - simpl. auto.
Qed.

(** X14. White space around the value of PORT is ignored by both
    variants. *)
Theorem port_ignores_padding (w1 v w2 : jsstring) :
  Forall (fun c => isWhiteSpace c = true) w1 ->
  Forall (fun c => isWhiteSpace c = true) w2 ->
  Simple.port (Some (w1 ++ v ++ w2)) = Simple.port (Some v)
  /\ Rich.port (Some (w1 ++ v ++ w2)) = Rich.port (Some v).
Proof.
  intros H1 H2.
  assert (Hnum : stringToNumber (w1 ++ v ++ w2) = stringToNumber v).
  { unfold stringToNumber. rewrite (trim_pad w1 v w2 H1 H2). reflexivity. }
  unfold Simple.port, Rich.port, Simple.portEnv, Rich.portEnv.
  rewrite Hnum. split; reflexivity.
Qed.

Lemma port_ignores_padding_witness :
  Simple.port (Some (lit " 8080" ++ [0x0A])) = Simple.port (Some (lit "8080")).
Proof.
  apply (port_ignores_padding (lit " ") (lit "8080") [0x0A]);
    repeat constructor.
Defined.

(** ** The request listeners *)

(** X15. The richer variant's listener is the simple one without the
    health and root routes: on every request other than GET /healthz
    and GET / the two give the same answer, and GET / is answered 200
    by the simple variant and 404 by the richer one. *)
Theorem listeners_differ_only_on_health_and_root (req : IncomingMessage)
    (res : ServerResponse) :
  (~ (method req = "GET"
      /\ exists url, reqUrl req = Some url
                     /\ (pathname url = "/healthz" \/ pathname url = "/")) ->
   Rich.requestListener req res = Simple.requestListener req res)
  /\ (forall url, method req = "GET" -> reqUrl req = Some url ->
        pathname url = "/" ->
        Rich.requestListener req res
          = Responded (writeHeadEnd 404 "Not Found" res)
        /\ exists r, Simple.requestListener req res = Responded r
                     /\ statusCode r = Some 200
                     /\ resBody r = Some (stringify Simple.rootInfo)).
Proof.
  split.
  - intros Hnot. unfold Rich.requestListener, Simple.requestListener.
    destruct (reqUrl req) as [url|]; [|reflexivity].
    destruct (String.eqb (method req) "OPTIONS"
              && (String.eqb (pathname url) Simple.ssePath
                  || String.eqb (pathname url) Simple.postPath)) eqn:Hopt.
    { change Rich.ssePath with Simple.ssePath.
      change Rich.postPath with Simple.postPath.
      rewrite Hopt. reflexivity. }
    change Rich.ssePath with Simple.ssePath.
    change Rich.postPath with Simple.postPath.
    rewrite Hopt.
    destruct (String.eqb_spec (method req) "GET") as [Hget|Hget];
      [|reflexivity].
    destruct (String.eqb_spec (pathname url) "/healthz") as [Hh|Hh].
    { exfalso. apply Hnot. split; [exact Hget|]. exists url. auto. }
    destruct (String.eqb_spec (pathname url) "/") as [Hr|Hr].
    { exfalso. apply Hnot. split; [exact Hget|]. exists url. auto. }
    reflexivity.
  - intros url Hm Hu Hp.
    unfold Rich.requestListener, Simple.requestListener.
    rewrite Hu, Hm, Hp. split; [reflexivity|].
    eexists. split; [reflexivity|]. split; reflexivity.
Qed.

Lemma listeners_differ_only_on_health_and_root_witness :
  let req := mkRequest "DELETE" (Some (mkURL "/mcp" [])) in
  Rich.requestListener req freshResponse
  = Simple.requestListener req freshResponse.
Proof.
  intros req.
  apply (listeners_differ_only_on_health_and_root req freshResponse).
  intros (Hget & _). discriminate Hget.
Defined.

(** X16. Where the listeners hand a request on, in both variants: to
    the SSE handler exactly for GET on /mcp, to the message handler
    exactly for POST on /mcp/messages, whatever the query string. A
    request without a URL is answered 400 "Missing URL"; a request whose
    URL parsed and that is not handed on is answered on the spot, with a
    started response whose status is 200, 204 or 404. (A target that
    [new URL] rejects is outside the statement.) *)
Theorem listener_dispatch (v : Variant) (req : IncomingMessage)
    (res : ServerResponse) :
  (forall r, listenerOf v req res = CallHandleSseRequest r
     <-> r = res /\ method req = "GET"
         /\ exists url, reqUrl req = Some url /\ pathname url = "/mcp")
  /\ (forall rq r u, listenerOf v req res = CallHandlePostMessage rq r u
        <-> rq = req /\ r = res /\ reqUrl req = Some u
            /\ method req = "POST" /\ pathname u = "/mcp/messages")
  /\ (reqUrl req = None ->
      listenerOf v req res = Responded (writeHeadEnd 400 "Missing URL" res))
  /\ (forall url, reqUrl req = Some url ->
        ~ (method req = "GET" /\ pathname url = "/mcp") ->
        ~ (method req = "POST" /\ pathname url = "/mcp/messages") ->
        exists r, listenerOf v req res = Responded r
                  /\ headersSent r = true
                  /\ (statusCode r = Some 200 \/ statusCode r = Some 204
                      \/ statusCode r = Some 404)).
Proof.
  assert (Hcases :
    forall listener,
      listener = Simple.requestListener \/ listener = Rich.requestListener ->
      (forall r, listener req res = CallHandleSseRequest r
         <-> r = res /\ method req = "GET"
             /\ exists url, reqUrl req = Some url /\ pathname url = "/mcp")
      /\ (forall rq r u, listener req res = CallHandlePostMessage rq r u
            <-> rq = req /\ r = res /\ reqUrl req = Some u
                /\ method req = "POST" /\ pathname u = "/mcp/messages")
      /\ (reqUrl req = None ->
          listener req res = Responded (writeHeadEnd 400 "Missing URL" res))
      /\ (forall url, reqUrl req = Some url ->
            ~ (method req = "GET" /\ pathname url = "/mcp") ->
            ~ (method req = "POST" /\ pathname url = "/mcp/messages") ->
            exists r, listener req res = Responded r
                      /\ headersSent r = true
                      /\ (statusCode r = Some 200 \/ statusCode r = Some 204
                          \/ statusCode r = Some 404))).
  { intros listener [-> | ->];
      unfold Simple.requestListener, Rich.requestListener,
        Simple.ssePath, Simple.postPath, Rich.ssePath, Rich.postPath;
      (destruct (reqUrl req) as [url|];
       [|split; [|split; [|split]];
         [intros r; split; [discriminate | intros (_ & _ & u & [=] & _)]
         |intros rq r u; split; [discriminate | intros (_ & _ & [=] & _)]
         |intros _; reflexivity
         |intros url [=]]]);
      destruct (String.eqb_spec (method req) "OPTIONS") as [Ho|Ho];
      destruct (String.eqb_spec (method req) "GET") as [Hg|Hg];
      destruct (String.eqb_spec (method req) "POST") as [Hp|Hp];
      try congruence;
      destruct (String.eqb_spec (pathname url) "/mcp") as [Hs|Hs];
      destruct (String.eqb_spec (pathname url) "/mcp/messages") as [Hm|Hm];
      destruct (String.eqb_spec (pathname url) "/healthz") as [Hh|Hh];
      destruct (String.eqb_spec (pathname url) "/") as [Hr|Hr];
      try congruence; cbn [andb orb];
      (split; [|split; [|split]];
       [intros r; split;
        [intros H; inversion H; subst; eauto 6
        |intros (-> & Hm' & u & [= <-] & Hu); congruence || reflexivity]
       |intros rq r u; split;
        [intros H; inversion H; subst; auto
        |intros (-> & -> & [= <-] & Hm' & Hu); congruence || reflexivity]
       |intros [=]
       |intros u [= <-] Hn1 Hn2;
        first [ exfalso; apply Hn1; split; assumption
              | exfalso; apply Hn2; split; assumption
              | eexists; split; [reflexivity|]; simpl; auto ]]). }
  destruct v; apply Hcases; auto.
Qed.

Lemma listener_dispatch_witness :
  let url := mkURL "/mcp/messages" [("sessionId", "s-1"); ("x", "y")] in
  let req := mkRequest "POST" (Some url) in
  Rich.requestListener req freshResponse
  = CallHandlePostMessage req freshResponse url.
Proof.
  intros url req.
  apply (listener_dispatch RichVariant req freshResponse).
  repeat split.
Defined.

(** ** Using a session *)

(** X17. A session can be used as soon as [handleSseRequest] has
    stored it: a POST carrying the new transport's identifier is handed
    to that transport, whose answer stands (or becomes a 500 if it threw
    before starting the response), whatever the directory held under
    that identifier before. *)
Theorem post_after_setup_reaches_the_transport (v : Variant)
    (t : SSEServerTransport) (res0 : ServerResponse) (ss : Sessions)
    (req : IncomingMessage) (res : ServerResponse) (url : URL) :
  sessionId t <> "" ->
  searchParamsGet (searchParams url) "sessionId" = Some (sessionId t) ->
  let ss' := (setupOf v t res0 ss).1.1 in
  (postOf v req res url ss').2
  = [SessionsGet (sessionId t); TransportHandlePost (sessionId t)]
  /\ match transportHandlePostMessage t req (corsPrepared res) with
     | Returned r => (postOf v req res url ss').1 = r
     | Threw r =>
         (postOf v req res url ss').1
         = if headersSent r then r
           else writeHeadEnd 500 "Failed to process message" r
     end.
Proof.
  intros Hne Hparam ss'. subst ss'. rewrite setupOf_sessions.
  set (record := mkSession _ t).
  apply (postOf_known_session v req res url _ (sessionId t) record Hparam Hne).
  apply lookup_insert_eq.
Qed.

Lemma post_after_setup_reaches_the_transport_witness :
  let t := mkTransport "s-7" (fun _ r => Returned (writeHeadEnd 202 "Accepted" r)) in
  let url := mkURL "/mcp/messages" [("sessionId", "s-7")] in
  (Simple.handlePostMessage (mkRequest "POST" (Some url)) freshResponse url
     (Simple.handleSseRequest_setup t freshResponse ∅).1.1).1
  = writeHeadEnd 202 "Accepted" (corsPrepared freshResponse).
Proof.
  intros t url.
  destruct (post_after_setup_reaches_the_transport SimpleVariant t
              freshResponse ∅ (mkRequest "POST" (Some url)) freshResponse url)
    as (_ & H); [discriminate | reflexivity |].
  exact H.
Defined.

(** ** The widget resource *)

(** X21. The read-resource handler does not look at the requested URI:
    whatever is asked for, it returns one item whose text is the widget
    HTML loaded at start-up, under the URI and MIME type that the listed
    resource and resource template advertise and that every listed
    tool's output-template metadata points to. *)
Theorem widget_resource_is_served_for_any_uri (widgetHtml : jsstring)
    (requestUri : string) :
  exists c,
    Rich.readResourceRequest widgetHtml requestUri = [c]
    /\ Rich.contentsText c = widgetHtml
    /\ Forall (fun r => resourceUri r = Rich.contentsUri c
                        /\ resourceMimeType r = Rich.contentsMimeType c)
         Rich.listResources
    /\ Forall (fun t => uriTemplate t = Rich.contentsUri c
                        /\ templateMimeType t = Rich.contentsMimeType c)
         Rich.listResourceTemplates
    /\ Forall (fun t => In ("openai/outputTemplate",
                            MetaString (Rich.contentsUri c))
                          (toolMetaOf t))
         Rich.listTools.
Proof.
  eexists. split; [reflexivity|]. split; [reflexivity|].
  split; [repeat constructor|]. split; [repeat constructor|].
  repeat constructor.
Qed.

(** ** Reading the timebox back from the response *)

Lemma nonletter_no_match (p c : N) :
  isLower p = true -> ~ ((65 <= c <= 90) \/ (97 <= c <= 122)) ->
  charMatches true p c = false.
Proof.
  intros Hp Hc. destruct (charMatches true p c) eqn:E; [|reflexivity].
  exfalso. apply Hc. exact (letter_range p c Hp E).
Qed.

(** A pattern that matches across the end of [u] into a non-letter
    cannot exist; one that matches within [u] matches whatever
    follows. *)
Lemma prefixMatches_within (u w x : jsstring) (c : N) (tail : jsstring) :
  Forall (fun p => isLower p = true) w ->
  ~ ((65 <= c <= 90) \/ (97 <= c <= 122)) ->
  prefixMatches true (u ++ c :: tail) w = true ->
  prefixMatches true (u ++ x) w = true.
Proof.
  intros Hw Hc. revert u. induction Hw as [|p w Hp _ IH]; intros u;
    [reflexivity|].
  destruct u as [|y u]; cbn [app prefixMatches].
  - rewrite (nonletter_no_match p c Hp Hc). discriminate.
  - intros H. apply andb_true_iff in H as [Hy Hrest].
    rewrite Hy. cbn [andb]. apply IH, Hrest.
Qed.

Lemma equalIgnoringCase_length (u w : jsstring) :
  Rich.equalIgnoringCase u w -> length u = length w.
Proof. apply Forall2_length. Qed.

(** What one unit alternative consumed is consumed again when a
    non-letter follows it, and no alternative that failed before
    succeeds then. *)
Lemma unit_alternative_rescan (s b rest : jsstring) :
  prefixMatches true s b = true ->
  Rich.afterOptionalS (drop (length b) s) = rest ->
  exists u,
    s = u ++ rest
    /\ forall c tail, ~ ((65 <= c <= 90) \/ (97 <= c <= 122)) ->
         prefixMatches true (u ++ c :: tail) b = true
         /\ Rich.afterOptionalS (drop (length b) (u ++ c :: tail)) = c :: tail
         /\ forall b', Forall (fun p => isLower p = true) b' ->
              prefixMatches true s b' = false ->
              prefixMatches true (u ++ c :: tail) b' = false.
Proof.
  intros Hpm Hopt.
  destruct (prefixMatches_split s b Hpm) as (u0 & r & Hs & Hdrop & Heq).
  pose proof (equalIgnoringCase_length u0 b Heq) as Hlen.
  rewrite Hdrop in Hopt.
  assert (Hb0 : forall y, prefixMatches true (u0 ++ y) b = true).
  { intros y. apply (prefixMatches_of_equal u0 b [] y).
    rewrite app_nil_r. exact Heq. }
  assert (Hdrop0 : forall y, drop (length b) (u0 ++ y) = y).
  { intros y. rewrite <- Hlen. apply drop_app_length. }
  assert (Hfail : forall u, s = u ++ rest ->
            forall c tail, ~ ((65 <= c <= 90) \/ (97 <= c <= 122)) ->
            forall b', Forall (fun p => isLower p = true) b' ->
              prefixMatches true s b' = false ->
              prefixMatches true (u ++ c :: tail) b' = false).
  { intros u Hu c tail Hc b' Hb' Hno.
    destruct (prefixMatches true (u ++ c :: tail) b') eqn:E; [|reflexivity].
    rewrite Hu in Hno.
    rewrite (prefixMatches_within u b' rest c tail Hb' Hc E) in Hno.
    discriminate. }
  unfold Rich.afterOptionalS in Hopt.
  destruct r as [|x r].
  - subst rest. exists u0. split; [rewrite Hs; reflexivity|].
    intros c tail Hc. split; [apply Hb0|]. split.
    + rewrite Hdrop0. unfold Rich.afterOptionalS.
      rewrite (nonletter_no_match 0x73 c eq_refl Hc). reflexivity.
    + apply Hfail; [rewrite Hs; reflexivity | exact Hc].
  - destruct (charMatches true 0x73 x) eqn:Hx.
    + subst rest. exists (u0 ++ [x]).
      split; [rewrite Hs, <- app_assoc; reflexivity|].
      intros c tail Hc. rewrite <- app_assoc.
      split; [apply Hb0|]. split.
      * rewrite Hdrop0. cbn [app Rich.afterOptionalS].
        rewrite Hx. reflexivity.
      * rewrite app_assoc.
        apply Hfail; [rewrite Hs, <- app_assoc; reflexivity | exact Hc].
    + subst rest. exists u0. split; [exact Hs|].
      intros c tail Hc. split; [apply Hb0|]. split.
      * rewrite Hdrop0. unfold Rich.afterOptionalS.
        rewrite (nonletter_no_match 0x73 c eq_refl Hc). reflexivity.
      * apply Hfail; [exact Hs | exact Hc].
Qed.

Lemma unitRest_rescan (s rest : jsstring) :
  Rich.unitRest s = Some rest ->
  exists u,
    s = u ++ rest
    /\ forall c tail, ~ ((65 <= c <= 90) \/ (97 <= c <= 122)) ->
         Rich.unitRest (u ++ c :: tail) = Some (c :: tail).
Proof.
  unfold Rich.unitRest.
  assert (L1 : Forall (fun p => isLower p = true) (lit "minute"))
    by (repeat constructor).
  assert (L2 : Forall (fun p => isLower p = true) (lit "min"))
    by (repeat constructor).
  assert (L3 : Forall (fun p => isLower p = true) (lit "hour"))
    by (repeat constructor).
  destruct (prefixMatches true s (lit "minute")) eqn:E1.
  { intros [= H].
    destruct (unit_alternative_rescan s (lit "minute") rest E1 H)
      as (u & Hs & Hre).
    exists u. split; [exact Hs|]. intros c tail Hc.
    destruct (Hre c tail Hc) as (Hm & Hopt & _).
    rewrite Hm. f_equal. exact Hopt. }
  destruct (prefixMatches true s (lit "min")) eqn:E2.
  { intros [= H].
    destruct (unit_alternative_rescan s (lit "min") rest E2 H)
      as (u & Hs & Hre).
    exists u. split; [exact Hs|]. intros c tail Hc.
    destruct (Hre c tail Hc) as (Hm & Hopt & Hfail).
    rewrite (Hfail _ L1 E1), Hm. f_equal. exact Hopt. }
  destruct (prefixMatches true s (lit "hour")) eqn:E3.
  { intros [= H].
    destruct (unit_alternative_rescan s (lit "hour") rest E3 H)
      as (u & Hs & Hre).
    exists u. split; [exact Hs|]. intros c tail Hc.
    destruct (Hre c tail Hc) as (Hm & Hopt & Hfail).
    rewrite (Hfail _ L1 E1), (Hfail _ L2 E2), Hm. f_equal. exact Hopt. }
  destruct (prefixMatches true s (lit "hr")) eqn:E4; [|discriminate].
  intros [= H].
  destruct (unit_alternative_rescan s (lit "hr") rest E4 H)
    as (u & Hs & Hre).
  exists u. split; [exact Hs|]. intros c tail Hc.
  destruct (Hre c tail Hc) as (Hm & Hopt & Hfail).
  rewrite (Hfail _ L1 E1), (Hfail _ L2 E2), (Hfail _ L3 E3), Hm.
  f_equal. exact Hopt.
Qed.

(** A match is found again, whole, when a character that is neither a
    digit, nor white space, nor a letter follows it. *)
Lemma matchAt_rescan prev prev' s m (c : N) (tail : jsstring) :
  matchAt true Rich.timeboxRegex prev s = Some m ->
  ~ ((65 <= c <= 90) \/ (97 <= c <= 122)) ->
  isDigit c = false -> isWhiteSpace c = false ->
  matchAt true Rich.timeboxRegex prev' (m ++ c :: tail) = Some m.
Proof.
  unfold matchAt at 1. rewrite rmatch_timeboxRegex.
  destruct s as [|x s']; [discriminate|].
  destruct (isDigit x) eqn:Hx; [|discriminate].
  destruct (Rich.unitRest _) as [rest|] eqn:Hu; [|discriminate].
  intros Hm Hc Hcd Hcw.
  pose proof Hu as Hsound. apply unitRest_sound in Hsound as (u1 & Hs1 & Hunit).
  apply unitRest_rescan in Hu as (u & Hs2 & Hre).
  assert (u1 = u) by (apply (app_inv_tail rest); congruence). subst u1.
  pose proof (dropWhile_takeWhile isDigit s') as Hd.
  pose proof (dropWhile_takeWhile isWhiteSpace (dropWhile isDigit s')) as Hw.
  rewrite Hs2 in Hw.
  pose proof (takeWhile_Forall isDigit s') as Hds.
  pose proof (takeWhile_Forall isWhiteSpace (dropWhile isDigit s')) as Hws.
  set (ds := takeWhile isDigit s') in *.
  set (ws := takeWhile isWhiteSpace (dropWhile isDigit s')) in *.
  assert (Hs : x :: s' = ((x :: ds) ++ ws ++ u) ++ rest).
  { rewrite <- Hd, <- Hw. simpl. rewrite <- !app_assoc. reflexivity. }
  assert (Htake : take (length (x :: s') - length rest) (x :: s')
                  = (x :: ds) ++ ws ++ u).
  { rewrite Hs. apply take_app_minus. }
  rewrite Htake in Hm. injection Hm as <-.
  destruct (unitWord_starts_with_letter u Hunit) as (y & u' & -> & Hy).
  unfold matchAt. rewrite rmatch_timeboxRegex.
  change ((x :: ds ++ ws ++ y :: u') ++ c :: tail)
    with (x :: (ds ++ ws ++ y :: u') ++ c :: tail).
  cbv iota. rewrite Hx.
  assert (Hdigits :
    dropWhile isDigit ((ds ++ ws ++ y :: u') ++ c :: tail)
    = ws ++ y :: u' ++ c :: tail).
  { rewrite <- !app_assoc. simpl.
    destruct ws as [|z ws'].
    - simpl. apply dropWhile_app_stop; [exact Hds|].
      apply letter_not_digit, Hy.
    - apply Forall_cons in Hws as [Hz _]. simpl.
      apply dropWhile_app_stop; [exact Hds|].
      destruct (isDigit z) eqn:Ez; [|reflexivity].
      rewrite (digit_not_space z Ez) in Hz. discriminate. }
  rewrite Hdigits.
  rewrite (dropWhile_app_stop isWhiteSpace ws y (u' ++ c :: tail) Hws
             (letter_not_space y Hy)).
  change (y :: u' ++ c :: tail) with ((y :: u') ++ c :: tail).
  rewrite (Hre c tail Hc).
  f_equal.
  change (x :: (ds ++ ws ++ y :: u') ++ c :: tail)
    with (((x :: ds) ++ ws ++ y :: u') ++ c :: tail).
  apply take_app_minus.
Qed.

Lemma matchAt_needs_digit prev (c : N) (s : jsstring) :
  isDigit c = false -> matchAt true Rich.timeboxRegex prev (c :: s) = None.
Proof.
  intros Hc. unfold matchAt. rewrite rmatch_timeboxRegex, Hc. reflexivity.
Qed.

(** The timebox is always the match of the pattern somewhere. *)
Lemma timeboxOf_is_a_match (situation : jsstring) :
  exists prev s,
    matchAt true Rich.timeboxRegex prev s = Some (Rich.timeboxOf situation).
Proof.
  unfold Rich.timeboxOf, match0.
  destruct (searchFrom true Rich.timeboxRegex None situation) as [m|] eqn:E.
  - apply searchFrom_Some in E as (pre & post & _ & Hm & _).
    exists (prevAfter None pre), post. exact Hm.
  - exists None, (lit "30 minutes"). reflexivity.
Qed.

Lemma split_inside_prefix (P Q pre post : jsstring) :
  P ++ Q = pre ++ post -> (length pre < length P)%nat ->
  exists c rest, post = c :: rest /\ In c P.
Proof.
  intros Heq Hlt.
  apply app_eq_app in Heq as (l & [(HP & Hpost) | (Hpre & _)]).
  - destruct l as [|c l].
    + rewrite app_nil_r in HP. subst P. lia.
    + exists c, (l ++ Q). split; [exact Hpost|].
      rewrite HP. apply in_or_app. right. left. reflexivity.
  - subst pre. rewrite length_app in Hlt. lia.
Qed.

(** X22. The timebox can be read back from the response: scanning the
    composed details with the same pattern finds exactly the timebox
    that was put into the heading, so composing again from the details
    (other arguments unchanged) reproduces them. *)
Theorem timebox_read_back_from_details (args : Rich.NextBestStepArgs) :
  Rich.timeboxOf (Rich.detailsOf args)
  = Rich.timeboxOf (Rich.situation args)
  /\ Rich.detailsOf (Rich.mkArgs (Rich.detailsOf args)
                       (Rich.constraints args) (Rich.desired_outcome args))
     = Rich.detailsOf args.
Proof.
  set (tb := Rich.timeboxOf (Rich.situation args)).
  assert (Hshape : exists tail,
            Rich.detailsOf args
            = lit "Next Best Step (" ++ tb ++ 41 :: tail).
  { unfold Rich.detailsOf. rewrite detailsLinesOf_shape. fold tb.
    set (rest := (if truthy _ then _ else _) ++ [Rich.finishLine]).
    set (cl := lit "Constraints: " ++ _).
    change ([Rich.headingOf tb; Rich.stepOf tb; cl] ++ rest)
      with (Rich.headingOf tb :: Rich.stepOf tb :: cl :: rest).
    rewrite join_cons_cons. unfold Rich.headingOf.
    eexists. rewrite <- !app_assoc. reflexivity. }
  destruct Hshape as (tail & Hshape).
  assert (Htb : Rich.timeboxOf (Rich.detailsOf args) = tb).
  { destruct (timeboxOf_is_a_match (Rich.situation args))
      as (prev & s & Hmatch). fold tb in Hmatch.
    unfold Rich.timeboxOf at 1, match0. rewrite Hshape.
    assert (Hfound : searchFrom true Rich.timeboxRegex None
                       (lit "Next Best Step (" ++ tb ++ 41 :: tail)
                     = Some tb).
    { apply searchFrom_Some.
      exists (lit "Next Best Step ("), (tb ++ 41 :: tail).
      split; [reflexivity|]. split.
      - apply (matchAt_rescan prev _ s tb 41 tail Hmatch).
        + lia.
        + reflexivity.
        + reflexivity.
      - intros pre' post' Heq Hlt.
        destruct (split_inside_prefix _ _ _ _ Heq Hlt) as (c & r & -> & Hin).
        apply matchAt_needs_digit.
        vm_compute in Hin.
        repeat (destruct Hin as [<-|Hin]; [reflexivity|]).
        destruct Hin. }
    rewrite Hfound. reflexivity. }
  split; [exact Htb|].
  unfold Rich.detailsOf at 1 3. rewrite !detailsLinesOf_shape.
  cbn [Rich.situation Rich.constraints Rich.desired_outcome].
  rewrite Htb. reflexivity.
Qed.

(** ** PORT as a run of digits *)

(** X13. When PORT is a non-empty run of decimal digits that spell an
    integer up to 2^53 (the range in which every integer is a double,
    so that the conversion is exact), both variants take exactly that
    number, leading zeros included and with no check against the range
    of port numbers; when the digits spell 2^1024 - 2^970 or more, the
    conversion gives Infinity and both fall back to their defaults.
    Between the two bounds the runtime rounds to the nearest double;
    nothing is stated there. *)
Theorem port_of_decimal_digits (ds : jsstring) :
  ds <> [] -> Forall (fun c => isDigit c = true) ds ->
  exists v,
    digitsValueFrom 10 0 ds = Some v
    /\ (0 <= v)%Z
    /\ ((v <= 2 ^ 53)%Z ->
        Simple.port (Some ds) = Finite v 0 /\ Rich.port (Some ds) = Finite v 0)
    /\ ((overflowBound <= v)%Z ->
        Simple.port (Some ds) = Finite 10000 0
        /\ Rich.port (Some ds) = Finite 8000 0).
Proof.
  intros Hne Hds.
  destruct (stringToNumber_digits ds Hne Hds) as (v & Hv & Hpos & Hnum).
  exists v. split; [exact Hv|]. split; [exact Hpos|]. split.
  - intros Hle. apply (port_of_digits ds v Hne Hds Hv).
    assert (Hbound : (2 ^ 53 < overflowBound)%Z) by reflexivity.
    lia.
  - intros Hge. apply port_not_finite. rewrite Hnum. unfold roundFinite.
    change (0 <=? 0)%Z with true. cbv iota.
    rewrite Z.pow_0_r, Z.mul_1_r, Z.abs_eq by exact Hpos.
    destruct (Z.leb_spec overflowBound v); [reflexivity | lia].
Qed.

Lemma port_of_decimal_digits_witness :
  exists v, digitsValueFrom 10 0 (lit "0443") = Some v
            /\ Rich.port (Some (lit "0443")) = Finite v 0.
Proof.
  destruct (port_of_decimal_digits (lit "0443")) as (v & Hv & _ & Hlt & _).
  - discriminate.
  - repeat constructor.
  - exists v. split; [exact Hv|].
    apply Hlt. vm_compute in Hv. injection Hv as <-. vm_compute. discriminate.
Defined.

(** ** Blank input to the simple variant's tool *)

(** X23. The simple variant checks the length of [user_input] before
    lower-casing and trimming it: an input that is not empty but blank
    passes validation and is answered with the Stuck (S1) message and
    call to action. *)
Theorem simple_blank_input_is_stuck (toLowerCase : jsstring -> jsstring)
    (arguments : Rich.Arguments) (s : jsstring) :
  arguments !! "user_input" = Some (Rich.VString s) ->
  s <> [] ->
  Forall (fun c => isWhiteSpace c = true) (toLowerCase s) ->
  exists result,
    SimpleServer.callTool toLowerCase "next_best_step" (Some arguments)
    = Rich.Ok result
    /\ SimpleServer.structuredState result = Simple.S1
    /\ SimpleServer.contentText result
       = Simple.message (Simple.stateData Simple.S1)
         +:+ SimpleServer.twoNewlines
         +:+ Simple.ask (Simple.stateData Simple.S1).
Proof.
  intros Harg Hne Hblank.
  assert (Hparse : SimpleServer.inputParser arguments = Rich.Ok s)
    by (apply inputParser_Ok; auto).
  assert (Hstate : Simple.inferState toLowerCase s = Simple.S1).
  { unfold Simple.inferState, Simple.normalize.
    rewrite (trim_blank _ Hblank). reflexivity. }
  unfold SimpleServer.callTool.
  change (String.eqb "next_best_step" "next_best_step") with true.
  cbv iota. cbn [default from_option id]. rewrite Hparse, Hstate.
  eexists. split; [reflexivity|]. split; reflexivity.
Qed.

Lemma simple_blank_input_is_stuck_witness :
  exists result,
    SimpleServer.callTool toLowerAscii "next_best_step"
      (Some {[ "user_input" := Rich.VString (lit "  ") ]}) = Rich.Ok result
    /\ SimpleServer.structuredState result = Simple.S1.
Proof.
  destruct (simple_blank_input_is_stuck toLowerAscii
              {[ "user_input" := Rich.VString (lit "  ") ]} (lit "  "))
    as (result & Hok & Hstate & _).
  - reflexivity.
  - discriminate.
  - repeat constructor.
  - exists result. split; assumption.
Defined.
